(** * Kratos MCP: the retrieval and ranking core

    A shallow embedding of the storage engine ([MemoryDatabase],
    src/memory-server/database.ts), of the two concept stores
    ([ConceptStoreEnhanced] and [ConceptStore]), of the concept_search
    handler of the server (src/index.ts) and of the context assembler
    ([ContextBroker]), followed by the properties stated about them.

    Modelling conventions.
    - A JavaScript string is the [string] of its code units.  The case
      mapping, the white space and the word characters are rendered as
      JavaScript has them on code units below 128, where the UTF-16 length
      and the UTF-8 byte length coincide too; the statements about the
      dedupe fingerprint and the dedupe key, which turn on the case
      mapping, say [ascii_only] of the summaries they speak of.
    - A JavaScript number is a [Z] where the code counts or stores integers
      (timestamps, sizes, importance, limits) and a [Q] where it computes a
      score; score arithmetic is exact, without binary rounding.
    - A SQLite table is the list of its rows in rowid order.  What SQLite
      itself computes and the repository does not define (the FTS5 MATCH
      operator with bm25 and snippet, the LIKE operator, MD5) is a section
      variable: every statement holds for whatever these functions are.
    - Date.now() and crypto.randomBytes are inputs of the operation that
      reads them.
    - An exception is a value: [Err] of [result], [Throw] of [completion]. *)

From Stdlib Require Import String Ascii List ZArith QArith Qminmax Bool Lia Lqa
  Sorted Permutation DecimalString.
Import ListNotations.

Set Implicit Arguments.

Local Open Scope string_scope.
Local Open Scope list_scope.

(* ================================================================== *)
(** * JavaScript values and control flow *)

Module Js.

(** ** Truthiness and defaults *)

(** [x || d] on an optional number: [undefined] and [0] are falsy. *)
Definition or_default (x : option Z) (d : Z) : Z :=
  match x with
  | Some v => if (v =? 0)%Z then d else v
  | None => d
  end.

(** [x || d] on an optional array: every array, also the empty one, is
    truthy. *)
Definition or_empty (A : Type) (x : option (list A)) : list A :=
  match x with Some l => l | None => [] end.

(** Truthiness of an optional boolean flag. *)
Definition truthy (x : option bool) : bool :=
  match x with Some b => b | None => false end.

(** ** Exceptions and early returns *)

Inductive Error : Type :=
| SQLITE_ERROR        (* a statement that does not prepare or run *)
| SQLITE_CONSTRAINT   (* PRIMARY KEY, CHECK or FOREIGN KEY violated *)
| TypeError.          (* a property read from undefined *)

(** The outcome of a call. *)
Inductive result (A : Type) : Type :=
| Ok (a : A)
| Err (e : Error).
Arguments Ok {A} a.
Arguments Err {A} e.

Definition bind (A B : Type) (r : result A) (f : A -> result B) : result B :=
  match r with Ok a => f a | Err e => Err e end.

(** The completion of a statement inside a function body: it falls
    through to the next statement, returns from the function, or throws. *)
Inductive completion (A : Type) : Type :=
| Normal
| Return (v : A)
| Throw (e : Error).
Arguments Normal {A}.
Arguments Return {A} v.
Arguments Throw {A} e.

(** [s1; s2] *)
Definition seq (A : Type) (s1 s2 : completion A) : completion A :=
  match s1 with Normal => s2 | _ => s1 end.

(** [try { body } catch (error) { handler }] *)
Definition try_catch (A : Type) (body : completion A)
    (handler : Error -> completion A) : completion A :=
  match body with Throw e => handler e | _ => body end.

(** ** Characters *)

Definition code (c : ascii) : nat := nat_of_ascii c.

Definition between (lo hi : nat) (c : ascii) : bool :=
  (lo <=? code c)%nat && (code c <=? hi)%nat.

Definition is_upper : ascii -> bool := between 65 90.
Definition is_lower : ascii -> bool := between 97 122.
Definition is_digit : ascii -> bool := between 48 57.

(** The class [\w]: letters, digits and the underscore. *)
Definition is_word (c : ascii) : bool :=
  is_upper c || is_lower c || is_digit c || (code c =? 95)%nat.

(** The class [\s] below 128: tab, line feed, vertical tab, form feed,
    carriage return and space. *)
Definition is_space (c : ascii) : bool :=
  between 9 13 c || (code c =? 32)%nat.

(** The class [[^\w\s]]. *)
Definition is_special (c : ascii) : bool := negb (is_word c || is_space c).

Definition lower_char (c : ascii) : ascii :=
  if is_upper c then ascii_of_nat (code c + 32) else c.

(** ** Strings *)

Fixpoint map_chars (f : ascii -> ascii) (s : string) : string :=
  match s with
  | EmptyString => EmptyString
  | String c s' => String (f c) (map_chars f s')
  end.

Fixpoint exists_char (p : ascii -> bool) (s : string) : bool :=
  match s with
  | EmptyString => false
  | String c s' => p c || exists_char p s'
  end.

Fixpoint filter_chars (p : ascii -> bool) (s : string) : string :=
  match s with
  | EmptyString => EmptyString
  | String c s' => if p c then String c (filter_chars p s') else filter_chars p s'
  end.

(** [s.toLowerCase()] on a string of ASCII code units: the case mapping
    of the code changes no other unit below 128, and [lower_char],
    [is_space] and [is_word] are what toLowerCase, trim, [\s] and [\w] do
    on those units.  Statements that rest on the case mapping or on the
    white space of a string carry [ascii_only] for it. *)
Definition toLowerCase : string -> string := map_chars lower_char.

(** Every code unit of the string is below 128. *)
Fixpoint ascii_only (s : string) : bool :=
  match s with
  | EmptyString => true
  | String c s' => (code c <? 128)%nat && ascii_only s'
  end.

Fixpoint trimStart (s : string) : string :=
  match s with
  | EmptyString => EmptyString
  | String c s' => if is_space c then trimStart s' else s
  end.

Fixpoint trimEnd (s : string) : string :=
  match s with
  | EmptyString => EmptyString
  | String c s' =>
      let t := trimEnd s' in
      if is_space c && (t =? "") then "" else String c t
  end.

Definition trim (s : string) : string := trimEnd (trimStart s).

(** [s.replace(/\s+/g, ' ')]; [in_run] tells that the previous character
    belonged to the run of white space being replaced. *)
Fixpoint collapse_from (in_run : bool) (s : string) : string :=
  match s with
  | EmptyString => EmptyString
  | String c s' =>
      if is_space c
      then if in_run then collapse_from true s'
           else String " " (collapse_from true s')
      else String c (collapse_from false s')
  end.

Definition collapse_spaces : string -> string := collapse_from false.

(** [s.replace(/[^\w\s]/g, ' ')] *)
Definition blank_specials : string -> string :=
  map_chars (fun c => if is_special c then " "%char else c).

(** [s.replace(/[^\w\s]/g, '')] *)
Definition drop_specials : string -> string :=
  filter_chars (fun c => negb (is_special c)).

(** Every double quote (code unit 34) is written twice: the replace call
    that escapes quotes for FTS5. *)
Fixpoint double_quotes (s : string) : string :=
  match s with
  | EmptyString => EmptyString
  | String c s' =>
      if (code c =? 34)%nat
      then String c (String c (double_quotes s'))
      else String c (double_quotes s')
  end.

Definition starts_with_space (s : string) : bool :=
  match s with String c _ => is_space c | EmptyString => false end.

(** The white space of the string consists of single spaces; with
    [after_space], the string does not start with one either. *)
Fixpoint single_spaced (after_space : bool) (s : string) : bool :=
  match s with
  | EmptyString => true
  | String c s' =>
      if is_space c
      then negb after_space && (code c =? 32)%nat && single_spaced true s'
      else single_spaced false s'
  end.

(** [s.split(/\s+/)]: the pieces between the maximal runs of white space,
    with an empty first or last piece when [s] starts or ends with one. *)
Fixpoint split_spaces (s : string) : list string :=
  match s with
  | EmptyString => [""]
  | String c s' =>
      if is_space c
      then if starts_with_space s' then split_spaces s'
           else "" :: split_spaces s'
      else match split_spaces s' with
           | piece :: pieces => String c piece :: pieces
           | [] => [String c ""]
           end
  end.

(** [s.split(sep)] for a one-character separator. *)
Fixpoint split_char (sep : ascii) (s : string) : list string :=
  match s with
  | EmptyString => [""]
  | String c s' =>
      if Ascii.eqb c sep then "" :: split_char sep s'
      else match split_char sep s' with
           | piece :: pieces => String c piece :: pieces
           | [] => [String c ""]
           end
  end.

(** [l.join(sep)] *)
Definition join (sep : string) (l : list string) : string :=
  String.concat sep l.

Definition startsWith (s p : string) : bool := prefix p s.

Fixpoint includes (s sub : string) : bool :=
  prefix sub s ||
  match s with
  | EmptyString => false
  | String _ s' => includes s' sub
  end.

Fixpoint endsWith_char (c : ascii) (s : string) : bool :=
  match s with
  | EmptyString => false
  | String d EmptyString => Ascii.eqb c d
  | String _ s' => endsWith_char c s'
  end.

(** [s.slice(0, -1)] *)
Fixpoint drop_last (s : string) : string :=
  match s with
  | EmptyString => EmptyString
  | String _ EmptyString => EmptyString
  | String c s' => String c (drop_last s')
  end.

(** [s.replace(/\*$/, '')] *)
Definition strip_star (s : string) : string :=
  if endsWith_char "*" s then drop_last s else s.

Definition mem (x : string) (l : list string) : bool :=
  existsb (String.eqb x) l.

(** ** Arrays *)

(** A stable insertion sort: [x] is placed after the elements that must
    come [before] it and before the others, so elements that compare
    equal keep their order (Array.prototype.sort is stable). *)
Fixpoint insert_by (A : Type) (before : A -> A -> bool) (x : A) (l : list A)
  : list A :=
  match l with
  | [] => [x]
  | y :: l' => if before y x then y :: insert_by before x l' else x :: l
  end.

Fixpoint sort_by (A : Type) (before : A -> A -> bool) (l : list A) : list A :=
  match l with
  | [] => []
  | x :: l' => insert_by before x (sort_by before l')
  end.

(** [l.sort()] on strings: ascending by code units. *)
Definition sort_strings : list string -> list string :=
  sort_by (fun a b => negb (String.leb b a)).

(** The elements of a [Set] in insertion order. *)
Fixpoint set_of (l : list string) (seen : list string) : list string :=
  match l with
  | [] => []
  | x :: l' => if mem x seen then set_of l' seen else x :: set_of l' (x :: seen)
  end.

(** [s] keeps some of the elements of [l], in the order of [l]. *)
Inductive subsequence (A : Type) : list A -> list A -> Prop :=
| subsequence_nil : forall l, subsequence [] l
| subsequence_skip : forall x s l, subsequence s l -> subsequence s (x :: l)
| subsequence_take : forall x s l, subsequence s l -> subsequence (x :: s) (x :: l).

End Js.

(* ================================================================== *)
(** * SQL *)

Module Sql.

(** [LIMIT k]: a negative limit is no limit. *)
Definition limit (A : Type) (k : Z) (l : list A) : list A :=
  if (k <? 0)%Z then l else firstn (Z.to_nat k) l.

(** [ORDER BY]: [before a b] tells that [a] sorts strictly before [b];
    rows that tie stay in rowid order. *)
Definition order_by (A : Type) (before : A -> A -> bool) (l : list A) : list A :=
  Js.sort_by before l.

(** [x > y] on a nullable column is not true when [x] is NULL. *)
Definition gt_null (x : option Z) (y : Z) : bool :=
  match x with Some v => (y <? v)%Z | None => false end.

Definition lt_null (x : option Z) (y : Z) : bool :=
  match x with Some v => (v <? y)%Z | None => false end.

Definition Qgtb (a b : Q) : bool := negb (Qle_bool a b).

End Sql.

(* ================================================================== *)
(** * The storage engine: class MemoryDatabase *)

Module MemoryDatabase.
Import Js.

(** interface Memory *)
Record Memory : Type := mkMemory {
  id : string;
  project_id : string;
  summary : string;
  text : string;
  tags : list string;
  paths : list string;
  importance : Z;
  created_at : Z;
  updated_at : Z;
  ttl : option Z;
  expires_at : option Z
}.

(** A row of table memories: the columns that rowToMemory reads, and
    dedupe_hash.  The JSON text of the columns tags and paths is the array
    it encodes. *)
Record Row : Type := mkRow {
  rowToMemory : Memory;
  dedupe_hash : string
}.

(** interface SearchResult *)
Record SearchResult : Type := mkSearchResult {
  memory : Memory;
  score : Q;
  snippet : string
}.

(** The parameter of save. *)
Record SaveParams : Type := mkSaveParams {
  save_summary : string;
  save_text : string;
  save_tags : option (list string);
  save_paths : option (list string);
  save_importance : option Z;
  save_ttl : option Z
}.

(** What save returns: the new record after an insert, the object
    [{ id }] that update returns after a fingerprint collision. *)
Inductive SaveResult : Type :=
| Saved (m : Memory)
| Existing (existing_id : string).

Definition saved_id (r : SaveResult) : string :=
  match r with Saved m => id m | Existing i => i end.

(** Partial<Memory>, as far as update reads it. *)
Record Patch : Type := mkPatch {
  patch_summary : option string;
  patch_text : option string;
  patch_tags : option (list string);
  patch_paths : option (list string);
  patch_importance : option Z
}.

(** The parameter of search, searchWithDebug and executeSearch. *)
Record SearchParams : Type := mkSearchParams {
  q : string;
  k : option Z;
  require_path_match : option bool;
  search_tags : option (list string);
  include_expired : option bool
}.

(** [{...params, q: q'}] *)
Definition with_q (p : SearchParams) (q' : string) : SearchParams :=
  mkSearchParams q' (k p) (require_path_match p) (search_tags p)
    (include_expired p).

(** The parameter of getRecent. *)
Record RecentParams : Type := mkRecentParams {
  recent_k : option Z;
  path_prefix : option string;
  recent_include_expired : option bool
}.

(** interface EnhancedSearchResult, debug_info flattened. *)
Record EnhancedSearchResult : Type := mkEnhanced {
  results : list SearchResult;
  original_query : string;
  queries_tried : list string;
  fallback_used : option string;
  total_memories_scanned : Z;
  search_time_ms : Z
}.

(** CHECK(importance >= 1 AND importance <= 5) *)
Definition check_importance (i : Z) : bool := (1 <=? i)%Z && (i <=? 5)%Z.

(** [x || undefined] on a nullable number. *)
Definition or_undefined (x : option Z) : option Z :=
  match x with
  | Some v => if (v =? 0)%Z then None else Some v
  | None => None
  end.

Section Engine.

(** crypto.createHash('md5').update(s).digest('hex') *)
Variable md5 : string -> string.

(** [mem_fts MATCH expr] over the rows of the table: the statement fails,
    or it gives bm25(mem_fts) and the snippet of the rows that match. *)
Variable fts5 : list Row -> string -> result (Row -> option (Q * string)).

(** [value LIKE pattern] *)
Variable like : string -> string -> bool.

(** this.projectId *)
Variable projectId : string.

Definition computeDedupeHash (summary : string) (paths : list string) : string :=
  let normalized :=
    (trim (toLowerCase summary) ++ "|" ++ join "|" (sort_strings paths))%string in
  md5 normalized.

(** [INSERT INTO memories]: id is the primary key of the table. *)
Definition insert (rows : list Row) (r : Row) : result (list Row) :=
  if existsb (fun x => id (rowToMemory x) =? id (rowToMemory r)) rows
  then Err SQLITE_CONSTRAINT
  else if check_importance (importance (rowToMemory r))
  then Ok (rows ++ [r])
  else Err SQLITE_CONSTRAINT.

(** The SET clause that update builds: updated_at always, each other
    column when the parameter defines it. *)
Definition set_columns (now : Z) (p : Patch) (r : Row) : Row :=
  let m := rowToMemory r in
  mkRow
    (mkMemory (id m) (project_id m)
       (match patch_summary p with Some s => s | None => summary m end)
       (match patch_text p with Some s => s | None => text m end)
       (match patch_tags p with Some l => l | None => tags m end)
       (match patch_paths p with Some l => l | None => paths m end)
       (match patch_importance p with Some i => i | None => importance m end)
       (created_at m) now (ttl m) (expires_at m))
    (dedupe_hash r).

Definition update_where (id' : string) (r : Row) : bool :=
  (id (rowToMemory r) =? id') && (project_id (rowToMemory r) =? projectId).

(** update: [UPDATE memories SET ... WHERE id = ? AND project_id = ?];
    it returns [{ id }]. *)
Definition update (rows : list Row) (now : Z) (id' : string) (p : Patch)
  : result (string * list Row) :=
  let rows' :=
    map (fun r => if update_where id' r then set_columns now p r else r) rows in
  if forallb (fun r => check_importance (importance (rowToMemory r))
                       || negb (update_where id' r)) rows'
  then Ok (id', rows')
  else Err SQLITE_CONSTRAINT.

(** save, with [now] the value of Date.now() and [new_id] the value of
    generateId().  computeDedupeHash sorts the array params.paths in
    place, so what save stores and returns afterwards is the sorted
    array. *)
Definition save (rows : list Row) (now : Z) (new_id : string) (params : SaveParams)
  : result (SaveResult * list Row) :=
  let dedupeHash :=
    computeDedupeHash (save_summary params) (or_empty (save_paths params)) in
  let paths' := option_map sort_strings (save_paths params) in
  match find (fun r => (dedupe_hash r =? dedupeHash)
                       && (project_id (rowToMemory r) =? projectId)) rows with
  | Some existing =>
      bind (update rows now (id (rowToMemory existing))
              (mkPatch (Some (save_summary params)) (Some (save_text params))
                 (save_tags params) paths' (save_importance params)))
           (fun r => Ok (Existing (fst r), snd r))
  | None =>
      let expires :=
        match or_undefined (save_ttl params) with
        | Some t => Some (now + t * 1000)%Z
        | None => None
        end in
      let stored :=
        mkMemory new_id projectId (save_summary params) (save_text params)
          (or_empty (save_tags params)) (or_empty paths')
          (or_default (save_importance params) 3) now now
          (or_undefined (save_ttl params)) expires in
      let returned :=
        mkMemory new_id projectId (save_summary params) (save_text params)
          (or_empty (save_tags params)) (or_empty paths')
          (or_default (save_importance params) 3) now now
          (save_ttl params) (or_undefined expires) in
      bind (insert rows (mkRow stored dedupeHash))
           (fun rows' => Ok (Saved returned, rows'))
  end.

(** escapeQuery *)
Definition escapeQuery (query : string) : string :=
  let cleaned := trim (collapse_spaces (blank_specials (double_quotes query))) in
  if negb (cleaned =? query) || includes cleaned " "
  then String (ascii_of_nat 34) (cleaned ++ String (ascii_of_nat 34) "")%string
  else cleaned.

Definition not_expired (now : Z) (m : Memory) : bool :=
  match expires_at m with
  | None => true
  | Some e => (now <? e)%Z
  end.

(** The terms of the query that look like file paths. *)
Definition pathTerms (query : string) : list string :=
  filter (fun term => includes term "/" || includes term "\" || includes term ".")
    (split_spaces query).

(** ORDER BY fts_score DESC, m.importance DESC, m.created_at DESC *)
Definition search_order (a b : Row * (Q * string)) : bool :=
  let ma := rowToMemory (fst a) in
  let mb := rowToMemory (fst b) in
  let sa := fst (snd a) in
  let sb := fst (snd b) in
  Sql.Qgtb sa sb
  || (Qeq_bool sa sb
      && ((importance mb <? importance ma)%Z
          || ((importance ma =? importance mb)%Z
              && (created_at mb <? created_at ma)%Z))).

(** The WHERE clause of executeSearch after the MATCH. *)
Definition search_where (now : Z) (params : SearchParams) (r : Row) : bool :=
  let m := rowToMemory r in
  (project_id m =? projectId)
  && (truthy (include_expired params) || not_expired now m)
  && (match search_tags params with
      | Some (t :: ts) => existsb (fun value => mem value (t :: ts)) (tags m)
      | _ => true
      end)
  && (negb (truthy (require_path_match params))
      || existsb (fun term =>
                    existsb (fun value => like value ("%" ++ term ++ "%")%string)
                      (paths m))
           (pathTerms (q params))).

(** executeSearch, with [now] the value of Date.now(). *)
Definition executeSearch (rows : list Row) (now : Z) (params : SearchParams)
  : result (list SearchResult) :=
  let k := or_default (k params) 10 in
  if truthy (require_path_match params)
     && match pathTerms (q params) with [] => true | _ => false end
  then Ok []
  else
    bind (fts5 rows (escapeQuery (q params)))
      (fun hit =>
         let joined :=
           flat_map (fun r => match hit r with
                              | Some s => [(r, s)]
                              | None => []
                              end) rows in
         let selected := filter (fun rs => search_where now params (fst rs)) joined in
         Ok (map (fun rs => mkSearchResult (rowToMemory (fst rs))
                              (- fst (snd rs)) (snd (snd rs)))
               (Sql.limit k (Sql.order_by search_order selected)))).

(** [const results = this.executeSearch(...);
     if (results.length > 0) return wrap(results);] *)
Definition return_if_found (A : Type) (r : result (list SearchResult))
    (wrap : list SearchResult -> A) : completion A :=
  match r with
  | Err e => Throw e
  | Ok [] => Normal
  | Ok found => Return (wrap found)
  end.

(** [return wrap(this.executeSearch(...));] *)
Definition return_whatever (A : Type) (r : result (list SearchResult))
    (wrap : list SearchResult -> A) : completion A :=
  match r with
  | Err e => Throw e
  | Ok found => Return (wrap found)
  end.

(** The guard of fallback 1: [params.q.match(/[^\w\s]/)]. *)
Definition has_special (query : string) : bool := exists_char is_special query.

(** The query of fallback 1. *)
Definition fallbackQuery (query : string) : string :=
  trim (collapse_spaces (blank_specials query)).

(** [params.q.split(/\s+/).filter(word => word.length > 2)] *)
Definition words (query : string) : list string :=
  filter (fun word => (2 <? String.length word)%nat) (split_spaces query).

(** The queries of the four stages and the guards under which the last
    three run. *)
Definition stage_guard (stage : nat) (query : string) : bool :=
  match stage with
  | 1%nat => true
  | 2%nat => has_special query
  | 3%nat => (1 <? List.length (words query))%nat
  | 4%nat => (0 <? List.length (words query))%nat
  | _ => false
  end.

Definition stage_query (stage : nat) (query : string) : string :=
  match stage with
  | 2%nat => fallbackQuery query
  | 3%nat => join " OR " (words query)
  | 4%nat => hd "" (words query)
  | _ => query
  end.

(** The call of executeSearch that a stage makes; [clock n] is what
    Date.now() gives when stage [n] reads it. *)
Definition run_stage (rows : list Row) (clock : nat -> Z) (params : SearchParams)
    (stage : nat) : result (list SearchResult) :=
  executeSearch rows (clock stage)
    (match stage with
     | 1%nat => params
     | _ => with_q params (stage_query stage (q params))
     end).

Definition warn (A : Type) (_ : Error) : completion A := Normal.

(** search *)
Definition search (rows : list Row) (clock : nat -> Z) (params : SearchParams)
  : completion (list SearchResult) :=
  let keep := fun found : list SearchResult => found in
  seq (try_catch (return_if_found (run_stage rows clock params 1) keep)
         (@warn _))
 (seq (if has_special (q params)
       then try_catch (return_if_found (run_stage rows clock params 2) keep)
              (@warn _)
       else Normal)
 (seq (if (1 <? List.length (words (q params)))%nat
       then try_catch (return_if_found (run_stage rows clock params 3) keep)
              (@warn _)
       else Normal)
 (seq (if (0 <? List.length (words (q params)))%nat
       then try_catch (return_whatever (run_stage rows clock params 4) keep)
              (@warn _)
       else Normal)
      (Return [])))).

(** getTotalMemoryCount *)
Definition getTotalMemoryCount (rows : list Row) : Z :=
  Z.of_nat (List.length
              (filter (fun r => project_id (rowToMemory r) =? projectId) rows)).

(** searchWithDebug; [clock 0] is startTime and [clock 5] the reading of
    Date.now() in the object returned. *)
Definition searchWithDebug (rows : list Row) (clock : nat -> Z)
    (params : SearchParams) : completion EnhancedSearchResult :=
  let debug := fun (tried : list string) (fallback : option string)
                   (found : list SearchResult) =>
    mkEnhanced found (q params) tried fallback (getTotalMemoryCount rows)
      (clock 5%nat - clock 0%nat)%Z in
  let tried1 := [q params] in
  let tried2 :=
    if has_special (q params) then tried1 ++ [fallbackQuery (q params)]
    else tried1 in
  let tried3 :=
    if (1 <? List.length (words (q params)))%nat
    then tried2 ++ [join " OR " (words (q params))]
    else tried2 in
  let tried4 :=
    if (0 <? List.length (words (q params)))%nat
    then tried3 ++ [hd "" (words (q params))]
    else tried3 in
  seq (try_catch (return_if_found (run_stage rows clock params 1)
                    (debug tried1 None))
         (@warn _))
 (seq (if has_special (q params)
       then try_catch (return_if_found (run_stage rows clock params 2)
                         (debug tried2 (Some "removed_special_chars")))
              (@warn _)
       else Normal)
 (seq (if (1 <? List.length (words (q params)))%nat
       then try_catch (return_if_found (run_stage rows clock params 3)
                         (debug tried3 (Some "or_search")))
              (@warn _)
       else Normal)
 (seq (if (0 <? List.length (words (q params)))%nat
       then try_catch (return_whatever (run_stage rows clock params 4)
                         (debug tried4 (Some "broad_search")))
              (@warn _)
       else Normal)
      (Return (debug tried4 (Some "all_failed") []))))).

(** getRecent, with [now] the value of Date.now(). *)
Definition getRecent (rows : list Row) (now : Z) (params : RecentParams)
  : list Memory :=
  let k := or_default (recent_k params) 10 in
  let selected :=
    filter (fun r =>
              let m := rowToMemory r in
              (project_id m =? projectId)
              && (truthy (recent_include_expired params) || not_expired now m)
              && (match path_prefix params with
                  | None | Some "" => true
                  | Some prefix =>
                      existsb (fun value => like value (prefix ++ "%")%string) (paths m)
                  end)) rows in
  map rowToMemory
    (Sql.limit k
       (Sql.order_by (fun a b => (created_at (rowToMemory b)
                                  <? created_at (rowToMemory a))%Z) selected)).

(** get *)
Definition get (rows : list Row) (id' : string) : option Memory :=
  option_map rowToMemory
    (find (fun r => (id (rowToMemory r) =? id')
                    && (project_id (rowToMemory r) =? projectId)) rows).

(** [result[key] = value] on the object that getMultiple builds. *)
Fixpoint assign (A : Type) (key : string) (value : A) (o : list (string * A))
  : list (string * A) :=
  match o with
  | [] => [(key, value)]
  | (key', value') :: o' =>
      if key' =? key then (key, value) :: o'
      else (key', value') :: assign key value o'
  end.

(** [result[key]] *)
Definition lookup (A : Type) (key : string) (o : list (string * A)) : option A :=
  option_map snd (find (fun kv => fst kv =? key) o).

(** The prototype of the object that getMultiple builds: Object.prototype,
    with which an object literal starts, null, or a record. *)
Inductive Prototype : Type :=
| ObjectPrototype
| NullPrototype
| RecordPrototype (m : Memory).

(** The object that getMultiple builds: its own properties and its
    prototype. *)
Record Dictionary : Type := mkDictionary {
  own : list (string * option Memory);
  prototype : Prototype
}.

Definition has_own (key : string) (o : Dictionary) : bool :=
  existsb (fun kv => fst kv =? key) (own o).

(** [result[key] = value] with a value that is null or a record.
    Object.prototype carries the accessor __proto__: on an object that
    has no own property of that name and inherits the accessor, the
    assignment sets the prototype to the value and creates no property.
    A record is an object literal, so an object whose prototype is a
    record inherits the accessor as well; an object whose prototype is
    null does not, and there the assignment creates the property. *)
Definition set_property (key : string) (value : option Memory) (o : Dictionary)
  : Dictionary :=
  if (key =? "__proto__") && negb (has_own "__proto__" o)
     && match prototype o with NullPrototype => false | _ => true end
  then mkDictionary (own o)
         (match value with
          | Some m => RecordPrototype m
          | None => NullPrototype
          end)
  else mkDictionary (assign key value (own o)) (prototype o).

(** getMultiple *)
Definition getMultiple (rows : list Row) (ids : list string) : Dictionary :=
  let result := mkDictionary [] ObjectPrototype in
  match ids with
  | [] => result
  | _ =>
      let results :=
        filter (fun r => mem (id (rowToMemory r)) ids
                         && (project_id (rowToMemory r) =? projectId)) rows in
      let nulls := fold_left (fun o id' => set_property id' None o) ids result in
      fold_left (fun o r => set_property (id (rowToMemory r))
                              (Some (rowToMemory r)) o)
        results nulls
  end.

(** What forget returns. *)
Record ForgetResult : Type := mkForgetResult {
  ok : bool;
  message : string
}.

Definition forget_where (id' : string) (r : Row) : bool :=
  (id (rowToMemory r) =? id') && (project_id (rowToMemory r) =? projectId).

(** forget.  The statements on the table memories_fts, which this class
    does not create, read and write no row of memories; none of the
    statements fails, so the catch clause is not reached. *)
Definition forget (rows : list Row) (id' : string) : ForgetResult * list Row :=
  match find (forget_where id') rows with
  | None =>
      (mkForgetResult false
         ("Memory " ++ id' ++ " not found in project " ++ projectId)%string,
       rows)
  | Some _ =>
      let rows' := filter (fun r => negb (forget_where id' r)) rows in
      let changes := (List.length rows - List.length rows')%nat in
      (mkForgetResult (0 <? changes)%nat
         (if (0 <? changes)%nat then "Memory deleted successfully"
          else "Memory not found"),
       rows')
  end.

(** cleanupExpired, with [now] the value of Date.now():
    [DELETE FROM memories WHERE expires_at < ?]. *)
Definition cleanupExpired (rows : list Row) (now : Z) : list Row :=
  filter (fun r => negb (Sql.lt_null (expires_at (rowToMemory r)) now)) rows.

(** ** Notions used to state the properties of the read operations *)

(** A stage of the cascade gives nothing: its search fails, or it finds
    no row. *)
Definition gives_nothing (r : result (list SearchResult)) : bool :=
  match r with
  | Ok (_ :: _) => false
  | _ => true
  end.

(** The records that a call of search hands to its caller. *)
Definition found_by_search (c : completion (list SearchResult)) : list Memory :=
  match c with
  | Return found => map memory found
  | _ => []
  end.

(** The records that a call of searchWithDebug hands to its caller. *)
Definition found_by_debug (c : completion EnhancedSearchResult) : list Memory :=
  match c with
  | Return d => map memory (results d)
  | _ => []
  end.

(** The records that the object of getMultiple holds: the values of its
    own properties, and its prototype when that is a record. *)
Definition found_by_getMultiple (o : Dictionary) : list Memory :=
  flat_map (fun kv => match snd kv with Some m => [m] | None => [] end) (own o)
  ++ match prototype o with RecordPrototype m => [m] | _ => [] end.

(** The record belongs to the project of the engine. *)
Definition in_project (m : Memory) : Prop := project_id m = projectId.

(** The stages before [stage] that ran gave nothing. *)
Definition earlier_gave_nothing (rows : list Row) (clock : nat -> Z)
    (params : SearchParams) (stage : nat) : Prop :=
  forall earlier,
    (1 <= earlier < stage)%nat ->
    stage_guard earlier (q params) = true ->
    gives_nothing (run_stage rows clock params earlier) = true.

(** The string holds word characters and single spaces only. *)
Definition plain (s : string) : bool :=
  negb (exists_char (fun c => negb (is_word c || (code c =? 32)%nat)) s).

(** The string between two double quotes. *)
Definition quoted (s : string) : string :=
  String (ascii_of_nat 34) (s ++ String (ascii_of_nat 34) "")%string.

(** ** Notions used to state the properties of save *)

(** What SQLite maintains on table memories: id is a key and every row
    passes the CHECK on importance. *)
Definition table_ok (rows : list Row) : Prop :=
  NoDup (map (fun r => id (rowToMemory r)) rows)
  /\ Forall (fun r => check_importance (importance (rowToMemory r)) = true) rows.

(** The importance of a call: absent, or one of 1 to 5. *)
Definition importance_ok (params : SaveParams) : Prop :=
  match save_importance params with
  | Some i => check_importance i = true
  | None => True
  end.

(** The id that generateId gave is not in the table. *)
Definition fresh (new_id : string) (rows : list Row) : Prop :=
  Forall (fun r => id (rowToMemory r) <> new_id) rows.

(** The fingerprint of a call. *)
Definition fingerprint (params : SaveParams) : string :=
  computeDedupeHash (save_summary params) (or_empty (save_paths params)).

(** The row carries the fingerprint in this project. *)
Definition collides (h : string) (r : Row) : bool :=
  (dedupe_hash r =? h) && (project_id (rowToMemory r) =? projectId).

(** The number of records of this project with the fingerprint. *)
Definition stored_with (h : string) (rows : list Row) : nat :=
  List.length (filter (collides h) rows).

(** The patch that save hands to update. *)
Definition patch_of (params : SaveParams) : Patch :=
  mkPatch (Some (save_summary params)) (Some (save_text params))
    (save_tags params) (option_map sort_strings (save_paths params))
    (save_importance params).

(** The row that save inserts. *)
Definition new_row (now : Z) (new_id : string) (params : SaveParams) : Row :=
  mkRow
    (mkMemory new_id projectId (save_summary params) (save_text params)
       (or_empty (save_tags params))
       (or_empty (option_map sort_strings (save_paths params)))
       (or_default (save_importance params) 3) now now
       (or_undefined (save_ttl params))
       (match or_undefined (save_ttl params) with
        | Some t => Some (now + t * 1000)%Z
        | None => None
        end))
    (fingerprint params).

(** The table after the update of the record [id']. *)
Definition updated (now : Z) (id' : string) (params : SaveParams)
    (rows : list Row) : list Row :=
  map (fun r => if update_where id' r
                then set_columns now (patch_of params) r else r) rows.

(** No record of the project shares its fingerprint with another. *)
Definition fingerprints_unique (rows : list Row) : Prop :=
  forall h, (stored_with h rows <= 1)%nat.

End Engine.

End MemoryDatabase.

(* ================================================================== *)
(** * The concept graph store: class ConceptStoreEnhanced *)

Module ConceptStoreEnhanced.
Import Js.

(** interface Concept *)
Record Concept : Type := mkConcept {
  id : string;
  title : string;
  body : string;
  tags : list string;
  importance : Z;
  created_at : Z;
  updated_at : Z;
  usage_count : option Z;
  last_used : option Z
}.

Inductive Source : Type := manual | discovered | imported.

(** A row of table concepts. *)
Record Row : Type := mkRow {
  row_id : string;
  row_title : string;
  row_body : string;
  row_tags : list string;
  row_importance : Z;
  row_usage_count : Z;
  row_last_used : option Z;
  row_created_at : Z;
  row_updated_at : Z;
  row_source : Source;
  row_confidence : Q
}.

(** A row of table concept_relationships; its primary key is
    (concept_id, related_id). *)
Record Relationship : Type := mkRelationship {
  concept_id : string;
  related_id : string;
  relationship_type : string;
  strength : Q
}.

(** A row of table project_allowlists. *)
Record AllowEntry : Type := mkAllowEntry {
  allow_project_id : string;
  allow_concept_id : string;
  added_at : Z;
  auto_suggested : bool;
  accepted : bool
}.

(** The database of one store. *)
Record Store : Type := mkStore {
  concepts : list Row;
  concept_relationships : list Relationship;
  project_allowlists : list AllowEntry
}.

(** interface ConceptSearchResult *)
Record ConceptSearchResult : Type := mkResult {
  concept : Concept;
  score : Q;
  snippet : string
}.

(** The parameter of save. *)
Record SaveParams : Type := mkSaveParams {
  save_title : string;
  save_body : string;
  save_tags : option (list string);
  save_importance : option Z;
  save_source : option Source;
  relatedTo : option (list string)
}.

(** The parameter of search. *)
Record SearchParams : Type := mkSearchParams {
  q : string;
  k : option Z;
  allowlist : option (list string);
  projectId : option string;
  includeRelated : option bool;
  boostRecent : option bool
}.

(** rowToConcept; [row.usage_count || 0] is the count itself. *)
Definition rowToConcept (r : Row) : Concept :=
  mkConcept (row_id r) (row_title r) (row_body r) (row_tags r)
    (row_importance r) (row_created_at r) (row_updated_at r)
    (Some (row_usage_count r)) (row_last_used r).

Definition check_importance (i : Z) : bool := (1 <=? i)%Z && (i <=? 5)%Z.

(** [s.replace(/[^a-z0-9]+/g, '-')] *)
Fixpoint dash_runs (in_run : bool) (s : string) : string :=
  match s with
  | EmptyString => EmptyString
  | String c s' =>
      if is_lower c || is_digit c
      then String c (dash_runs false s')
      else if in_run then dash_runs true s'
           else String "-" (dash_runs true s')
  end.

(** [s.replace(/^-|-$/g, '')] *)
Definition strip_dashes (s : string) : string :=
  let s1 := match s with
            | String c s' => if Ascii.eqb c "-" then s' else s
            | EmptyString => EmptyString
            end in
  if endsWith_char "-" s1 then drop_last s1 else s1.

(** generateConceptId, with [hash] the value of
    crypto.randomBytes(3).toString('hex'). *)
Definition generateConceptId (title hash : string) : string :=
  let slug := substring 0 50 (strip_dashes (dash_runs false (toLowerCase title))) in
  (slug ++ "-" ++ hash)%string.

Definition has_concept (rows : list Row) (id' : string) : bool :=
  existsb (fun r => row_id r =? id') rows.

(** get *)
Definition get (s : Store) (id' : string) : option Concept :=
  option_map rowToConcept (find (fun r => row_id r =? id') (concepts s)).

Section Engine.

(** [concept_fts MATCH expr] over the rows of table concepts. *)
Variable fts5 : list Row -> string -> result (Row -> option (Q * string)).

(** Whether the connection enforces foreign keys: the class sets no
    pragma for it, so this is what the driver decides. *)
Variable foreign_keys : bool.

(** [INSERT OR REPLACE INTO concepts]: the row that holds the id, if any,
    is deleted and the new row gets the next rowid.  With foreign keys
    enforced the deletion cascades to the two tables that reference
    concepts. *)
Definition insert_or_replace (s : Store) (r : Row) : result Store :=
  if check_importance (row_importance r)
  then
    let others := filter (fun x => negb (row_id x =? row_id r)) (concepts s) in
    if foreign_keys && has_concept (concepts s) (row_id r)
    then Ok (mkStore (others ++ [r])
               (filter (fun e => negb (concept_id e =? row_id r)
                                 && negb (related_id e =? row_id r))
                  (concept_relationships s))
               (filter (fun a => negb (allow_concept_id a =? row_id r))
                  (project_allowlists s)))
    else Ok (mkStore (others ++ [r]) (concept_relationships s)
               (project_allowlists s))
  else Err SQLITE_CONSTRAINT.

(** One run of the statement of addRelationships:
    [INSERT OR REPLACE INTO concept_relationships ... VALUES (?, ?, ?, 0.5)]. *)
Definition insert_relationship (s : Store) (conceptId relatedId type : string)
  : result Store :=
  if foreign_keys
     && negb (has_concept (concepts s) conceptId
              && has_concept (concepts s) relatedId)
  then Err SQLITE_CONSTRAINT
  else Ok (mkStore (concepts s)
             (filter (fun e => negb ((concept_id e =? conceptId)
                                     && (related_id e =? relatedId)))
                (concept_relationships s)
              ++ [mkRelationship conceptId relatedId type (1 # 2)])
             (project_allowlists s)).

(** addRelationships *)
Fixpoint addRelationships (s : Store) (conceptId : string)
    (relatedIds : list string) (type : string) : result Store :=
  match relatedIds with
  | [] => Ok s
  | relatedId :: rest =>
      bind (insert_relationship s conceptId relatedId type)
        (fun s' => addRelationships s' conceptId rest type)
  end.

(** The number of tags of the concept that the other concept has too. *)
Definition overlap (conceptTags otherTags : list string) : nat :=
  List.length (filter (fun t => mem t otherTags) conceptTags).

(** [overlap / Math.max(concept.tags.length, otherTags.length)] *)
Definition overlap_ratio (conceptTags otherTags : list string) : Q :=
  inject_Z (Z.of_nat (overlap conceptTags otherTags))
  / inject_Z (Z.of_nat (Nat.max (List.length conceptTags) (List.length otherTags))).

(** The rows that autoDiscoverRelated reads:
    [SELECT id, title, tags FROM concepts WHERE id != ? LIMIT 20]. *)
Definition others (s : Store) (id' : string) : list Row :=
  Sql.limit 20 (filter (fun r => negb (row_id r =? id')) (concepts s)).

(** The test under which autoDiscoverRelated links two concepts. *)
Definition related (conceptTags otherTags : list string) : bool :=
  (0 <? overlap conceptTags otherTags)%nat
  && Sql.Qgtb (overlap_ratio conceptTags otherTags) (3 # 10).

(** The loop of autoDiscoverRelated over the rows read. *)
Fixpoint discover (s : Store) (c : Concept) (rows : list Row) : result Store :=
  match rows with
  | [] => Ok s
  | other :: rest =>
      if related (tags c) (row_tags other)
      then bind (addRelationships s (id c) [row_id other] "related")
             (fun s' => discover s' c rest)
      else discover s c rest
  end.

(** autoDiscoverRelated *)
Definition autoDiscoverRelated (s : Store) (c : Concept) : result Store :=
  discover s c (others s (id c)).

(** save, with [now] the value of Date.now() and [hash] the random
    suffix of the id. *)
Definition save (s : Store) (now : Z) (hash : string) (params : SaveParams)
  : result (Concept * Store) :=
  let id' := generateConceptId (save_title params) hash in
  let c :=
    mkConcept id' (save_title params) (save_body params)
      (or_empty (save_tags params)) (or_default (save_importance params) 3)
      now now (Some 0%Z) None in
  bind (insert_or_replace s
          (mkRow (id c) (title c) (body c) (tags c) (importance c) 0 None
             (created_at c) (updated_at c)
             (match save_source params with Some src => src | None => manual end)
             1))
    (fun s1 =>
       bind (match relatedTo params with
             | Some (r :: rs) => addRelationships s1 id' (r :: rs) "related"
             | _ => Ok s1
             end)
         (fun s2 =>
            bind (autoDiscoverRelated s2 c) (fun s3 => Ok (c, s3)))).

(** trackUsage, with [now] the value of Date.now(). *)
Definition trackUsage (s : Store) (now : Z) (conceptId : string) : Store :=
  mkStore
    (map (fun r =>
            if row_id r =? conceptId
            then mkRow (row_id r) (row_title r) (row_body r) (row_tags r)
                   (row_importance r) (row_usage_count r + 1) (Some now)
                   (row_created_at r) (row_updated_at r) (row_source r)
                   (row_confidence r)
            else r) (concepts s))
    (concept_relationships s) (project_allowlists s).

(** The terms of smart_score that both queries of search share; [since]
    is seven days before now. *)
Definition smart_base (since : Z) (r : Row) : Q :=
  inject_Z (row_importance r) * 2
  + inject_Z (row_usage_count r) * (1 # 10)
  + (if Sql.gt_null (row_last_used r) since then 2 else 0).

(** [row.smart_score || 1.0] *)
Definition or_one (x : Q) : Q := if Qeq_bool x 0 then 1 else x.

(** The rows of enrichWithRelated for one result: the concepts that the
    relationships of the concept lead to, strongest first, two at most.
    The edges of a concept are read through the primary key
    (concept_id, related_id) of the table, so edges of one strength, and
    addRelationships writes no other than 0.5, come in the order of
    related_id. *)
Definition related_rows (s : Store) (conceptId : string) : list (Row * Q) :=
  Sql.limit 2
    (Sql.order_by (fun a b => Sql.Qgtb (snd a) (snd b))
       (flat_map (fun e =>
                    if concept_id e =? conceptId
                    then map (fun r => (r, strength e))
                           (filter (fun r => row_id r =? related_id e) (concepts s))
                    else [])
          (Sql.order_by (fun a b => negb (String.leb (related_id b) (related_id a)))
             (concept_relationships s)))).

(** The two nested loops of enrichWithRelated. *)
Fixpoint enrich_rows (res : ConceptSearchResult) (rels : list (Row * Q))
    (enriched : list ConceptSearchResult) (seen : list string)
  : list ConceptSearchResult * list string :=
  match rels with
  | [] => (enriched, seen)
  | (rel, st) :: rest =>
      if mem (row_id rel) seen then enrich_rows res rest enriched seen
      else enrich_rows res rest
             (enriched ++ [mkResult (rowToConcept rel) (score res * st * (1 # 2))
                             ("[Related to: " ++ title (concept res) ++ "]")%string])
             (row_id rel :: seen)
  end.

Fixpoint enrich_results (s : Store) (top : list ConceptSearchResult)
    (enriched : list ConceptSearchResult) (seen : list string)
  : list ConceptSearchResult :=
  match top with
  | [] => enriched
  | res :: rest =>
      let step := enrich_rows res (related_rows s (id (concept res))) enriched seen in
      enrich_results s rest (fst step) (snd step)
  end.

(** enrichWithRelated *)
Definition enrichWithRelated (s : Store) (found : list ConceptSearchResult)
  : list ConceptSearchResult :=
  sort_by (fun a b => Sql.Qgtb (score a) (score b))
    (enrich_results s (firstn 3 found) found
       (map (fun r => id (concept r)) found)).

(** [c.id IN (SELECT concept_id FROM project_allowlists
              WHERE project_id = ? AND accepted = 1)] *)
Definition allowed (s : Store) (project : string) (r : Row) : bool :=
  existsb (fun a => (allow_project_id a =? project) && accepted a
                    && (allow_concept_id a =? row_id r))
    (project_allowlists s).

(** search, with [now] the value of Date.now() when the query is built
    and [now'] its value in trackUsage. *)
Definition search (s : Store) (now now' : Z) (params : SearchParams)
  : result (list ConceptSearchResult * Store) :=
  let k := or_default (k params) 10 in
  let searchQuery := if q params =? "" then "*" else q params in
  let since := (now - 7 * 24 * 60 * 60 * 1000)%Z in
  bind (if searchQuery =? "*"
        then Ok (map (fun r => (r, (smart_base since r, ""))) (concepts s))
        else bind (fts5 (concepts s) searchQuery)
               (fun hit =>
                  Ok (flat_map
                        (fun r => match hit r with
                                  | Some (bm25, snip) =>
                                      [(r, (- bm25 * 3 + smart_base since r, snip))]
                                  | None => []
                                  end) (concepts s))))
    (fun scored =>
       let filtered :=
         match projectId params with
         | None | Some "" => scored
         | Some project => filter (fun rs => allowed s project (fst rs)) scored
         end in
       let rows :=
         Sql.limit k
           (Sql.order_by (fun a b => Sql.Qgtb (fst (snd a)) (fst (snd b))) filtered) in
       let found :=
         map (fun rs => mkResult (rowToConcept (fst rs)) (or_one (fst (snd rs)))
                          (snd (snd rs))) rows in
       let finalResults :=
         match found with
         | [] => found
         | _ => if truthy (includeRelated params) then enrichWithRelated s found
                else found
         end in
       match finalResults with
       | [] => Ok (finalResults, s)
       | first :: _ => Ok (finalResults, trackUsage s now' (id (concept first)))
       end).

(** The loop of suggestForProject over the suggestions:
    [INSERT OR IGNORE INTO project_allowlists ... VALUES (?, ?, ?, 1, 0)];
    [clock n] is what Date.now() gives for the suggestion number [n]. *)
Fixpoint suggest_all (entries : list AllowEntry) (project : string)
    (clock : nat -> Z) (n : nat) (suggestions : list Concept) : list AllowEntry :=
  match suggestions with
  | [] => entries
  | c :: rest =>
      if existsb (fun a => (allow_project_id a =? project)
                           && (allow_concept_id a =? id c)) entries
      then suggest_all entries project clock (S n) rest
      else suggest_all (entries ++ [mkAllowEntry project (id c) (clock n) true false])
             project clock (S n) rest
  end.

(** suggestForProject, with [now] and [now'] the readings of Date.now()
    in search. *)
Definition suggestForProject (s : Store) (now now' : Z) (clock : nat -> Z)
    (project context : string) : result (list Concept * Store) :=
  bind (search s now now'
          (mkSearchParams context (Some 5%Z) None None None (Some true)))
    (fun found =>
       let suggestions :=
         map concept (filter (fun r => Sql.Qgtb (score r) 2) (fst found)) in
       let s' := snd found in
       Ok (suggestions,
           mkStore (concepts s') (concept_relationships s')
             (suggest_all (project_allowlists s') project clock 0 suggestions))).

End Engine.

(** extractTags *)
Definition extractTags (text : string) : list string :=
  set_of
    (firstn 5
       (filter (fun word => negb (mem word ["should"; "would"; "could"; "might"; "must"]))
          (filter (fun word => (4 <? String.length word)%nat)
             (split_spaces (toLowerCase text)))))
    [].

(** ** Notions used to state the properties of the store *)

(** The importance that save stores passes the CHECK of the table. *)
Definition importance_ok (params : SaveParams) : Prop :=
  check_importance (or_default (save_importance params) 3) = true.

(** The ids that the call names in relatedTo are ids of stored concepts. *)
Definition related_known (s : Store) (params : SaveParams) : Prop :=
  Forall (fun r => has_concept (concepts s) r = true) (or_empty (relatedTo params)).

(** The row of concept_relationships under a key. *)
Definition find_edge (s : Store) (from to : string) : option Relationship :=
  find (fun e => (concept_id e =? from) && (related_id e =? to))
    (concept_relationships s).

(** The store holds an edge of the type between the two concepts. *)
Definition has_edge (s : Store) (from to type : string) : Prop :=
  exists e, find_edge s from to = Some e /\ relationship_type e = type.

(** The row of concepts under an id. *)
Definition find_row (s : Store) (id' : string) : option Row :=
  find (fun r => row_id r =? id') (concepts s).

(** The limit that search applies: [params.k || 10]. *)
Definition search_limit (params : SearchParams) : Z := or_default (k params) 10.

(** The number of rows that [LIMIT k] leaves of [n]. *)
Definition limited (k : Z) (n : nat) : nat :=
  if (k <? 0)%Z then n else Nat.min (Z.to_nat k) n.

End ConceptStoreEnhanced.

(* ================================================================== *)
(** * The concept store that the server and the assembler use:
      class ConceptStore *)

Module ConceptStore.
Import Js.

(** interface Concept *)
Record Concept : Type := mkConcept {
  id : string;
  title : string;
  body : string;
  tags : list string;
  importance : Z;
  created_at : Z;
  updated_at : Z
}.

(** A row of table project_allowlists. *)
Record AllowEntry : Type := mkAllowEntry {
  allow_project_id : string;
  allow_concept_id : string;
  added_at : Z
}.

(** The database of one store: a row of table concepts has the fields
    of [Concept], which rowToConcept copies. *)
Record Store : Type := mkStore {
  concepts : list Concept;
  project_allowlists : list AllowEntry
}.

(** interface ConceptSearchResult *)
Record ConceptSearchResult : Type := mkResult {
  concept : Concept;
  score : Q;
  snippet : string
}.

(** The parameter of search. *)
Record SearchParams : Type := mkSearchParams {
  q : string;
  k : option Z;
  allowlist : option (list string);
  projectId : option string
}.

(** escapeQuery *)
Definition escapeQuery (query : string) : string := double_quotes query.

(** normalizeSearchQuery *)
Definition normalizeSearchQuery (query : string) : string :=
  if trim query =? "" then "*"
  else if (trim query =? "*") || (trim query =? "**") then "*"
  else escapeQuery (trim query).

(** The list that updateAllowlist returns for [list: true]:
    [SELECT concept_id ... WHERE project_id = ? ORDER BY added_at DESC]. *)
Definition list_allowlist (s : Store) (project : string) : list string :=
  map allow_concept_id
    (Sql.order_by (fun a b => (added_at b <? added_at a)%Z)
       (filter (fun a => allow_project_id a =? project) (project_allowlists s))).

(** get *)
Definition get (s : Store) (id' : string) : option Concept :=
  find (fun c => id c =? id') (concepts s).

(** [s.replace(/[^a-z0-9]+/g, '-')] *)
Fixpoint dash_runs (in_run : bool) (s : string) : string :=
  match s with
  | EmptyString => EmptyString
  | String c s' =>
      if is_lower c || is_digit c
      then String c (dash_runs false s')
      else if in_run then dash_runs true s'
           else String "-" (dash_runs true s')
  end.

(** [s.replace(/^-|-$/g, '')] *)
Definition strip_dashes (s : string) : string :=
  let s1 := match s with
            | String c s' => if Ascii.eqb c "-" then s' else s
            | EmptyString => EmptyString
            end in
  if endsWith_char "-" s1 then drop_last s1 else s1.

(** The decimal digits of a number that is not negative. *)
Definition decimal (n : Z) : string := NilZero.string_of_int (Z.to_int n).

(** generateConceptId, with [now] the value of Date.now(). *)
Definition generateConceptId (title : string) (now : Z) : string :=
  let base := substring 0 30 (strip_dashes (dash_runs false (toLowerCase title))) in
  (base ++ "-v" ++ decimal (now mod 1000))%string.

(** The parameter of save. *)
Record SaveParams : Type := mkSaveParams {
  save_id : option string;
  save_title : string;
  save_body : string;
  save_tags : option (list string);
  save_importance : option Z
}.

Definition check_importance (i : Z) : bool := (1 <=? i)%Z && (i <=? 5)%Z.

(** save, with [now] the value of Date.now(); it returns [{ id }].  The
    warning about a long body changes nothing. *)
Definition save (s : Store) (now : Z) (params : SaveParams) : result (string * Store) :=
  let id' :=
    match save_id params with
    | Some (String c rest) => String c rest
    | _ => generateConceptId (save_title params) now
    end in
  match get s id' with
  | Some existing =>
      let importance' := or_default (save_importance params) (importance existing) in
      if check_importance importance'
      then Ok (id',
               mkStore
                 (map (fun c =>
                         if id c =? id'
                         then mkConcept (id c) (save_title params) (save_body params)
                                (or_empty (save_tags params)) importance'
                                (created_at c) now
                         else c) (concepts s))
                 (project_allowlists s))
      else Err SQLITE_CONSTRAINT
  | None =>
      if check_importance (or_default (save_importance params) 3)
      then Ok (id',
               mkStore
                 (concepts s
                  ++ [mkConcept id' (save_title params) (save_body params)
                        (or_empty (save_tags params))
                        (or_default (save_importance params) 3) now now])
                 (project_allowlists s))
      else Err SQLITE_CONSTRAINT
  end.

(** The parameter and the result of updateAllowlist. *)
Record AllowlistParams : Type := mkAllowlistParams {
  allow_project : string;               (* projectId *)
  to_add : option (list string);        (* add *)
  to_remove : option (list string);     (* remove *)
  want_list : option bool               (* list *)
}.

Record AllowlistResult : Type := mkAllowlistResult {
  added : option (list string);
  removed : option (list string);
  listed : option (list string)
}.

Definition on_allowlist (s : Store) (project conceptId : string) : bool :=
  existsb (fun e => (allow_project_id e =? project)
                    && (allow_concept_id e =? conceptId))
    (project_allowlists s).

(** The loop over params.add: [INSERT OR IGNORE INTO project_allowlists]
    for the ids that get finds. *)
Fixpoint add_all (s : Store) (project : string) (now : Z) (ids : list string)
    (added : list string) : list string * Store :=
  match ids with
  | [] => (added, s)
  | conceptId :: rest =>
      match get s conceptId with
      | Some _ =>
          if on_allowlist s project conceptId
          then add_all s project now rest added
          else add_all
                 (mkStore (concepts s)
                    (project_allowlists s ++ [mkAllowEntry project conceptId now]))
                 project now rest (added ++ [conceptId])
      | None => add_all s project now rest added
      end
  end.

(** The loop over params.remove. *)
Fixpoint remove_all (s : Store) (project : string) (ids : list string)
    (removed : list string) : list string * Store :=
  match ids with
  | [] => (removed, s)
  | conceptId :: rest =>
      if on_allowlist s project conceptId
      then remove_all
             (mkStore (concepts s)
                (filter (fun e => negb ((allow_project_id e =? project)
                                        && (allow_concept_id e =? conceptId)))
                   (project_allowlists s)))
             project rest (removed ++ [conceptId])
      else remove_all s project rest removed
  end.

(** updateAllowlist, with [now] the value of Date.now(). *)
Definition updateAllowlist (s : Store) (now : Z) (params : AllowlistParams)
  : AllowlistResult * Store :=
  let project := allow_project params in
  let step1 :=
    match to_add params with
    | Some (x :: xs) =>
        let r := add_all s project now (x :: xs) [] in (Some (fst r), snd r)
    | _ => (None, s)
    end in
  let step2 :=
    match to_remove params with
    | Some (x :: xs) =>
        let r := remove_all (snd step1) project (x :: xs) [] in (Some (fst r), snd r)
    | _ => (None, snd step1)
    end in
  (mkAllowlistResult (fst step1) (fst step2)
     (if truthy (want_list params) then Some (list_allowlist (snd step2) project)
      else None),
   snd step2).

Section Engine.

(** [concept_fts MATCH expr] over the rows of table concepts. *)
Variable fts5 : list Concept -> string -> result (Concept -> option (Q * string)).

(** The filter that search adds for a project or for an allowlist. *)
Definition search_filter (s : Store) (params : SearchParams) (c : Concept) : bool :=
  match projectId params with
  | Some (String a project) =>
      existsb (fun e => (allow_project_id e =? String a project)
                        && (allow_concept_id e =? id c))
        (project_allowlists s)
  | _ =>
      match allowlist params with
      | Some (x :: xs) => mem (id c) (x :: xs)
      | _ => true
      end
  end.

(** search *)
Definition search (s : Store) (params : SearchParams)
  : result (list ConceptSearchResult) :=
  let k := or_default (k params) 10 in
  let searchQuery := normalizeSearchQuery (q params) in
  bind (if (searchQuery =? "*") || (trim searchQuery =? "")
        then Ok (map (fun c => (c, (1, ""))) (concepts s))
        else bind (fts5 (concepts s) searchQuery)
               (fun hit =>
                  Ok (flat_map (fun c => match hit c with
                                         | Some fs => [(c, fs)]
                                         | None => []
                                         end) (concepts s))))
    (fun scored =>
       let filtered := filter (fun cs => search_filter s params (fst cs)) scored in
       let order :=
         if searchQuery =? "*"
         then fun a b : Concept * (Q * string) =>
                (importance (fst b) <? importance (fst a))%Z
                || ((importance (fst a) =? importance (fst b))%Z
                    && (created_at (fst b) <? created_at (fst a))%Z)
         else fun a b : Concept * (Q * string) =>
                Sql.Qgtb (fst (snd a)) (fst (snd b))
                || (Qeq_bool (fst (snd a)) (fst (snd b))
                    && (importance (fst b) <? importance (fst a))%Z) in
       Ok (map (fun cs => mkResult (fst cs) (- fst (snd cs)) (snd (snd cs)))
             (Sql.limit k (Sql.order_by order filtered)))).

End Engine.

(** ** Notions used to state the properties of the store *)

(** The call restricts the concepts neither by project nor by list. *)
Definition unrestricted (params : SearchParams) : Prop :=
  (projectId params = None \/ projectId params = Some "")
  /\ (allowlist params = None \/ allowlist params = Some []).

(** The store holds a concept under the id. *)
Definition holds (s : Store) (id' : string) : bool :=
  match get s id' with Some _ => true | None => false end.

End ConceptStore.

(* ================================================================== *)
(** * The server: the concept_search case of the tool handler *)

Module Server.
Import Js.

(** The arguments of the tool. *)
Record Args : Type := mkArgs {
  arg_q : option string;
  arg_k : option Z;
  arg_allowlist : option (list string)
}.

(** The note of the reply: no concepts found; showing all available
    global concepts; found [count] concepts matching [query]. *)
Inductive Note : Type :=
| NoConceptsFound
| ShowingAll
| FoundMatching (count : nat) (query : string).

(** The reply, before it is printed as JSON. *)
Record Reply : Type := mkReply {
  query : string;
  found : list ConceptStore.ConceptSearchResult;
  note : Note
}.

Section Engine.

Variable fts5 : list ConceptStore.Concept -> string
                -> result (ConceptStore.Concept -> option (Q * string)).

(** case 'concept_search' *)
Definition concept_search (s : ConceptStore.Store) (args : Args) : result Reply :=
  let conceptSearchQuery :=
    match arg_q args with
    | Some (String c rest) => String c rest
    | _ => "*"
    end in
  let k := Some (or_default (arg_k args) 10) in
  bind (ConceptStore.search fts5 s
          (ConceptStore.mkSearchParams
             (if trim conceptSearchQuery =? "" then "*" else trim conceptSearchQuery)
             k (arg_allowlist args) None))
    (fun conceptSearchResults =>
       bind (match conceptSearchResults with
             | [] =>
                 if conceptSearchQuery =? "*" then Ok conceptSearchResults
                 else ConceptStore.search fts5 s
                        (ConceptStore.mkSearchParams "*" k (arg_allowlist args) None)
             | _ => Ok conceptSearchResults
             end)
         (fun finalConceptResults =>
            Ok (mkReply conceptSearchQuery finalConceptResults
                  (match finalConceptResults with
                   | [] => NoConceptsFound
                   | _ => if conceptSearchQuery =? "*" then ShowingAll
                          else FoundMatching (List.length finalConceptResults)
                                 conceptSearchQuery
                   end)))).

(** What the handler of a tool call answers: the reply of the case, or,
    from its catch clause, the text [Error: message]. *)
Inductive Response : Type :=
| Content (reply : Reply)
| ErrorText (e : Error).

(** The handler of CallToolRequest for the tool concept_search, with the
    concept store initialized: [try { switch (name) { ... } } catch]. *)
Definition call_concept_search (s : ConceptStore.Store) (args : Args) : Response :=
  match concept_search s args with
  | Ok reply => Content reply
  | Err e => ErrorText e
  end.

End Engine.

(** The arguments name no allowlist. *)
Definition no_allowlist (args : Args) : Prop :=
  arg_allowlist args = None \/ arg_allowlist args = Some [].

End Server.

(* ================================================================== *)
(** * The context assembler: class ContextBroker *)

Module ContextBroker.
Import Js.

Inductive InjectionType : Type := memory | concept.

(** interface ContextInjection *)
Record ContextInjection : Type := mkInjection {
  id : string;
  type : InjectionType;
  summary : string;
  content : string;
  score : Q;
  source : string;
  byteSize : Z
}.

Record Stats : Type := mkStats {
  projectMatches : Z;
  pathMatches : Z;
  conceptMatches : Z;
  totalCandidates : Z
}.

(** interface ContextPreview *)
Record ContextPreview : Type := mkPreview {
  injections : list ContextInjection;
  budgetUsed : Z;
  budgetLimit : Z;
  topK : Z;
  stats : Stats
}.

Inductive Mode : Type := hard | soft | smart.

(** The parameter of preview. *)
Record PreviewParams : Type := mkPreviewParams {
  open_files : option (list string);
  task : string;
  budget_bytes : option Z;
  top_k : option Z;
  mode : option Mode
}.

(** A destructuring default: it replaces [undefined] only. *)
Definition default (A : Type) (x : option A) (d : A) : A :=
  match x with Some v => v | None => d end.

Definition newline : string := String (ascii_of_nat 10) "".

(** Buffer.byteLength(content, 'utf8') *)
Definition byteLength (s : string) : Z := Z.of_nat (String.length s).

(** inferPathPrefixes for one file: the prefixes added to the set, in
    the order of the loop over [i], which counts the parts taken. *)
Fixpoint prefixes_of (parts : list string) (taken : list string) : list string :=
  match parts with
  | [] => []
  | part :: rest =>
      let prefix := ("/" ++ join "/" (taken ++ [part]))%string in
      match rest with
      | [] => [prefix]
      | _ => prefix :: (prefix ++ "/*")%string :: prefixes_of rest (taken ++ [part])
      end
  end.

(** inferPathPrefixes *)
Definition inferPathPrefixes (openFiles : list string) : list string :=
  set_of
    (flat_map (fun file =>
                 prefixes_of
                   (filter (fun p => negb (p =? "")) (split_char "/" file)) [])
       openFiles)
    [].

Definition Qof_nat (n : nat) : Q := inject_Z (Z.of_nat n).

(** The body of the inner loop of pathMatchStrength. *)
Definition match_step (memPathClean : string) (maxMatch : Q) (prefix : string) : Q :=
  let prefixClean := strip_star prefix in
  if memPathClean =? prefixClean then 1
  else if startsWith prefixClean memPathClean || startsWith memPathClean prefixClean
  then
    let overlap := Nat.min (String.length memPathClean) (String.length prefixClean) in
    let longer := Nat.max (String.length memPathClean) (String.length prefixClean) in
    Qmax maxMatch (Qof_nat overlap / Qof_nat longer)
  else maxMatch.

(** pathMatchStrength *)
Definition pathMatchStrength (memoryPaths prefixes : list string) : Q :=
  match memoryPaths, prefixes with
  | [], _ | _, [] => 0
  | _, _ =>
      fold_left (fun maxMatch memPath =>
                   fold_left (match_step (strip_star memPath)) prefixes maxMatch)
        memoryPaths 0
  end.

(** hasPathMatch *)
Definition hasPathMatch (memoryPaths prefixes : list string) : bool :=
  Sql.Qgtb (pathMatchStrength memoryPaths prefixes) (3 # 10).

Definition stopWords : list string :=
  ["the"; "a"; "an"; "and"; "or"; "but"; "in"; "on"; "at"; "to"; "for";
   "of"; "with"; "by"; "from"; "up"; "about"; "into"; "through"; "during";
   "how"; "when"; "where"; "why"; "what"; "which"; "who"; "whom"; "this";
   "that"; "these"; "those"; "am"; "is"; "are"; "was"; "were"; "be"; "been";
   "being"; "have"; "has"; "had"; "do"; "does"; "did"; "will"; "would";
   "should"; "could"; "may"; "might"; "must"; "can"; "need"; "new"; "create";
   "implement"; "fix"; "update"; "add"; "remove"; "change"; "modify"].

(** extractSearchTerms *)
Definition extractSearchTerms (task : string) : string :=
  let words :=
    firstn 5
      (filter (fun word => (2 <? String.length word)%nat && negb (mem word stopWords))
         (split_spaces (toLowerCase task))) in
  match words with
  | [word] => (word ++ "*")%string
  | [] => task
  | _ => join " OR " words
  end.

(** The test of the inner loop of taskMatchStrength: the tag counts for
    the first word that passes it. *)
Definition word_matches (tagLower word : string) : bool :=
  includes tagLower word || includes word tagLower
  || ((3 <=? String.length word)%nat && (3 <=? String.length tagLower)%nat
      && (let minLen := Nat.min (String.length word) (String.length tagLower) in
          substring 0 minLen word =? substring 0 minLen tagLower)).

(** taskMatchStrength *)
Definition taskMatchStrength (tags : list string) (task : string) : Q :=
  let taskWords := split_spaces (toLowerCase task) in
  let matches :=
    List.length
      (filter (fun tag => existsb (word_matches (toLowerCase tag)) taskWords) tags) in
  match tags with
  | [] => 0
  | _ => Qof_nat matches / Qof_nat (List.length tags)
  end.

(** recencyScore, with [now] the value of Date.now(). *)
Definition recencyScore (now createdAt : Z) : Q :=
  let ageHours := inject_Z (now - createdAt) / inject_Z (1000 * 60 * 60) in
  if Sql.Qgtb 24 ageHours then 1
  else if Sql.Qgtb 168 ageHours then 8 # 10
  else if Sql.Qgtb 720 ageHours then 5 # 10
  else 2 # 10.

(** formatMemoryForInjection *)
Definition formatMemoryForInjection (m : MemoryDatabase.Memory) : string :=
  join (newline ++ newline)%string
    (["## " ++ MemoryDatabase.summary m; MemoryDatabase.text m]%string
     ++ (match MemoryDatabase.paths m with
         | [] => []
         | ps => ["**Paths:** " ++ join ", " ps]%string
         end)
     ++ (match MemoryDatabase.tags m with
         | [] => []
         | ts => ["**Tags:** " ++ join ", " ts]%string
         end)).

(** formatConceptForInjection *)
Definition formatConceptForInjection (c : ConceptStore.Concept) : string :=
  ("## " ++ ConceptStore.title c ++ newline ++ newline ++ ConceptStore.body c
   ++ newline ++ newline ++ "**Tags:** " ++ join ", " (ConceptStore.tags c))%string.

(** normalizeForDedupe *)
Definition normalizeForDedupe (summary : string) : string :=
  trim (collapse_spaces (drop_specials (toLowerCase summary))).

(** [+(a === b)] *)
Definition indicator (b : bool) : Q := if b then 1 else 0.

(** The dedupeKey of a candidate in selectByBudget. *)
Definition dedupeKey (candidate : ContextInjection) : string :=
  normalizeForDedupe (summary candidate).

Section Broker.

(** this.projectId *)
Variable projectId : string.

(** The score that scoreMemories gives to one search result, with [now]
    the value of Date.now(). *)
Definition memoryScore (now : Z) (pathPrefixes : list string) (task : string)
    (result : MemoryDatabase.SearchResult) : Q :=
  let m := MemoryDatabase.memory result in
  let own := MemoryDatabase.project_id m =? projectId in
  let words :=
    filter (fun w => (2 <? String.length w)%nat) (split_spaces (toLowerCase task)) in
  let isSingleWord := (List.length words =? 1)%nat in
  let pathScore := pathMatchStrength (MemoryDatabase.paths m) pathPrefixes in
  let tagScore := taskMatchStrength (MemoryDatabase.tags m) task in
  (3 # 2) * indicator own
  + (if isSingleWord && Sql.Qgtb pathScore 0
     then 10 * pathScore
     else 2 * pathScore + (if Sql.Qgtb pathScore (1 # 2) then 2 else 0))
  + (8 # 10) * tagScore
  + (if isSingleWord && Sql.Qgtb tagScore 0 then 3 else 0)
  + (6 # 10) * recencyScore now (MemoryDatabase.created_at m)
  + (6 # 10) * inject_Z (or_default (Some (MemoryDatabase.importance m)) 3)
  - 1 * indicator (negb own)
  + Qmin (MemoryDatabase.score result / 10) 1.

(** scoreMemories *)
Definition scoreMemories (now : Z) (found : list MemoryDatabase.SearchResult)
    (pathPrefixes : list string) (task : string) : list ContextInjection :=
  map (fun result =>
         let m := MemoryDatabase.memory result in
         let content := formatMemoryForInjection m in
         mkInjection (MemoryDatabase.id m) memory (MemoryDatabase.summary m) content
           (memoryScore now pathPrefixes task result)
           (MemoryDatabase.project_id m ++ ":" ++ MemoryDatabase.id m)%string
           (byteLength content))
    found.

(** scoreConcepts *)
Definition scoreConcepts (found : list (ConceptStore.Concept * Q)) (task : string)
  : list ContextInjection :=
  map (fun cs =>
         let c := fst cs in
         let content := formatConceptForInjection c in
         mkInjection (ConceptStore.id c) concept (ConceptStore.title c) content
           (2 + (8 # 10) * taskMatchStrength (ConceptStore.tags c) task
            + (6 # 10) * inject_Z (ConceptStore.importance c)
            + Qmin (snd cs / 10) 1)
           ("global:" ++ ConceptStore.id c)%string
           (byteLength content))
    found.

(** The variables of selectByBudget that its loop updates. *)
Record Selection : Type := mkSelection {
  selected : list ContextInjection;
  used : Z;                         (* budgetUsed *)
  seen : list string
}.

(** What one iteration of a loop does: it leaves the loop, or it goes on
    to the next element with the variables updated. *)
Inductive Step (S : Type) : Type :=
| Break
| Next (st : S).
Arguments Break {S}.
Arguments Next {S} st.

(** The body of the loop of selectByBudget. *)
Definition select_body (budgetLimit topK : Z) (st : Selection)
    (candidate : ContextInjection) : Step Selection :=
  if (topK <=? Z.of_nat (List.length (selected st)))%Z then Break
  else if (budgetLimit <? used st + byteSize candidate)%Z then Break
  else
    let dedupeKey := normalizeForDedupe (summary candidate) in
    if mem dedupeKey (seen st) then Next st
    else Next (mkSelection (selected st ++ [candidate])
                 (used st + byteSize candidate) (dedupeKey :: seen st)).

(** [for (const candidate of candidates) { ... }] *)
Fixpoint select_loop (budgetLimit topK : Z) (candidates : list ContextInjection)
    (st : Selection) : Selection :=
  match candidates with
  | [] => st
  | candidate :: rest =>
      match select_body budgetLimit topK st candidate with
      | Break => st
      | Next st' => select_loop budgetLimit topK rest st'
      end
  end.

(** selectByBudget *)
Definition selectByBudget (candidates : list ContextInjection)
    (budgetLimit topK : Z) : list ContextInjection :=
  selected (select_loop budgetLimit topK candidates (mkSelection [] 0 [])).

(** The variables after the loop has gone through all of [candidates]
    without leaving; nothing when it left. *)
Fixpoint select_through (budgetLimit topK : Z) (candidates : list ContextInjection)
    (st : Selection) : option Selection :=
  match candidates with
  | [] => Some st
  | candidate :: rest =>
      match select_body budgetLimit topK st candidate with
      | Break => None
      | Next st' => select_through budgetLimit topK rest st'
      end
  end.

(** [selected.reduce((sum, inj) => sum + inj.byteSize, 0)] *)
Definition total_bytes (selected : list ContextInjection) : Z :=
  fold_left (fun sum inj => (sum + byteSize inj)%Z) selected 0%Z.

(** The value that a call of search gives to its caller, who reads
    [length] of it. *)
Definition returned (A : Type) (c : completion (list A)) : result (list A) :=
  match c with
  | Return v => Ok v
  | Throw e => Err e
  | Normal => Err TypeError
  end.

(** The memory engine and the concept engine. *)
Variable mem_fts : list MemoryDatabase.Row -> string
                   -> result (MemoryDatabase.Row -> option (Q * string)).
Variable like : string -> string -> bool.
Variable concept_fts : list ConceptStore.Concept -> string
                       -> result (ConceptStore.Concept -> option (Q * string)).

(** preview.  [clock] and [clock'] are the readings of Date.now() in the
    two searches of memories and [now] its reading in recencyScore. *)
Definition preview (rows : list MemoryDatabase.Row) (store : ConceptStore.Store)
    (clock clock' : nat -> Z) (now : Z) (params : PreviewParams)
  : result ContextPreview :=
  let task := task params in
  let open_files := default (open_files params) [] in
  let budget_bytes := default (budget_bytes params) 2048%Z in
  let top_k := default (top_k params) 10%Z in
  let mode := default (mode params) smart in
  let pathPrefixes := inferPathPrefixes open_files in
  let searchQuery := extractSearchTerms task in
  let memory_search := fun query clk =>
    returned (MemoryDatabase.search mem_fts like projectId rows clk
                (MemoryDatabase.mkSearchParams query (Some 50%Z) (Some false)
                   None None)) in
  bind (memory_search searchQuery clock)
    (fun first =>
  bind (match first with
        | [] => if endsWith_char "*" searchQuery
                then memory_search (drop_last searchQuery) clock'
                else Ok first
        | _ => Ok first
        end)
    (fun memoryResults =>
  bind (match mode with
        | hard => Ok []
        | _ =>
            let allowlist :=
              match mode with
              | smart => Some (ConceptStore.list_allowlist store projectId)
              | _ => None
              end in
            bind (ConceptStore.search concept_fts store
                    (ConceptStore.mkSearchParams searchQuery (Some 20%Z) allowlist
                       (match mode with smart => Some projectId | _ => None end)))
              (fun concepts =>
                 Ok (map (fun c => (ConceptStore.concept c, ConceptStore.score c))
                       (filter (fun c => Sql.Qgtb (ConceptStore.score c) (1 # 2))
                          concepts)))
        end)
    (fun conceptResults =>
       let scoredCandidates :=
         sort_by (fun a b => Sql.Qgtb (score a) (score b))
           (scoreMemories now memoryResults pathPrefixes task
            ++ scoreConcepts conceptResults task) in
       let selected := selectByBudget scoredCandidates budget_bytes top_k in
       Ok (mkPreview selected (total_bytes selected) budget_bytes top_k
             (mkStats
                (Z.of_nat (List.length
                   (filter (fun r => MemoryDatabase.project_id
                                       (MemoryDatabase.memory r) =? projectId)
                      memoryResults)))
                (Z.of_nat (List.length
                   (filter (fun r => hasPathMatch
                                       (MemoryDatabase.paths (MemoryDatabase.memory r))
                                       pathPrefixes)
                      memoryResults)))
                (Z.of_nat (List.length conceptResults))
                (Z.of_nat (List.length scoredCandidates))))))).

End Broker.

End ContextBroker.

(* ================================================================== *)
(** * Sample data

    A small project, two engines simple enough to run, and the calls at
    which the properties below are evaluated. *)

Module Examples.
Import Js.

(** A hash that tells its input apart: the input itself. *)
Definition plain_md5 (s : string) : string := s.

(** A LIKE that matches nothing. *)
Definition no_like (value pattern : string) : bool := false.

(** A full-text engine that knows bare words only: a quoted expression
    is an error to it, and a bare word matches the rows whose summary
    contains it, all with the same rank. *)
Definition word_fts (rows : list MemoryDatabase.Row) (expr : string)
  : result (MemoryDatabase.Row -> option (Q * string)) :=
  if startsWith expr (String (ascii_of_nat 34) "") then Err SQLITE_ERROR
  else Ok (fun r =>
             let s := MemoryDatabase.summary (MemoryDatabase.rowToMemory r) in
             if includes (toLowerCase s) (toLowerCase expr)
             then Some (- (15 # 1), s) else None).

(** The same for concepts, on their titles. *)
Definition word_concept_fts (rows : list ConceptStore.Concept) (expr : string)
  : result (ConceptStore.Concept -> option (Q * string)) :=
  if startsWith expr (String (ascii_of_nat 34) "") then Err SQLITE_ERROR
  else Ok (fun c =>
             if includes (toLowerCase (ConceptStore.title c)) (toLowerCase expr)
             then Some (- (15 # 1), ConceptStore.title c) else None).

Definition word_enhanced_fts (rows : list ConceptStoreEnhanced.Row) (expr : string)
  : result (ConceptStoreEnhanced.Row -> option (Q * string)) :=
  if startsWith expr (String (ascii_of_nat 34) "") then Err SQLITE_ERROR
  else Ok (fun r =>
             if includes (toLowerCase (ConceptStoreEnhanced.row_title r))
                  (toLowerCase expr)
             then Some (- (15 # 1), ConceptStoreEnhanced.row_title r) else None).

Definition project : string := "p".

(** The call of the README: a note on the JWT flow of the middleware. *)
Definition jwt_call : MemoryDatabase.SaveParams :=
  MemoryDatabase.mkSaveParams "JWT auth flow"
    "Tokens are checked in the middleware."
    (Some ["auth"; "security"]) (Some ["src/middleware/auth.ts"]) (Some 5%Z) None.

(** The same note once more, with a time to live of a minute. *)
Definition jwt_with_ttl : MemoryDatabase.SaveParams :=
  MemoryDatabase.mkSaveParams "JWT auth flow" "Tokens expire."
    (Some ["auth"]) (Some ["src/middleware/auth.ts"]) None (Some 60%Z).

(** A note with two paths, and the same note with the paths in the other
    order and the summary in capitals. *)
Definition two_paths : MemoryDatabase.SaveParams :=
  MemoryDatabase.mkSaveParams "Session store" "Sessions live in Redis."
    None (Some ["src/session.ts"; "src/redis.ts"]) None None.

Definition two_paths_again : MemoryDatabase.SaveParams :=
  MemoryDatabase.mkSaveParams " SESSION STORE" "Sessions live in Redis now."
    None (Some ["src/redis.ts"; "src/session.ts"]) None None.

(** The same note, written differently. *)
Definition jwt_again : MemoryDatabase.SaveParams :=
  MemoryDatabase.mkSaveParams "  jwt AUTH flow "
    "Tokens are checked and refreshed in the middleware."
    (Some ["auth"]) (Some ["src/middleware/auth.ts"]) None None.

(** The table after [jwt_call] was saved at time 1000, with a row of
    another project next to it. *)
Definition jwt_row : MemoryDatabase.Row :=
  MemoryDatabase.new_row plain_md5 project 1000 "mem_1" jwt_call.

Definition foreign_row : MemoryDatabase.Row :=
  MemoryDatabase.mkRow
    (MemoryDatabase.mkMemory "mem_0" "other" "JWT rotation" "Keys rotate weekly."
       ["auth"] [] 3 900 900 None None)
    "jwt rotation|".

Definition table : list MemoryDatabase.Row := [foreign_row; jwt_row].

Definition clock (n : nat) : Z := (2000 + Z.of_nat n)%Z.

(** A query with a special character. *)
Definition jwt_query : MemoryDatabase.SearchParams :=
  MemoryDatabase.mkSearchParams "jwt!" None None None None.

(** What stage 2 finds for it. *)
Definition jwt_found : list MemoryDatabase.SearchResult :=
  [MemoryDatabase.mkSearchResult (MemoryDatabase.rowToMemory jwt_row)
     (- - (15 # 1)) "JWT auth flow"].

(** Two records that differ in their paths only, one stored with the
    path of the README and one without a path, and the same record under
    a path that starts with a slash. *)
Definition with_paths (id' : string) (paths : list string) : MemoryDatabase.SearchResult :=
  MemoryDatabase.mkSearchResult
    (MemoryDatabase.mkMemory id' project "JWT auth flow"
       "Tokens are checked in the middleware." ["auth"; "security"] paths
       5 1000 1000 None None)
    (15 # 1) "JWT auth flow".

Definition under_relative_path : MemoryDatabase.SearchResult :=
  with_paths "mem_a" ["src/middleware"].

Definition without_path : MemoryDatabase.SearchResult := with_paths "mem_b" [].

Definition under_rooted_path : MemoryDatabase.SearchResult :=
  with_paths "mem_c" ["/src/middleware"].

Definition open_file : string := "src/middleware/auth.ts".

(** Candidates of a selection: the second repeats the summary of the
    first, the third is too large for what is left of a budget of 50. *)
Definition candidate (id' summary : string) (size : Z) : ContextBroker.ContextInjection :=
  ContextBroker.mkInjection id' ContextBroker.memory summary summary 1 id' size.

Definition first_candidate := candidate "mem_1" "JWT auth flow" 30.
Definition repeated_candidate := candidate "mem_2" "jwt auth flow!" 5.
Definition large_candidate := candidate "mem_3" "Session store" 100.
Definition small_candidate := candidate "mem_4" "Rate limits" 10.

(** The state of the selection after [first_candidate]. *)
Definition after_first : ContextBroker.Selection :=
  ContextBroker.mkSelection [first_candidate] 30 ["jwt auth flow"].

(** A call of preview in hard mode. *)
Definition preview_call : ContextBroker.PreviewParams :=
  ContextBroker.mkPreviewParams (Some [open_file]) "auth" (Some 200%Z) None
    (Some ContextBroker.hard).

Definition no_concepts : ConceptStore.Store := ConceptStore.mkStore [] [].

(** A concept store with twenty-one concepts that carry the tag cache. *)
Definition cache_row (id' : string) : ConceptStoreEnhanced.Row :=
  ConceptStoreEnhanced.mkRow id' "Cache entries" "Evict by age." ["cache"] 3 4
    (Some 900%Z) 100 100 ConceptStoreEnhanced.manual 1.

Definition cache_store : ConceptStoreEnhanced.Store :=
  ConceptStoreEnhanced.mkStore
    (map cache_row
       ["c01"; "c02"; "c03"; "c04"; "c05"; "c06"; "c07"; "c08"; "c09"; "c10";
        "c11"; "c12"; "c13"; "c14"; "c15"; "c16"; "c17"; "c18"; "c19"; "c20";
        "c21"])
    [] [].

(** A save of one more concept with that tag. *)
Definition cache_call : ConceptStoreEnhanced.SaveParams :=
  ConceptStoreEnhanced.mkSaveParams "Cache keys" "Hash the request." (Some ["cache"])
    None None None.

(** A save whose title and random suffix give the id of the stored
    concept c01 again. *)
Definition resave_call : ConceptStoreEnhanced.SaveParams :=
  ConceptStoreEnhanced.mkSaveParams "C" "Evict by size." (Some ["cache"])
    (Some 4%Z) None None.

Definition resave_store : ConceptStoreEnhanced.Store :=
  ConceptStoreEnhanced.mkStore
    [cache_row "c-01"; cache_row "c02"] [] [].

(** A query that no concept matches, and the wildcard. *)
Definition unmatched : ConceptStoreEnhanced.SearchParams :=
  ConceptStoreEnhanced.mkSearchParams "zzz" None None None None None.

Definition wildcard : ConceptStoreEnhanced.SearchParams :=
  ConceptStoreEnhanced.mkSearchParams "" (Some 5%Z) None None None None.

(** The store of the server with one concept. *)
Definition jwt_concept : ConceptStore.Concept :=
  ConceptStore.mkConcept "jwt-auth-v2" "JWT Authentication Pattern"
    "Use RS256 and short expiry." ["jwt"; "auth"] 5 100 100.

Definition server_store : ConceptStore.Store :=
  ConceptStore.mkStore [jwt_concept] [].

Definition unmatched_args : Server.Args := Server.mkArgs (Some "zzz") None None.

(** What the preview of [preview_call] returns. *)
Definition preview_result : ContextBroker.ContextPreview :=
  match ContextBroker.preview project word_fts no_like word_concept_fts table
          no_concepts clock clock 3000 preview_call with
  | Ok p => p
  | Err _ =>
      ContextBroker.mkPreview [] 0 0 0 (ContextBroker.mkStats 0 0 0 0)
  end.

(** A record whose time to live ended at 1500, and the table with it. *)
Definition expired_row : MemoryDatabase.Row :=
  MemoryDatabase.mkRow
    (MemoryDatabase.mkMemory "mem_9" project "JWT draft" "Superseded."
       ["auth"] [] 2 500 500 (Some 1%Z) (Some 1500%Z))
    "jwt draft|".

Definition table_with_expired : list MemoryDatabase.Row := table ++ [expired_row].

(** A call of getRecent that names nothing, and a search for one record
    at most. *)
Definition recent_call : MemoryDatabase.RecentParams :=
  MemoryDatabase.mkRecentParams None None None.

Definition one_query : MemoryDatabase.SearchParams :=
  MemoryDatabase.mkSearchParams "jwt" (Some 1%Z) None None None.

(** What the save of [jwt_again] into the table gives. *)
Definition saved_again : MemoryDatabase.SaveResult * list MemoryDatabase.Row :=
  match MemoryDatabase.save plain_md5 project table 3000 "mem_2" jwt_again with
  | Ok r => r
  | Err _ => (MemoryDatabase.Existing "", table)
  end.

(** Full-text engines that know a bare word with a star at its end too:
    the word matches where the summary or the title contains it. *)
Definition star_fts (rows : list MemoryDatabase.Row) (expr : string)
  : result (MemoryDatabase.Row -> option (Q * string)) :=
  if startsWith expr (String (ascii_of_nat 34) "") then Err SQLITE_ERROR
  else Ok (fun r =>
             let s := MemoryDatabase.summary (MemoryDatabase.rowToMemory r) in
             if includes (toLowerCase s) (strip_star (toLowerCase expr))
             then Some (- (15 # 1), s) else None).

Definition star_concept_fts (rows : list ConceptStore.Concept) (expr : string)
  : result (ConceptStore.Concept -> option (Q * string)) :=
  if startsWith expr (String (ascii_of_nat 34) "") then Err SQLITE_ERROR
  else Ok (fun c =>
             if includes (toLowerCase (ConceptStore.title c))
                  (strip_star (toLowerCase expr))
             then Some (- (15 # 1), ConceptStore.title c) else None).

(** A store whose concept is on the allowlist of the project, a call of
    preview that names no mode, what it returns and the concept among
    its injections. *)
Definition allow_store : ConceptStore.Store :=
  ConceptStore.mkStore [jwt_concept]
    [ConceptStore.mkAllowEntry project "jwt-auth-v2" 150].

Definition smart_call : ContextBroker.PreviewParams :=
  ContextBroker.mkPreviewParams None "jwt" None None None.

Definition smart_result : ContextBroker.ContextPreview :=
  match ContextBroker.preview project star_fts no_like star_concept_fts table
          allow_store clock clock 3000 smart_call with
  | Ok p => p
  | Err _ =>
      ContextBroker.mkPreview [] 0 0 0 (ContextBroker.mkStats 0 0 0 0)
  end.

Definition smart_concept : ContextBroker.ContextInjection :=
  match filter (fun i => match ContextBroker.type i with
                         | ContextBroker.concept => true
                         | ContextBroker.memory => false
                         end)
          (ContextBroker.injections smart_result) with
  | i :: _ => i
  | [] => candidate "" "" 0
  end.

(** A save over the stored concept of the basic store, and what it
    gives. *)
Definition concept_resave : ConceptStore.SaveParams :=
  ConceptStore.mkSaveParams (Some "jwt-auth-v2") "JWT Authentication"
    "Use ES256 and short expiry." None None.

Definition resaved : string * ConceptStore.Store :=
  match ConceptStore.save allow_store 200 concept_resave with
  | Ok r => r
  | Err _ => ("", allow_store)
  end.

(** The store of [resave_store] with its first concept on the allowlist
    of the project. *)
Definition listed_store : ConceptStoreEnhanced.Store :=
  ConceptStoreEnhanced.mkStore
    [cache_row "c-01"; cache_row "c02"] []
    [ConceptStoreEnhanced.mkAllowEntry project "c-01" 50 false true].

(** A search of the enhanced store for the word cache, and the
    suggestions for a project from that word. *)
Definition cache_query : ConceptStoreEnhanced.SearchParams :=
  ConceptStoreEnhanced.mkSearchParams "cache" (Some 3%Z) None None None None.

Definition cache_search
  : list ConceptStoreEnhanced.ConceptSearchResult * ConceptStoreEnhanced.Store :=
  match ConceptStoreEnhanced.search word_enhanced_fts cache_store 9000 9001
          cache_query with
  | Ok r => r
  | Err _ => ([], cache_store)
  end.

Definition cache_suggested
  : list ConceptStoreEnhanced.Concept * ConceptStoreEnhanced.Store :=
  match ConceptStoreEnhanced.suggestForProject word_enhanced_fts cache_store
          9000 9001 clock project "cache" with
  | Ok r => r
  | Err _ => ([], cache_store)
  end.

(** A full-text engine for concepts that, as FTS5 does for a bare
    hyphen, rejects an expression that holds a special character; a
    query with one. *)
Definition strict_concept_fts (rows : list ConceptStore.Concept) (expr : string)
  : result (ConceptStore.Concept -> option (Q * string)) :=
  if exists_char is_special expr then Err SQLITE_ERROR
  else Ok (fun c =>
             if includes (toLowerCase (ConceptStore.title c)) (toLowerCase expr)
             then Some (- (15 # 1), ConceptStore.title c) else None).

Definition hyphen_args : Server.Args := Server.mkArgs (Some "jwt-auth") None None.

(** What the handler replies to [unmatched_args]. *)
Definition unmatched_reply : Server.Reply :=
  match Server.concept_search word_concept_fts server_store unmatched_args with
  | Ok reply => reply
  | Err _ => Server.mkReply "" [] Server.NoConceptsFound
  end.

(** A full-text engine that reads its expressions as FTS5 does in the
    cases the examples need: a phrase between double quotes and a bare
    word match the rows whose summary contains them, whatever the case,
    and an expression with a special character outside quotes is a
    syntax error. *)
Definition phrase_fts (rows : list MemoryDatabase.Row) (expr : string)
  : result (MemoryDatabase.Row -> option (Q * string)) :=
  let matching := fun phrase : string =>
    Ok (fun r : MemoryDatabase.Row =>
          let s := MemoryDatabase.summary (MemoryDatabase.rowToMemory r) in
          if includes (toLowerCase s) (toLowerCase phrase)
          then Some (- (15 # 1), s) else None) in
  match expr with
  | String c rest =>
      if (code c =? 34)%nat && endsWith_char (ascii_of_nat 34) rest
      then matching (drop_last rest)
      else if exists_char is_special expr then Err SQLITE_ERROR
      else matching expr
  | EmptyString => Err SQLITE_ERROR
  end.

(** A query of two words with a hyphen between them. *)
Definition hyphen_query : MemoryDatabase.SearchParams :=
  MemoryDatabase.mkSearchParams "jwt-auth!" None None None None.

End Examples.

(* ================================================================== *)
(** * Properties *)

Unset Implicit Arguments.

(** ** Lists, sorting and limits *)

Section Lists.

Variable A : Type.
Variable before : A -> A -> bool.

Lemma insert_by_In (x y : A) (l : list A) :
  In y (Js.insert_by before x l) <-> y = x \/ In y l.
Proof.
  induction l as [|z l IH]; simpl.
  - intuition.
  - destruct (before z x); simpl; rewrite ?IH; intuition.
Qed.

Lemma sort_by_In (y : A) (l : list A) :
  In y (Js.sort_by before l) <-> In y l.
Proof.
  induction l as [|x l IH]; simpl.
  - tauto.
  - rewrite insert_by_In, IH. intuition.
Qed.

Lemma insert_by_length (x : A) (l : list A) :
  List.length (Js.insert_by before x l) = S (List.length l).
Proof.
  induction l as [|z l IH]; simpl; [reflexivity|].
  destruct (before z x); simpl; now rewrite ?IH.
Qed.

Lemma sort_by_length (l : list A) :
  List.length (Js.sort_by before l) = List.length l.
Proof.
  induction l as [|x l IH]; simpl; [reflexivity|].
  now rewrite insert_by_length, IH.
Qed.

Lemma order_by_In (y : A) (l : list A) :
  In y (Sql.order_by before l) <-> In y l.
Proof. apply sort_by_In. Qed.

Lemma order_by_length (l : list A) :
  List.length (Sql.order_by before l) = List.length l.
Proof. apply sort_by_length. Qed.

End Lists.

Section Limits.

Variable A : Type.

Lemma limit_In (k : Z) (y : A) (l : list A) :
  In y (Sql.limit k l) -> In y l.
Proof.
  unfold Sql.limit. destruct (k <? 0)%Z; [tauto|].
  revert l. induction (Z.to_nat k) as [|n IH]; intros [|x l]; simpl; try tauto.
  intros [H|H]; [now left | right; now apply IH].
Qed.

Lemma limit_length (k : Z) (l : list A) :
  (0 <= k)%Z ->
  List.length (Sql.limit k l) = Nat.min (Z.to_nat k) (List.length l).
Proof.
  intros Hk. unfold Sql.limit.
  destruct (Z.ltb_spec k 0); [lia|]. apply length_firstn.
Qed.

End Limits.

Lemma mem_In (x : string) (l : list string) : Js.mem x l = true <-> In x l.
Proof.
  unfold Js.mem. rewrite existsb_exists. split.
  - intros [y [Hy E]]. apply String.eqb_eq in E. now subst.
  - intros H. exists x. split; [exact H | apply String.eqb_refl].
Qed.

(* ------------------------------------------------------------------ *)
(** ** The storage engine *)

Section StorageEngine.

Import MemoryDatabase.

Variable md5 : string -> string.
Variable projectId : string.

Lemma importance_default_ok (params : SaveParams) :
  importance_ok params ->
  check_importance (Js.or_default (save_importance params) 3) = true.
Proof.
  unfold importance_ok, Js.or_default.
  destruct (save_importance params) as [i|]; [|reflexivity].
  intros H. destruct (Z.eqb_spec i 0); [reflexivity | exact H].
Qed.

Lemma fresh_existsb (new_id : string) (rows : list Row) :
  fresh new_id rows ->
  existsb (fun x => id (rowToMemory x) =? new_id) rows = false.
Proof.
  induction 1 as [|r rows Hr _ IH]; simpl; [reflexivity|].
  rewrite IH, orb_false_r. now apply String.eqb_neq.
Qed.

Lemma set_columns_hash (now : Z) (p : Patch) (r : Row) :
  dedupe_hash (set_columns now p r) = dedupe_hash r.
Proof. reflexivity. Qed.

Lemma set_columns_collides (now : Z) (p : Patch) (h : string) (r : Row) :
  collides projectId h (set_columns now p r) = collides projectId h r.
Proof. reflexivity. Qed.

Lemma updated_length now id' params rows :
  List.length (updated projectId now id' params rows) = List.length rows.
Proof. apply length_map. Qed.

Lemma updated_stored_with now id' params h rows :
  stored_with projectId h (updated projectId now id' params rows) = stored_with projectId h rows.
Proof.
  unfold stored_with, updated.
  induction rows as [|r rows IH]; simpl; [reflexivity|].
  assert (E : collides projectId h (if update_where projectId id' r
                          then set_columns now (patch_of params) r else r)
              = collides projectId h r)
    by (destruct (update_where projectId id' r); reflexivity).
  rewrite E. destruct (collides projectId h r); simpl; now rewrite IH.
Qed.

Lemma updated_ids now id' params rows :
  map (fun r => id (rowToMemory r)) (updated projectId now id' params rows)
  = map (fun r => id (rowToMemory r)) rows.
Proof.
  unfold updated. rewrite map_map. apply map_ext.
  intros r. now destruct (update_where projectId id' r).
Qed.

Lemma update_ok now id' params rows :
  table_ok rows ->
  importance_ok params ->
  update projectId rows now id' (patch_of params)
  = Js.Ok (id', updated projectId now id' params rows).
Proof.
  intros [_ Hcheck] Himp. unfold update. fold (updated projectId now id' params rows).
  replace (forallb _ (updated projectId now id' params rows)) with true; [reflexivity|].
  symmetry. apply forallb_forall. intros r Hr.
  unfold updated in Hr. apply in_map_iff in Hr. destruct Hr as [r0 [<- Hr0]].
  rewrite Forall_forall in Hcheck. specialize (Hcheck r0 Hr0).
  destruct (update_where projectId id' r0) eqn:E.
  - apply orb_true_iff. left. simpl.
    unfold importance_ok in Himp.
    destruct (save_importance params); [exact Himp | exact Hcheck].
  - rewrite E. apply orb_true_iff. now right.
Qed.

Lemma updated_table_ok now id' params rows :
  table_ok rows -> importance_ok params ->
  table_ok (updated projectId now id' params rows).
Proof.
  intros [Hkey Hcheck] Himp. split.
  - now rewrite updated_ids.
  - unfold updated. apply Forall_map. revert Hcheck. apply Forall_impl.
    intros r Hr. destruct (update_where projectId id' r); [|exact Hr].
    simpl. unfold importance_ok in Himp.
    destruct (save_importance params); [exact Himp | exact Hr].
Qed.

(** A colliding save updates the record and inserts nothing. *)
Lemma save_collision rows now new_id params existing :
  table_ok rows ->
  importance_ok params ->
  find (collides projectId (fingerprint md5 params)) rows = Some existing ->
  save md5 projectId rows now new_id params
  = Js.Ok (Existing (id (rowToMemory existing)),
           updated projectId now (id (rowToMemory existing)) params rows).
Proof.
  intros Hok Himp Hfind. unfold save.
  fold (fingerprint md5 params). fold (collides projectId (fingerprint md5 params)).
  rewrite Hfind. fold (patch_of params).
  now rewrite (update_ok now _ params rows Hok Himp).
Qed.

(** A save without collision inserts the new row under the fresh id. *)
Lemma save_insert rows now new_id params :
  importance_ok params ->
  fresh new_id rows ->
  find (collides projectId (fingerprint md5 params)) rows = None ->
  exists m,
    save md5 projectId rows now new_id params
    = Js.Ok (Saved m, rows ++ [new_row md5 projectId now new_id params])
    /\ id m = new_id /\ project_id m = projectId
    /\ summary m = save_summary params /\ text m = save_text params.
Proof.
  intros Himp Hfresh Hfind. unfold save.
  fold (fingerprint md5 params). fold (collides projectId (fingerprint md5 params)).
  rewrite Hfind. unfold insert. cbn [rowToMemory id importance].
  rewrite (fresh_existsb _ _ Hfresh), (importance_default_ok _ Himp).
  cbn [Js.bind]. eexists. split; [reflexivity|]. cbn. repeat split.
Qed.

Lemma find_none_stored_with h rows :
  find (collides projectId h) rows = None <-> stored_with projectId h rows = 0%nat.
Proof.
  unfold stored_with. induction rows as [|r rows IH]; simpl; [tauto|].
  destruct (collides projectId h r); simpl; [split; discriminate | exact IH].
Qed.

Lemma stored_with_app h rows rows' :
  stored_with projectId h (rows ++ rows') = (stored_with projectId h rows + stored_with projectId h rows')%nat.
Proof. unfold stored_with. now rewrite filter_app, length_app. Qed.

Lemma new_row_collides now new_id params :
  collides projectId (fingerprint md5 params) (new_row md5 projectId now new_id params) = true.
Proof.
  unfold collides. cbn [new_row dedupe_hash rowToMemory project_id].
  now rewrite !String.eqb_refl.
Qed.

Lemma find_app_new h rows r :
  collides projectId h r = true ->
  exists existing, find (collides projectId h) (rows ++ [r]) = Some existing.
Proof.
  intros Hr. induction rows as [|x rows IH]; simpl.
  - rewrite Hr. now exists r.
  - destruct (collides projectId h x); [now exists x | exact IH].
Qed.

Lemma find_updated now id' params h rows :
  find (collides projectId h) (updated projectId now id' params rows)
  = option_map (fun r => if update_where projectId id' r
                         then set_columns now (patch_of params) r else r)
      (find (collides projectId h) rows).
Proof.
  unfold updated. induction rows as [|r rows IH]; simpl; [reflexivity|].
  assert (E : collides projectId h (if update_where projectId id' r
                          then set_columns now (patch_of params) r else r)
              = collides projectId h r)
    by (destruct (update_where projectId id' r); reflexivity).
  rewrite E. destruct (collides projectId h r); [reflexivity | exact IH].
Qed.

Lemma find_collides_where h rows existing :
  find (collides projectId h) rows = Some existing ->
  In existing rows /\ update_where projectId (id (rowToMemory existing)) existing = true.
Proof.
  intros H. apply find_some in H. destruct H as [Hin Hc]. split; [exact Hin|].
  unfold collides in Hc. apply andb_true_iff in Hc. destruct Hc as [_ Hp].
  unfold update_where. now rewrite String.eqb_refl, Hp.
Qed.

(** The record that a colliding save updates carries the new summary and
    text and the time of the call. *)
Lemma save_collision_record rows now params existing :
  find (collides projectId (fingerprint md5 params)) rows = Some existing ->
  exists m,
    In (mkRow m (dedupe_hash existing))
      (updated projectId now (id (rowToMemory existing)) params rows)
    /\ id m = id (rowToMemory existing)
    /\ summary m = save_summary params /\ text m = save_text params
    /\ updated_at m = now
    /\ created_at m = created_at (rowToMemory existing).
Proof.
  intros H. destruct (find_collides_where _ _ _ H) as [Hin Hw].
  exists (rowToMemory (set_columns now (patch_of params) existing)).
  split; [|now cbn].
  unfold updated. apply in_map_iff. exists existing. split; [|exact Hin].
  now rewrite Hw.
Qed.

(** Two saves with one fingerprint: the second finds the record of the
    first. *)
Lemma save_twice rows now new_id params now2 id2 params2 :
  table_ok rows -> importance_ok params -> fresh new_id rows ->
  importance_ok params2 ->
  fingerprint md5 params2 = fingerprint md5 params ->
  exists r1 rows1 r2 rows2,
    save md5 projectId rows now new_id params = Js.Ok (r1, rows1)
    /\ save md5 projectId rows1 now2 id2 params2 = Js.Ok (r2, rows2)
    /\ saved_id r2 = saved_id r1
    /\ List.length rows2 = List.length rows1
    /\ stored_with projectId (fingerprint md5 params) rows2
       = Nat.max 1 (stored_with projectId (fingerprint md5 params) rows).
Proof.
  intros Hok Himp Hfresh Himp2 Hfp.
  destruct (find (collides projectId (fingerprint md5 params)) rows) as [existing|] eqn:Hfind.
  - (* the first save updates [existing]; so does the second *)
    pose proof (save_collision rows now new_id params existing Hok Himp Hfind) as H1.
    set (rows1 := updated projectId now (id (rowToMemory existing)) params rows) in *.
    assert (Hok1 : table_ok rows1) by now apply updated_table_ok.
    assert (Hfind1 : find (collides projectId (fingerprint md5 params2)) rows1
                     = Some (set_columns now (patch_of params) existing)).
    { rewrite Hfp. unfold rows1. rewrite find_updated, Hfind. simpl.
      destruct (find_collides_where _ _ _ Hfind) as [_ Hw]. now rewrite Hw. }
    pose proof (save_collision rows1 now2 id2 params2 _ Hok1 Himp2 Hfind1) as H2.
    do 4 eexists. split; [exact H1|]. split; [exact H2|].
    split; [reflexivity|]. split; [apply updated_length|].
    unfold rows1. rewrite !updated_stored_with.
    assert (stored_with projectId (fingerprint md5 params) rows <> 0%nat).
    { intros E. apply find_none_stored_with in E. congruence. }
    lia.
  - (* the first save inserts; the second updates the row inserted *)
    destruct (save_insert rows now new_id params Himp Hfresh Hfind)
      as [m [H1 [Hid _]]].
    set (row1 := new_row md5 projectId now new_id params) in *.
    assert (Hok1 : table_ok (rows ++ [row1])).
    { destruct Hok as [Hkey Hcheck]. split.
      - rewrite map_app. simpl. apply NoDup_app.
        + exact Hkey.
        + repeat constructor. simpl. tauto.
        + intros x Hx [Hx'|[]]. simpl in Hx'. subst x.
          apply in_map_iff in Hx. destruct Hx as [r [Hr Hin]].
          unfold fresh in Hfresh. rewrite Forall_forall in Hfresh.
          exact (Hfresh r Hin Hr).
      - apply Forall_app. split; [exact Hcheck|]. repeat constructor.
        simpl. now apply importance_default_ok. }
    assert (Hfind1 : find (collides projectId (fingerprint md5 params2)) (rows ++ [row1])
                     = Some row1).
    { rewrite Hfp. clear -Hfind. induction rows as [|x rows IH]; simpl.
      - unfold row1. now rewrite new_row_collides.
      - simpl in Hfind. destruct (collides projectId (fingerprint md5 params) x);
          [discriminate | now apply IH]. }
    pose proof (save_collision _ now2 id2 params2 _ Hok1 Himp2 Hfind1) as H2.
    do 4 eexists. split; [exact H1|]. split; [exact H2|].
    split; [simpl; now rewrite Hid|]. split; [apply updated_length|].
    rewrite updated_stored_with, stored_with_app.
    apply find_none_stored_with in Hfind. rewrite Hfind.
    unfold stored_with. simpl. unfold row1. now rewrite new_row_collides.
Qed.

End StorageEngine.

(* ------------------------------------------------------------------ *)
(** ** The fallback cascade *)

Section Cascade.

Import MemoryDatabase.

Variable fts5 : list Row -> string -> Js.result (Row -> option (Q * string)).
Variable like : string -> string -> bool.
Variable projectId : string.

Lemma return_if_found_cases (A : Type) (r : Js.result (list SearchResult))
    (wrap : list SearchResult -> A) :
  (gives_nothing r = true
   /\ Js.try_catch (return_if_found r wrap) (@warn A) = Js.Normal)
  \/ (exists found, found <> [] /\ r = Js.Ok found
      /\ Js.try_catch (return_if_found r wrap) (@warn A) = Js.Return (wrap found)).
Proof.
  destruct r as [[|x l]|e]; simpl.
  - left. now split.
  - right. exists (x :: l). repeat split. discriminate.
  - left. now split.
Qed.

Lemma return_whatever_cases (A : Type) (r : Js.result (list SearchResult))
    (wrap : list SearchResult -> A) :
  (exists e, r = Js.Err e
   /\ Js.try_catch (return_whatever r wrap) (@warn A) = Js.Normal)
  \/ (exists found, r = Js.Ok found
      /\ Js.try_catch (return_whatever r wrap) (@warn A) = Js.Return (wrap found)).
Proof.
  destruct r as [found|e]; simpl.
  - right. now exists found.
  - left. now exists e.
Qed.

(** The goal that the stages before a given one gave nothing, from the
    facts collected about each stage: it gave nothing, or its guard is
    false. *)
Ltac earlier_stages :=
  let n := fresh "n" in
  let H := fresh "H" in
  let G := fresh "G" in
  intros n H G;
  do 5 (destruct n as [|n];
        [ first [ lia | assumption
                | cbn [stage_guard] in G; congruence ] |]);
  lia.

Ltac found_at stage :=
  exists stage; split; [lia|]; split; [reflexivity || assumption|];
  split; [assumption | earlier_stages].

(** The cascade of search, stage by stage. *)
Lemma search_cascade :
  forall rows clock params,
  exists found,
    search fts5 like projectId rows clock params = Js.Return found
    /\ ((found = []
         /\ earlier_gave_nothing fts5 like projectId rows clock params 5)
        \/ (found <> []
            /\ exists stage,
                 (1 <= stage <= 4)%nat
                 /\ stage_guard stage (q params) = true
                 /\ run_stage fts5 like projectId rows clock params stage
                    = Js.Ok found
                 /\ earlier_gave_nothing fts5 like projectId rows clock params
                      stage)).
Proof.
  intros rows clock params. unfold search, earlier_gave_nothing.
  set (keep := fun found : list SearchResult => found).
  destruct (return_if_found_cases _
              (run_stage fts5 like projectId rows clock params 1) keep)
    as [[N1 ->]|[f1 [Hf1 [R1 ->]]]];
  destruct (return_if_found_cases _
              (run_stage fts5 like projectId rows clock params 2) keep)
    as [[N2 ->]|[f2 [Hf2 [R2 ->]]]];
  destruct (return_if_found_cases _
              (run_stage fts5 like projectId rows clock params 3) keep)
    as [[N3 ->]|[f3 [Hf3 [R3 ->]]]];
  destruct (return_whatever_cases _
              (run_stage fts5 like projectId rows clock params 4) keep)
    as [[e [R4 ->]]|[[|x f4] [R4 ->]]];
  try (assert (N4 : gives_nothing
                      (run_stage fts5 like projectId rows clock params 4) = true)
         by (rewrite R4; reflexivity));
  destruct (has_special (q params)) eqn:S2;
  destruct (1 <? List.length (words (q params)))%nat eqn:S3;
  destruct (0 <? List.length (words (q params)))%nat eqn:S4;
  cbn [Js.seq]; eexists; (split; [reflexivity|]);
  first [ left; split; [reflexivity | earlier_stages]
        | right; split; [assumption || discriminate|];
          first [ found_at 1%nat | found_at 2%nat | found_at 3%nat
                | found_at 4%nat ] ].
Qed.

(** C3.  For every query, search returns a list and does not throw.  A
    stage whose search fails counts as a stage that found nothing, and the
    next stage runs.  The list returned is the one of the first stage that
    found a row; it is empty only when every stage that the query admits
    (the literal query always, the query without special characters when
    it has one, the OR of its words when it has two, its first word when
    it has one) found nothing. *)
Theorem search_never_throws :
  forall rows clock params,
  exists found,
    search fts5 like projectId rows clock params = Js.Return found
    /\ ((found = []
         /\ earlier_gave_nothing fts5 like projectId rows clock params 5)
        \/ (found <> []
            /\ exists stage,
                 (1 <= stage <= 4)%nat
                 /\ stage_guard stage (q params) = true
                 /\ run_stage fts5 like projectId rows clock params stage
                    = Js.Ok found
                 /\ earlier_gave_nothing fts5 like projectId rows clock params
                      stage)).
Proof.
  intros rows clock params.
  destruct (search_cascade rows clock params) as [found [Hreturn Hstages]].
  exists found. split; [exact Hreturn | exact Hstages].
Qed.

(** The same cascade in searchWithDebug: it returns, and its results are
    those of one of the stages or none. *)
Lemma searchWithDebug_returns rows clock params :
  exists d,
    searchWithDebug fts5 like projectId rows clock params = Js.Return d
    /\ (results d = []
        \/ exists stage,
             run_stage fts5 like projectId rows clock params stage
             = Js.Ok (results d)).
Proof.
  unfold searchWithDebug. cbv beta zeta.
  match goal with
  | |- context [Js.try_catch (return_if_found ?r ?w) _] =>
      destruct (return_if_found_cases _ r w) as [[N1 ->]|[f1 [Hf1 [R1 ->]]]]
  end;
  match goal with
  | |- context [Js.try_catch (return_if_found ?r ?w) _] =>
      destruct (return_if_found_cases _ r w) as [[N2 ->]|[f2 [Hf2 [R2 ->]]]]
  end;
  match goal with
  | |- context [Js.try_catch (return_if_found ?r ?w) _] =>
      destruct (return_if_found_cases _ r w) as [[N3 ->]|[f3 [Hf3 [R3 ->]]]]
  end;
  match goal with
  | |- context [Js.try_catch (return_whatever ?r ?w) _] =>
      destruct (return_whatever_cases _ r w) as [[e [R4 ->]]|[f4 [R4 ->]]]
  end;
  destruct (has_special (q params));
  destruct (1 <? List.length (words (q params)))%nat;
  destruct (0 <? List.length (words (q params)))%nat;
  cbn [Js.seq]; eexists; (split; [reflexivity|]); cbn [results];
  first [ left; reflexivity
        | right; first [ exists 1%nat; assumption | exists 2%nat; assumption
                       | exists 3%nat; assumption | exists 4%nat; assumption ] ].
Qed.

(** Every row that executeSearch returns passed its WHERE clause. *)
Lemma executeSearch_in_project rows now params found :
  executeSearch fts5 like projectId rows now params = Js.Ok found ->
  Forall (fun r => in_project projectId (memory r)) found.
Proof.
  unfold executeSearch.
  destruct (Js.truthy (require_path_match params) && _).
  - intros [= <-]. constructor.
  - destruct (fts5 rows (escapeQuery (q params))) as [hit|e]; cbn [Js.bind];
      [|discriminate].
    intros [= <-]. apply Forall_forall. intros r Hr.
    apply in_map_iff in Hr. destruct Hr as [rs [<- Hrs]]. cbn [memory].
    apply limit_In in Hrs. apply order_by_In in Hrs.
    apply filter_In in Hrs. destruct Hrs as [_ Hw].
    unfold search_where in Hw. rewrite !andb_true_iff in Hw.
    destruct Hw as [[[Hp _] _] _]. now apply String.eqb_eq in Hp.
Qed.

Lemma run_stage_in_project rows clock params stage found :
  run_stage fts5 like projectId rows clock params stage = Js.Ok found ->
  Forall (in_project projectId) (map memory found).
Proof.
  intros H. apply Forall_map. now apply executeSearch_in_project in H.
Qed.

Lemma assign_In (A : Type) (key : string) (value : A) (o : list (string * A))
    (kv : string * A) :
  In kv (assign key value o) -> kv = (key, value) \/ In kv o.
Proof.
  induction o as [|[k' v'] o IH]; simpl.
  - intros [<-|[]]. now left.
  - destruct (k' =? key)%string; simpl.
    + intros [<-|H]; [now left | right; now right].
    + intros [<-|H]; [right; now left|].
      destruct (IH H) as [->|H']; [now left | right; now right].
Qed.

Lemma fold_assign_In (A B : Type) (key : B -> string) (value : B -> A)
    (l : list B) (o : list (string * A)) (kv : string * A) :
  In kv (fold_left (fun o x => assign (key x) (value x) o) l o) ->
  In kv o \/ exists x, In x l /\ kv = (key x, value x).
Proof.
  revert o. induction l as [|x l IH]; simpl; intros o H; [now left|].
  destruct (IH _ H) as [H'|[y [Hy ->]]].
  - apply assign_In in H'. destruct H' as [->|H']; [right; exists x|]; auto.
  - right. exists y. auto.
Qed.

Lemma assign_found (key : string) (value : option Memory)
    (o : list (string * option Memory)) (m : Memory) :
  In m (flat_map (fun kv => match snd kv with Some m => [m] | None => [] end)
          (assign key value o)) ->
  value = Some m
  \/ In m (flat_map (fun kv => match snd kv with Some m => [m] | None => [] end) o).
Proof.
  intros H. apply in_flat_map in H. destruct H as [kv [Hkv Hm]].
  apply assign_In in Hkv. destruct Hkv as [->|Hkv].
  - left. cbn [snd] in Hm. destruct value as [v|]; [|destruct Hm].
    destruct Hm as [->|[]]. reflexivity.
  - right. apply in_flat_map. exists kv. now split.
Qed.

Lemma set_property_found (key : string) (value : option Memory) (o : Dictionary)
    (m : Memory) :
  In m (found_by_getMultiple (set_property key value o)) ->
  value = Some m \/ In m (found_by_getMultiple o).
Proof.
  unfold set_property, found_by_getMultiple.
  destruct (_ && _ && _); cbn [own prototype]; intros H;
    apply in_app_iff in H; destruct H as [H|H].
  - right. apply in_app_iff. now left.
  - destruct value as [v|]; [|destruct H]. destruct H as [->|[]]. now left.
  - apply assign_found in H. destruct H as [H|H]; [now left | right].
    apply in_app_iff. now left.
  - right. apply in_app_iff. now right.
Qed.

Lemma fold_set_property_found (B : Type) (key : B -> string)
    (value : B -> option Memory) (l : list B) (o : Dictionary) (m : Memory) :
  In m (found_by_getMultiple
          (fold_left (fun o x => set_property (key x) (value x) o) l o)) ->
  In m (found_by_getMultiple o) \/ exists x, In x l /\ value x = Some m.
Proof.
  revert o. induction l as [|x l IH]; simpl; intros o H; [now left|].
  destruct (IH _ H) as [H'|[y [Hy Hv]]].
  - apply set_property_found in H'. destruct H' as [Hv|H']; [right; exists x|];
      auto.
  - right. exists y. auto.
Qed.

(** C9.  Every record that search, searchWithDebug, getRecent, get and
    getMultiple return belongs to the project of the engine, whatever
    other rows the table holds. *)
Theorem reads_stay_in_project :
  forall rows clock now params recent id' ids,
    Forall (in_project projectId)
      (found_by_search (search fts5 like projectId rows clock params))
    /\ Forall (in_project projectId)
         (found_by_debug (searchWithDebug fts5 like projectId rows clock params))
    /\ Forall (in_project projectId) (getRecent like projectId rows now recent)
    /\ Forall (in_project projectId)
         (match get projectId rows id' with Some m => [m] | None => [] end)
    /\ Forall (in_project projectId)
         (found_by_getMultiple (getMultiple projectId rows ids)).
Proof.
  intros rows clock now params recent id' ids. repeat split.
  - destruct (search_cascade rows clock params)
      as [found [-> [[-> _]|[_ [stage [_ [_ [H _]]]]]]]]; cbn.
    + constructor.
    + exact (run_stage_in_project _ _ _ _ _ H).
  - destruct (searchWithDebug_returns rows clock params)
      as [d [-> [E|[stage H]]]]; cbn.
    + rewrite E. constructor.
    + exact (run_stage_in_project _ _ _ _ _ H).
  - unfold getRecent. apply Forall_map, Forall_forall. intros r Hr.
    apply limit_In in Hr. apply order_by_In in Hr. apply filter_In in Hr.
    destruct Hr as [_ Hw]. rewrite !andb_true_iff in Hw.
    destruct Hw as [[Hp _] _]. now apply String.eqb_eq in Hp.
  - unfold get.
    destruct (find _ rows) as [r|] eqn:Hfind; cbn; constructor; [|constructor].
    apply find_some in Hfind. destruct Hfind as [_ Hw].
    apply andb_true_iff in Hw. destruct Hw as [_ Hp].
    now apply String.eqb_eq in Hp.
  - unfold getMultiple. cbv zeta. destruct ids as [|i ids]; [constructor|].
    apply Forall_forall. intros m Hm.
    apply (fold_set_property_found _ (fun r => id (rowToMemory r))
             (fun r => Some (rowToMemory r))) in Hm.
    destruct Hm as [Hm|[r [Hr [= <-]]]].
    + apply (fold_set_property_found _ (fun i : string => i)
               (fun _ => @None Memory)) in Hm.
      destruct Hm as [[]|[x [_ [=]]]].
    + apply filter_In in Hr. destruct Hr as [_ Hw].
      apply andb_true_iff in Hw. destruct Hw as [_ Hp].
      now apply String.eqb_eq in Hp.
Qed.

End Cascade.

(* ------------------------------------------------------------------ *)
(** ** The context assembler *)

Section Assembler.

Import ContextBroker.

Variable projectId : string.
Variable mem_fts : list MemoryDatabase.Row -> string
                   -> Js.result (MemoryDatabase.Row -> option (Q * string)).
Variable like : string -> string -> bool.
Variable concept_fts : list ConceptStore.Concept -> string
                       -> Js.result (ConceptStore.Concept -> option (Q * string)).

Lemma total_bytes_from (l : list ContextInjection) (sum : Z) :
  fold_left (fun sum inj => (sum + byteSize inj)%Z) l sum
  = (sum + total_bytes l)%Z.
Proof.
  unfold total_bytes. revert sum. induction l as [|c l IH]; intros sum; simpl.
  - lia.
  - rewrite (IH (sum + byteSize c)%Z), (IH (byteSize c)). lia.
Qed.

Lemma total_bytes_snoc (l : list ContextInjection) (c : ContextInjection) :
  total_bytes (l ++ [c]) = (total_bytes l + byteSize c)%Z.
Proof.
  unfold total_bytes at 1. rewrite fold_left_app. simpl.
  fold (total_bytes l). reflexivity.
Qed.

(** What the loop of selectByBudget keeps true of its variables. *)
Lemma select_body_within (budgetLimit topK : Z) (st st' : Selection)
    (c : ContextInjection) :
  used st = total_bytes (selected st) ->
  (used st <= budgetLimit)%Z ->
  (Z.of_nat (List.length (selected st)) <= topK)%Z ->
  select_body budgetLimit topK st c = Next st' ->
  used st' = total_bytes (selected st')
  /\ (used st' <= budgetLimit)%Z
  /\ (Z.of_nat (List.length (selected st')) <= topK)%Z.
Proof.
  intros Hsum Hb Hk. unfold select_body.
  destruct (Z.leb_spec topK (Z.of_nat (List.length (selected st))));
    [discriminate|].
  destruct (Z.ltb_spec budgetLimit (used st + byteSize c)); [discriminate|].
  destruct (Js.mem _ (seen st)); intros [= <-]; [now repeat split|].
  cbn [used selected]. rewrite total_bytes_snoc, length_app. simpl.
  repeat split; lia.
Qed.

Lemma select_loop_within (budgetLimit topK : Z) (cs : list ContextInjection) :
  forall st,
    used st = total_bytes (selected st) ->
    (used st <= budgetLimit)%Z ->
    (Z.of_nat (List.length (selected st)) <= topK)%Z ->
    let st' := select_loop budgetLimit topK cs st in
    used st' = total_bytes (selected st')
    /\ (used st' <= budgetLimit)%Z
    /\ (Z.of_nat (List.length (selected st')) <= topK)%Z.
Proof.
  induction cs as [|c cs IH]; intros st Hsum Hb Hk; simpl; [now repeat split|].
  destruct (select_body budgetLimit topK st c) as [|st1] eqn:E;
    [now repeat split|].
  destruct (select_body_within _ _ _ _ _ Hsum Hb Hk E) as [H1 [H2 H3]].
  now apply IH.
Qed.

Lemma selectByBudget_within (cs : list ContextInjection) (budgetLimit topK : Z) :
  (0 <= budgetLimit)%Z -> (0 <= topK)%Z ->
  (total_bytes (selectByBudget cs budgetLimit topK) <= budgetLimit)%Z
  /\ (Z.of_nat (List.length (selectByBudget cs budgetLimit topK)) <= topK)%Z.
Proof.
  intros Hb Hk. unfold selectByBudget.
  assert (H : used (mkSelection [] 0 []) = total_bytes (selected (mkSelection [] 0 [])))
    by reflexivity.
  apply (select_loop_within budgetLimit topK cs) in H; cbn [used selected];
    [|lia|simpl; lia].
  cbv zeta in H. destruct H as [H1 [H2 H3]]. rewrite <- H1. now split.
Qed.

(** What preview returns is what selectByBudget selects under the
    budget and the count of the call, or their defaults. *)
Lemma preview_selects rows store clock clock' now params p :
  preview projectId mem_fts like concept_fts rows store clock clock' now params
  = Js.Ok p ->
  exists candidates,
    injections p
    = selectByBudget candidates (default (budget_bytes params) 2048%Z)
        (default (top_k params) 10%Z)
    /\ budgetUsed p = total_bytes (injections p)
    /\ budgetLimit p = default (budget_bytes params) 2048%Z
    /\ topK p = default (top_k params) 10%Z.
Proof.
  unfold preview. cbv zeta.
  repeat match goal with
         | |- Js.bind ?x _ = _ -> _ =>
             destruct x; cbn [Js.bind]; [|discriminate]
         end.
  intros [= <-]. cbn [injections budgetUsed budgetLimit topK].
  eexists. repeat split.
Qed.

(** C4.  In every result of preview, the byte sizes of the injections
    add up to at most budget_bytes and there are at most top_k
    injections, where budget_bytes is 2048 and top_k is 10 when the call
    leaves them out; both are taken not to be negative. *)
Theorem preview_respects_budget :
  forall rows store clock clock' now params p,
    (0 <= default (budget_bytes params) 2048)%Z ->
    (0 <= default (top_k params) 10)%Z ->
    preview projectId mem_fts like concept_fts rows store clock clock' now params
    = Js.Ok p ->
    (total_bytes (injections p) <= default (budget_bytes params) 2048)%Z
    /\ (Z.of_nat (List.length (injections p)) <= default (top_k params) 10)%Z
    /\ budgetUsed p = total_bytes (injections p)
    /\ budgetLimit p = default (budget_bytes params) 2048%Z
    /\ topK p = default (top_k params) 10%Z.
Proof.
  intros rows store clock clock' now params p Hb Hk H.
  destruct (preview_selects _ _ _ _ _ _ _ H) as [cs [Hsel [Hused [Hlim Htop]]]].
  rewrite Hsel.
  destruct (selectByBudget_within cs _ _ Hb Hk) as [H1 H2].
  rewrite <- Hsel. rewrite Hsel at 1 2. repeat split; assumption.
Qed.

(** In hard mode preview asks no concept store and always returns. *)
Lemma preview_hard_returns rows store clock clock' now params :
  mode params = Some hard ->
  exists p,
    preview projectId mem_fts like concept_fts rows store clock clock' now params
    = Js.Ok p.
Proof.
  intros Hmode. unfold preview. cbv zeta. rewrite Hmode. cbn [default].
  destruct (search_cascade mem_fts like projectId rows clock
              (MemoryDatabase.mkSearchParams (extractSearchTerms (task params))
                 (Some 50%Z) (Some false) None None)) as [f1 [-> _]].
  cbn [returned Js.bind].
  destruct f1 as [|x f1].
  - destruct (Js.endsWith_char "*" (extractSearchTerms (task params))).
    + destruct (search_cascade mem_fts like projectId rows clock'
                  (MemoryDatabase.mkSearchParams
                     (Js.drop_last (extractSearchTerms (task params)))
                     (Some 50%Z) (Some false) None None)) as [f2 [-> _]].
      cbn [returned Js.bind]. eexists. reflexivity.
    + cbn [Js.bind]. eexists. reflexivity.
  - cbn [Js.bind]. eexists. reflexivity.
Qed.

(** A candidate that does not fit ends the pass: what was selected
    before it is the result, whatever follows. *)
Lemma select_loop_app (budgetLimit topK : Z) (pre rest : list ContextInjection) :
  forall st st',
    select_through budgetLimit topK pre st = Some st' ->
    select_loop budgetLimit topK (pre ++ rest) st
    = select_loop budgetLimit topK rest st'.
Proof.
  induction pre as [|c pre IH]; intros st st'; simpl.
  - now intros [= ->].
  - destruct (select_body budgetLimit topK st c); [discriminate|]. apply IH.
Qed.

(** C5, as the code has it.  In the greedy pass of selectByBudget a
    candidate that fits but whose normalized summary was selected
    already is skipped, and the pass goes on as if it were not in the
    list.  A candidate whose size does not fit in the remaining budget
    ends the pass: the result is what was selected before it, and no
    later candidate is looked at. *)
Theorem selectByBudget_skips_duplicates_and_stops_at_overflow :
  forall budgetLimit topK pre candidate rest st,
    select_through budgetLimit topK pre (mkSelection [] 0 []) = Some st ->
    (Z.of_nat (List.length (selected st)) < topK)%Z ->
    ((used st + byteSize candidate <= budgetLimit)%Z ->
     Js.mem (normalizeForDedupe (summary candidate)) (seen st) = true ->
     selectByBudget (pre ++ candidate :: rest) budgetLimit topK
     = selectByBudget (pre ++ rest) budgetLimit topK)
    /\ ((budgetLimit < used st + byteSize candidate)%Z ->
        selectByBudget (pre ++ candidate :: rest) budgetLimit topK
        = selected st).
Proof.
  intros budgetLimit topK pre candidate rest st Hpre Hk.
  unfold selectByBudget.
  rewrite !(select_loop_app _ _ pre _ _ _ Hpre). simpl. unfold select_body.
  destruct (Z.leb_spec topK (Z.of_nat (List.length (selected st)))); [lia|].
  split.
  - intros Hfit Hseen.
    destruct (Z.ltb_spec budgetLimit (used st + byteSize candidate)); [lia|].
    now rewrite Hseen.
  - intros Hover.
    destruct (Z.ltb_spec budgetLimit (used st + byteSize candidate)); [|lia].
    reflexivity.
Qed.

End Assembler.

(* ------------------------------------------------------------------ *)
(** ** Path dominance *)

Section PathDominance.

Import ContextBroker.

Variable projectId : string.

Lemma Qgtb_true (a b : Q) : Sql.Qgtb a b = true <-> b < a.
Proof.
  unfold Sql.Qgtb. rewrite negb_true_iff. split; intros H.
  - apply Qnot_le_lt. intros Hle. apply Qle_bool_iff in Hle. congruence.
  - destruct (Qle_bool a b) eqn:E; [|reflexivity].
    apply Qle_bool_iff in E. exfalso. exact (Qlt_not_le _ _ H E).
Qed.

Lemma Qgtb_false (a b : Q) : Sql.Qgtb a b = false <-> a <= b.
Proof.
  unfold Sql.Qgtb. rewrite negb_false_iff. apply Qle_bool_iff.
Qed.

(** When pathMatchStrength finds a match for one record and none for
    another that is equal in project, tags, importance, age and
    full-text rank, the first record scores strictly higher: by ten
    times the strength when the task has one word, by twice the strength
    at least otherwise. *)
Lemma path_match_dominates now prefixes task r1 r2 :
  let m1 := MemoryDatabase.memory r1 in
  let m2 := MemoryDatabase.memory r2 in
  MemoryDatabase.project_id m1 = MemoryDatabase.project_id m2 ->
  MemoryDatabase.tags m1 = MemoryDatabase.tags m2 ->
  MemoryDatabase.importance m1 = MemoryDatabase.importance m2 ->
  MemoryDatabase.created_at m1 = MemoryDatabase.created_at m2 ->
  MemoryDatabase.score r1 = MemoryDatabase.score r2 ->
  0 < pathMatchStrength (MemoryDatabase.paths m1) prefixes ->
  pathMatchStrength (MemoryDatabase.paths m2) prefixes == 0 ->
  memoryScore projectId now prefixes task r2
  < memoryScore projectId now prefixes task r1.
Proof.
  intros m1 m2 Hp Ht Hi Hc Hs H1 H2. unfold memoryScore.
  fold m1 m2. rewrite Hp, Ht, Hi, Hc, Hs.
  set (p1 := pathMatchStrength (MemoryDatabase.paths m1) prefixes) in *.
  set (p2 := pathMatchStrength (MemoryDatabase.paths m2) prefixes) in *.
  assert (G1 : Sql.Qgtb p1 0 = true) by now apply Qgtb_true.
  assert (G2 : Sql.Qgtb p2 0 = false) by (apply Qgtb_false; rewrite H2; apply Qle_refl).
  assert (G3 : Sql.Qgtb p2 (1 # 2) = false)
    by (apply Qgtb_false; rewrite H2; discriminate).
  rewrite G1, G2, G3, andb_false_r, andb_true_r.
  destruct (List.length _ =? 1)%nat.
  - lra.
  - destruct (Sql.Qgtb p1 (1 # 2)); lra.
Qed.

(** C6, at the call of the README.  The task is the single word auth, it
    matches the tag auth of both records, and the open file
    src/middleware/auth.ts lies under the path src/middleware of the
    first record; the second record has no path.  inferPathPrefixes puts
    a slash before every prefix, so no prefix matches the stored path:
    the strength is 0 and the two scores are equal.  Under the path
    /src/middleware the same record does score higher. *)
Theorem relative_path_gets_no_boost :
  inferPathPrefixes [Examples.open_file]
  = ["/src"; "/src/*"; "/src/middleware"; "/src/middleware/*";
     "/src/middleware/auth.ts"]
  /\ pathMatchStrength ["src/middleware"] (inferPathPrefixes [Examples.open_file])
     == 0
  /\ memoryScore Examples.project 2000 (inferPathPrefixes [Examples.open_file])
       "auth" Examples.under_relative_path
     == memoryScore Examples.project 2000 (inferPathPrefixes [Examples.open_file])
          "auth" Examples.without_path
  /\ memoryScore Examples.project 2000 (inferPathPrefixes [Examples.open_file])
       "auth" Examples.without_path
     < memoryScore Examples.project 2000 (inferPathPrefixes [Examples.open_file])
         "auth" Examples.under_rooted_path.
Proof.
  split; [vm_compute; reflexivity|]. split; [vm_compute; reflexivity|]. split.
  - vm_compute. reflexivity.
  - vm_compute. reflexivity.
Qed.

End PathDominance.

(* ------------------------------------------------------------------ *)
(** ** The concept graph store *)

Section ConceptGraph.

Import ConceptStoreEnhanced.

Variable foreign_keys : bool.

Lemma has_concept_app rows rows' id' :
  has_concept (rows ++ rows') id' = has_concept rows id' || has_concept rows' id'.
Proof. unfold has_concept. apply existsb_app. Qed.

Lemma has_concept_filter rows id' x :
  x <> id' ->
  has_concept (filter (fun r => negb (row_id r =? id')) rows) x = has_concept rows x.
Proof.
  intros Hx. unfold has_concept. induction rows as [|r rows IH]; simpl; [reflexivity|].
  destruct (String.eqb_spec (row_id r) id') as [E|E]; simpl.
  - rewrite IH. destruct (String.eqb_spec (row_id r) x); [congruence | reflexivity].
  - now rewrite IH.
Qed.

(** What INSERT OR REPLACE leaves in table concepts. *)
Lemma insert_or_replace_ok s r :
  check_importance (row_importance r) = true ->
  exists s',
    insert_or_replace foreign_keys s r = Js.Ok s'
    /\ concepts s'
       = filter (fun x => negb (row_id x =? row_id r)) (concepts s) ++ [r].
Proof.
  intros Hc. unfold insert_or_replace. rewrite Hc.
  destruct (foreign_keys && has_concept (concepts s) (row_id r));
    eexists; split; reflexivity.
Qed.

Lemma replaced_has_concept rows r x :
  has_concept rows x = true ->
  has_concept (filter (fun y => negb (row_id y =? row_id r)) rows ++ [r]) x = true.
Proof.
  intros H. rewrite has_concept_app.
  destruct (String.eqb_spec x (row_id r)) as [->|E].
  - unfold has_concept at 2. simpl. rewrite String.eqb_refl. now rewrite !orb_true_r.
  - now rewrite (has_concept_filter _ _ _ E), H.
Qed.

Lemma find_row_replaced rows r :
  find (fun x => row_id x =? row_id r)
    (filter (fun x => negb (row_id x =? row_id r)) rows ++ [r]) = Some r.
Proof.
  induction rows as [|x rows IH]; simpl.
  - now rewrite String.eqb_refl.
  - destruct (row_id x =? row_id r) eqn:E; simpl; [exact IH|]. now rewrite E.
Qed.

Lemma filter_out_none rows id' :
  List.length (filter (fun x => row_id x =? id')
                 (filter (fun x => negb (row_id x =? id')) rows)) = 0%nat.
Proof.
  induction rows as [|x rows IH]; simpl; [reflexivity|].
  destruct (row_id x =? id') eqn:E; simpl; [exact IH|]. now rewrite E.
Qed.

Lemma others_replaced s r :
  Sql.limit 20
    (filter (fun x => negb (row_id x =? row_id r))
       (filter (fun x => negb (row_id x =? row_id r)) (concepts s) ++ [r]))
  = others s (row_id r).
Proof.
  unfold others. f_equal. rewrite filter_app. simpl.
  rewrite String.eqb_refl. simpl. rewrite app_nil_r.
  induction (concepts s) as [|x rows IH]; simpl; [reflexivity|].
  destruct (row_id x =? row_id r) eqn:E; simpl; [exact IH|].
  rewrite E. simpl. now rewrite IH.
Qed.

(** The key that a statement of addRelationships writes holds the new
    edge afterwards, and the other keys hold what they held. *)
Lemma insert_relationship_ok s from to type :
  foreign_keys = false
  \/ (has_concept (concepts s) from = true /\ has_concept (concepts s) to = true) ->
  exists s',
    insert_relationship foreign_keys s from to type = Js.Ok s'
    /\ concepts s' = concepts s
    /\ project_allowlists s' = project_allowlists s
    /\ find_edge s' from to = Some (mkRelationship from to type (1 # 2))
    /\ (forall from' to',
          (from', to') <> (from, to) ->
          find_edge s' from' to' = find_edge s from' to').
Proof.
  intros Hfk. unfold insert_relationship.
  assert (G : foreign_keys
              && negb (has_concept (concepts s) from && has_concept (concepts s) to)
              = false).
  { destruct Hfk as [->|[-> ->]]; [reflexivity | apply andb_false_r]. }
  rewrite G. eexists. split; [reflexivity|]. cbn [concepts project_allowlists].
  split; [reflexivity|]. split; [reflexivity|]. unfold find_edge.
  cbn [concept_relationships]. split.
  - induction (concept_relationships s) as [|e es IH]; simpl.
    + now rewrite !String.eqb_refl.
    + destruct ((concept_id e =? from) && (related_id e =? to))%bool eqn:E; simpl;
        [exact IH|]. now rewrite E.
  - intros from' to' Hne.
    induction (concept_relationships s) as [|e es IH]; simpl.
    + destruct (String.eqb_spec from from'); destruct (String.eqb_spec to to');
        simpl; try reflexivity. subst. congruence.
    + destruct ((concept_id e =? from) && (related_id e =? to))%bool eqn:E; simpl.
      * apply andb_true_iff in E. destruct E as [E1 E2].
        apply String.eqb_eq in E1, E2.
        destruct (String.eqb_spec (concept_id e) from');
          destruct (String.eqb_spec (related_id e) to'); simpl; try exact IH.
        subst. congruence.
      * destruct ((concept_id e =? from') && (related_id e =? to'))%bool;
          [reflexivity | exact IH].
Qed.

(** An edge of a type stays, or is written again with that type, when
    addRelationships writes edges of that type. *)
Lemma insert_relationship_keeps s s' from to type from' to' :
  foreign_keys = false
  \/ (has_concept (concepts s) from = true /\ has_concept (concepts s) to = true) ->
  insert_relationship foreign_keys s from to type = Js.Ok s' ->
  has_edge s from' to' type ->
  has_edge s' from' to' type.
Proof.
  intros Hfk Hs' [e [He Ht]].
  destruct (insert_relationship_ok s from to type Hfk)
    as [s1 [H1 [_ [_ [Hnew Hold]]]]].
  rewrite H1 in Hs'. injection Hs' as <-.
  destruct (String.eqb_spec from' from) as [->|E1];
    [destruct (String.eqb_spec to' to) as [->|E2]|].
  - eexists. split; [exact Hnew | reflexivity].
  - exists e. split; [|exact Ht]. rewrite Hold; [exact He | congruence].
  - exists e. split; [|exact Ht]. rewrite Hold; [exact He | congruence].
Qed.

Lemma addRelationships_ok s from ids type :
  foreign_keys = false
  \/ (has_concept (concepts s) from = true
      /\ Forall (fun r => has_concept (concepts s) r = true) ids) ->
  exists s',
    addRelationships foreign_keys s from ids type = Js.Ok s'
    /\ concepts s' = concepts s
    /\ project_allowlists s' = project_allowlists s
    /\ (forall from' to', has_edge s from' to' type -> has_edge s' from' to' type)
    /\ (forall to, In to ids -> has_edge s' from to type).
Proof.
  revert s. induction ids as [|i ids IH]; intros s Hfk; simpl.
  - exists s. repeat split; auto. intros to [].
  - assert (Hfk1 : foreign_keys = false
                   \/ (has_concept (concepts s) from = true
                       /\ has_concept (concepts s) i = true)).
    { destruct Hfk as [H|[H1 H2]]; [now left | right].
      split; [exact H1 | now inversion H2]. }
    destruct (insert_relationship_ok s from i type Hfk1)
      as [s1 [H1 [Hc [Ha [Hnew Hold]]]]].
    rewrite H1. cbn [Js.bind].
    destruct (IH s1) as [s' [H' [Hc' [Ha' [Hkeep Hall]]]]].
    { destruct Hfk as [H|[Hf Hi]]; [now left | right]. rewrite Hc.
      split; [exact Hf | now inversion Hi]. }
    exists s'. split; [exact H'|]. split; [congruence|]. split; [congruence|].
    split.
    + intros from' to' He. apply Hkeep.
      exact (insert_relationship_keeps s s1 from i type from' to' Hfk1 H1 He).
    + intros to [<-|Hin]; [|now apply Hall].
      apply Hkeep. eexists. split; [exact Hnew | reflexivity].
Qed.

(** The loop of autoDiscoverRelated links the concept to every row it
    reads whose tags pass the test. *)
Lemma discover_ok c rows :
  forall s,
    foreign_keys = false
    \/ (has_concept (concepts s) (id c) = true
        /\ Forall (fun r => has_concept (concepts s) (row_id r) = true) rows) ->
    exists s',
      discover foreign_keys s c rows = Js.Ok s'
      /\ concepts s' = concepts s
      /\ project_allowlists s' = project_allowlists s
      /\ (forall from to, has_edge s from to "related" -> has_edge s' from to "related")
      /\ (forall other,
            In other rows -> related (tags c) (row_tags other) = true ->
            has_edge s' (id c) (row_id other) "related").
Proof.
  induction rows as [|other rows IH]; intros s Hfk; cbn [discover].
  - exists s. repeat split; auto. intros other [].
  - assert (Hrest : forall s1, concepts s1 = concepts s ->
              foreign_keys = false
              \/ (has_concept (concepts s1) (id c) = true
                  /\ Forall (fun r => has_concept (concepts s1) (row_id r) = true) rows)).
    { intros s1 E. destruct Hfk as [H|[Hf Hi]]; [now left | right]. rewrite E.
      split; [exact Hf | now inversion Hi]. }
    destruct (related (tags c) (row_tags other)) eqn:Hrel.
    + destruct (addRelationships_ok s (id c) [row_id other] "related")
        as [s1 [H1 [Hc [Ha [Hkeep Hall]]]]].
      { destruct Hfk as [H|[Hf Hi]]; [now left | right].
        split; [exact Hf|]. constructor; [now inversion Hi | constructor]. }
      rewrite H1. cbn [Js.bind].
      destruct (IH s1 (Hrest s1 Hc)) as [s' [H' [Hc' [Ha' [Hkeep' Hall']]]]].
      exists s'. split; [exact H'|]. split; [congruence|]. split; [congruence|].
      split; [intros; apply Hkeep', Hkeep; assumption|].
      intros o [<-|Hin] Ho; [|now apply Hall'].
      apply Hkeep', Hall. now left.
    + destruct (IH s (Hrest s eq_refl)) as [s' [H' [Hc' [Ha' [Hkeep' Hall']]]]].
      exists s'. repeat split; auto.
      intros o [<-|Hin] Ho; [congruence | now apply Hall'].
Qed.

Lemma others_known s id' :
  Forall (fun r => has_concept (concepts s) (row_id r) = true) (others s id').
Proof.
  apply Forall_forall. intros r Hr. unfold others in Hr.
  apply limit_In in Hr. apply filter_In in Hr. destruct Hr as [Hr _].
  unfold has_concept. apply existsb_exists. exists r. split; [exact Hr|].
  apply String.eqb_refl.
Qed.

(** A ratio above the threshold is a ratio of a positive overlap. *)
Lemma ratio_related conceptTags otherTags :
  3 # 10 < overlap_ratio conceptTags otherTags ->
  related conceptTags otherTags = true.
Proof.
  intros H. unfold related. apply andb_true_iff. split.
  - apply Nat.ltb_lt. destruct (overlap conceptTags otherTags) eqn:E; [|lia].
    exfalso. unfold overlap_ratio in H. rewrite E in H. simpl in H.
    unfold Qdiv in H. rewrite Qmult_0_l in H. discriminate.
  - unfold Sql.Qgtb. apply negb_true_iff.
    destruct (Qle_bool _ _) eqn:E; [|reflexivity].
    apply Qle_bool_iff in E. exfalso. exact (Qlt_not_le _ _ H E).
Qed.

(** What save does, step by step. *)
Lemma save_steps s now hash params :
  importance_ok params ->
  foreign_keys = false \/ related_known s params ->
  let c := mkConcept (generateConceptId (save_title params) hash)
             (save_title params) (save_body params)
             (Js.or_empty (save_tags params))
             (Js.or_default (save_importance params) 3) now now (Some 0%Z) None in
  let r := mkRow (id c) (title c) (body c) (tags c) (importance c) 0 None now now
             (match save_source params with Some src => src | None => manual end)
             1 in
  exists s',
    save foreign_keys s now hash params = Js.Ok (c, s')
    /\ concepts s'
       = filter (fun x => negb (row_id x =? id c)) (concepts s) ++ [r]
    /\ (forall other,
          In other (others s (id c)) ->
          related (tags c) (row_tags other) = true ->
          has_edge s' (id c) (row_id other) "related").
Proof.
  intros Himp Hfk c r. unfold save. cbv zeta.
  cbn [id title body tags importance created_at updated_at].
  change (mkRow _ _ _ _ _ 0 None now now _ 1) with r.
  change (mkConcept _ _ _ _ _ now now (Some 0%Z) None) with c.
  change (generateConceptId (save_title params) hash) with (id c).
  destruct (insert_or_replace_ok s r Himp) as [s1 [H1 Hc1]].
  rewrite H1. cbn [Js.bind].
  assert (Hid : has_concept (concepts s1) (id c) = true).
  { rewrite Hc1, has_concept_app. unfold has_concept at 2. simpl.
    rewrite String.eqb_refl. apply orb_true_r. }
  assert (Hrel : exists s2,
             match relatedTo params with
             | Some (x :: xs) => addRelationships foreign_keys s1 (id c) (x :: xs) "related"
             | _ => Js.Ok s1
             end = Js.Ok s2
             /\ concepts s2 = concepts s1).
  { destruct (relatedTo params) as [[|x xs]|] eqn:E;
      try (exists s1; split; reflexivity).
    destruct (addRelationships_ok s1 (id c) (x :: xs) "related")
      as [s2 [H2 [Hc2 _]]].
    - destruct Hfk as [H|H]; [now left | right]. split; [exact Hid|].
      unfold related_known in H. rewrite E in H. cbn [Js.or_empty] in H.
      revert H. apply Forall_impl. intros a Ha. rewrite Hc1.
      now apply replaced_has_concept.
    - exists s2. now split. }
  destruct Hrel as [s2 [H2 Hc2]]. rewrite H2. cbn [Js.bind].
  unfold autoDiscoverRelated.
  destruct (discover_ok c (others s2 (id c)) s2) as [s3 [H3 [Hc3 [_ [_ Hall]]]]].
  { destruct (foreign_keys); [right | now left].
    split; [now rewrite Hc2 | apply others_known]. }
  rewrite H3. cbn [Js.bind]. exists s3. split; [reflexivity|].
  split; [rewrite Hc3, Hc2, Hc1; reflexivity|].
  intros other Hin. apply Hall.
  unfold others at 1. rewrite Hc2, Hc1. change (id c) with (row_id r).
  rewrite others_replaced. exact Hin.
Qed.

(** C7, as the code has it.  After a save, whose relatedTo names stored
    concepts where foreign keys are enforced, the store holds a related
    edge from the saved concept to every concept among the first twenty
    other rows whose tag overlap with it, divided by the larger number
    of tags, is above 0.3. *)
Theorem save_links_related_concepts :
  forall s now hash params,
    importance_ok params ->
    foreign_keys = false \/ related_known s params ->
    exists c s',
      save foreign_keys s now hash params = Js.Ok (c, s')
      /\ id c = generateConceptId (save_title params) hash
      /\ tags c = Js.or_empty (save_tags params)
      /\ (forall other,
            In other (others s (id c)) ->
            3 # 10 < overlap_ratio (tags c) (row_tags other) ->
            has_edge s' (id c) (row_id other) "related").
Proof.
  intros s now hash params Himp Hfk.
  destruct (save_steps s now hash params Himp Hfk) as [s' [H [_ Hall]]].
  eexists. exists s'. split; [exact H|]. split; [reflexivity|].
  split; [reflexivity|].
  intros other Hin Hratio. apply Hall; [exact Hin|]. now apply ratio_related.
Qed.

(** C10.  A save whose id is the id of a stored concept replaces the row:
    the one row left under the id has usage_count 0 and no last_used,
    whatever the row replaced had counted. *)
Theorem save_resets_usage :
  forall s now hash params,
    importance_ok params ->
    foreign_keys = false \/ related_known s params ->
    has_concept (concepts s) (generateConceptId (save_title params) hash) = true ->
    exists c s' r,
      save foreign_keys s now hash params = Js.Ok (c, s')
      /\ id c = generateConceptId (save_title params) hash
      /\ find_row s' (id c) = Some r
      /\ row_usage_count r = 0%Z
      /\ row_last_used r = None
      /\ get s' (id c)
         = Some (mkConcept (id c) (save_title params) (save_body params)
                   (Js.or_empty (save_tags params))
                   (Js.or_default (save_importance params) 3) now now
                   (Some 0%Z) None)
      /\ List.length (filter (fun x => row_id x =? id c) (concepts s')) = 1%nat.
Proof.
  intros s now hash params Himp Hfk _.
  destruct (save_steps s now hash params Himp Hfk) as [s' [H [Hc _]]].
  cbv zeta in H, Hc. cbn [id title body tags importance] in Hc.
  eexists. exists s'. eexists. split; [exact H|]. cbn [id].
  split; [reflexivity|]. unfold find_row, get. rewrite Hc.
  match goal with
  | |- context [filter _ (concepts s) ++ [?row]] =>
      pose proof (find_row_replaced (concepts s) row) as F
  end.
  cbn [row_id] in F. rewrite F. split; [reflexivity|].
  split; [reflexivity|]. split; [reflexivity|]. split; [reflexivity|].
  rewrite filter_app. simpl. rewrite String.eqb_refl. rewrite length_app. simpl.
  now rewrite filter_out_none.
Qed.

End ConceptGraph.

(* ------------------------------------------------------------------ *)
(** ** Ranked results *)

Section Ranking.

Variable A : Type.
Variable before : A -> A -> bool.
Variable le : A -> A -> Prop.

Hypothesis before_le : forall x y, before x y = true -> le x y.
Hypothesis not_before_le : forall x y, before x y = false -> le y x.
Hypothesis le_trans : forall x y z, le x y -> le y z -> le x z.

Lemma insert_by_sorted (x : A) (l : list A) :
  StronglySorted le l -> StronglySorted le (Js.insert_by before x l).
Proof.
  induction 1 as [|y l Hl IH Hy]; simpl.
  - repeat constructor.
  - destruct (before y x) eqn:E.
    + constructor; [exact IH|]. apply Forall_forall. intros z Hz.
      apply insert_by_In in Hz. destruct Hz as [->|Hz].
      * now apply before_le.
      * rewrite Forall_forall in Hy. now apply Hy.
    + constructor; [now constructor|].
      constructor; [now apply not_before_le|].
      revert Hy. apply Forall_impl. intros z Hz.
      apply le_trans with y; [now apply not_before_le | exact Hz].
Qed.

Lemma sort_by_sorted (l : list A) : StronglySorted le (Js.sort_by before l).
Proof.
  induction l as [|x l IH]; simpl; [constructor | now apply insert_by_sorted].
Qed.

Lemma firstn_sorted (n : nat) (l : list A) :
  StronglySorted le l -> StronglySorted le (firstn n l).
Proof.
  intros H. revert n. induction H as [|y l Hl IH Hy]; intros [|n]; simpl;
    try constructor.
  - apply IH.
  - rewrite Forall_forall in *. intros z Hz. apply Hy.
    revert Hz. clear. revert n. induction l as [|a l IH]; intros [|n]; simpl;
      try tauto.
    intros [H|H]; [now left | right; now apply (IH n)].
Qed.

Lemma ranked_sorted (k : Z) (l : list A) :
  StronglySorted le (Sql.limit k (Sql.order_by before l)).
Proof.
  unfold Sql.limit, Sql.order_by. destruct (k <? 0)%Z.
  - apply sort_by_sorted.
  - apply firstn_sorted, sort_by_sorted.
Qed.

End Ranking.

Lemma or_default_not_zero (x : option Z) (d : Z) :
  d <> 0%Z -> Js.or_default x d <> 0%Z.
Proof.
  intros Hd. unfold Js.or_default. destruct x as [v|]; [|exact Hd].
  destruct (Z.eqb_spec v 0); [exact Hd | assumption].
Qed.

Lemma limit_length_any (A : Type) (k : Z) (l : list A) :
  List.length (Sql.limit k l) = ConceptStoreEnhanced.limited k (List.length l).
Proof.
  unfold Sql.limit, ConceptStoreEnhanced.limited.
  destruct (k <? 0)%Z; [reflexivity | apply length_firstn].
Qed.

Lemma limited_positive (k : Z) (n : nat) :
  k <> 0%Z -> (0 < n)%nat -> (0 < ConceptStoreEnhanced.limited k n)%nat.
Proof.
  intros Hk Hn. unfold ConceptStoreEnhanced.limited.
  destruct (Z.ltb_spec k 0); [exact Hn|]. lia.
Qed.

(* ------------------------------------------------------------------ *)
(** ** Searching concepts *)

Section ConceptSearch.

Variable enhanced_fts : list ConceptStoreEnhanced.Row -> string
  -> Js.result (ConceptStoreEnhanced.Row -> option (Q * string)).
Variable concept_fts : list ConceptStore.Concept -> string
  -> Js.result (ConceptStore.Concept -> option (Q * string)).

(** The wildcard search of ConceptStore without restriction returns the
    stored concepts, as many as the limit leaves. *)
Lemma wildcard_search s params :
  ConceptStore.normalizeSearchQuery (ConceptStore.q params) = "*" ->
  ConceptStore.unrestricted params ->
  exists found,
    ConceptStore.search concept_fts s params = Js.Ok found
    /\ List.length found
       = ConceptStoreEnhanced.limited (Js.or_default (ConceptStore.k params) 10)
           (List.length (ConceptStore.concepts s))
    /\ (forall r, In r found -> In (ConceptStore.concept r) (ConceptStore.concepts s)).
Proof.
  intros Hq [Hp Ha]. unfold ConceptStore.search. rewrite Hq.
  cbn [String.eqb Ascii.eqb orb Js.bind]. simpl (_ =? _)%string.
  cbn [orb Js.bind].
  eexists. split; [reflexivity|]. split.
  - rewrite length_map, limit_length_any, order_by_length. f_equal.
    rewrite forallb_filter_id; [apply length_map|].
    apply forallb_forall. intros cs _.
    unfold ConceptStore.search_filter.
    destruct Hp as [-> | ->]; destruct Ha as [-> | ->]; reflexivity.
  - intros r Hr. apply in_map_iff in Hr. destruct Hr as [cs [<- Hcs]].
    cbn [ConceptStore.concept]. apply limit_In in Hcs. apply order_by_In in Hcs.
    apply filter_In in Hcs. destruct Hcs as [Hcs _].
    apply in_map_iff in Hcs. destruct Hcs as [c [<- Hc]]. exact Hc.
Qed.

(** The handler re-runs a search that found nothing as the wildcard
    search, so that it finds a concept when one is stored. *)
Lemma concept_search_finds s args reply :
  Server.concept_search concept_fts s args = Js.Ok reply ->
  Server.no_allowlist args ->
  ConceptStore.concepts s <> [] ->
  Server.found reply <> [].
Proof.
  intros H Hno Hs. unfold Server.concept_search in H. cbv zeta in H.
  set (query := match Server.arg_q args with
                | Some (String c rest) => String c rest
                | _ => "*"
                end) in *.
  set (k := Some (Js.or_default (Server.arg_k args) 10)) in *.
  assert (Hwild : exists found,
             ConceptStore.search concept_fts s
               (ConceptStore.mkSearchParams "*" k (Server.arg_allowlist args) None)
             = Js.Ok found /\ found <> []).
  { destruct (wildcard_search s
                (ConceptStore.mkSearchParams "*" k (Server.arg_allowlist args) None))
      as [found [Hf [Hlen _]]]; [reflexivity | split; [now left | exact Hno] |].
    exists found. split; [exact Hf|]. intros ->.
    cbn [ConceptStore.k] in Hlen.
    assert (Hpos : (0 < List.length (ConceptStore.concepts s))%nat)
      by (destruct (ConceptStore.concepts s); [congruence | simpl; lia]).
    pose proof (limited_positive (Js.or_default k 10) _
                  (or_default_not_zero k 10 ltac:(discriminate)) Hpos) as Hlim.
    rewrite <- Hlen in Hlim. simpl in Hlim. lia. }
  destruct Hwild as [all [Hall Hne]].
  destruct (ConceptStore.search concept_fts s
              (ConceptStore.mkSearchParams
                 (if Js.trim query =? "" then "*" else Js.trim query)
                 k (Server.arg_allowlist args) None)) as [[|r first]|e] eqn:E1;
    cbn [Js.bind] in H; [| |discriminate].
  - destruct (query =? "*") eqn:Eq.
    + (* the first search was the wildcard search *)
      apply String.eqb_eq in Eq. rewrite Eq in E1.
      change (if Js.trim "*" =? "" then "*" else Js.trim "*") with "*" in E1.
      rewrite Hall in E1. congruence.
    + rewrite Hall in H. cbn [Js.bind] in H. injection H as <-.
      cbn [Server.found]. exact Hne.
  - cbn [Js.bind] in H. injection H as <-. cbn [Server.found]. discriminate.
Qed.

(** The search of ConceptStore fails exactly when it asks the full-text
    engine and the engine rejects the expression. *)
Lemma concept_store_search_cases s params :
  let expr := ConceptStore.normalizeSearchQuery (ConceptStore.q params) in
  if ((expr =? "*") || (Js.trim expr =? ""))%string
  then exists found, ConceptStore.search concept_fts s params = Js.Ok found
  else match concept_fts (ConceptStore.concepts s) expr with
       | Js.Ok _ =>
           exists found, ConceptStore.search concept_fts s params = Js.Ok found
       | Js.Err e => ConceptStore.search concept_fts s params = Js.Err e
       end.
Proof.
  unfold ConceptStore.search. cbv zeta.
  destruct ((_ =? "*") || (Js.trim _ =? ""))%string; cbn [Js.bind];
    [eexists; reflexivity|].
  destruct (concept_fts _ _); cbn [Js.bind]; [eexists; reflexivity | reflexivity].
Qed.

(** The handler answers with a reply when the first search returns, and
    with the error of the first search when that fails. *)
Lemma call_concept_search_follows s args :
  Server.no_allowlist args ->
  let query := match Server.arg_q args with
               | Some (String c rest) => String c rest
               | _ => "*"%string
               end in
  match ConceptStore.search concept_fts s
          (ConceptStore.mkSearchParams
             (if (Js.trim query =? "")%string then "*"%string else Js.trim query)
             (Some (Js.or_default (Server.arg_k args) 10))
             (Server.arg_allowlist args) None) with
  | Js.Ok _ =>
      exists reply,
        Server.concept_search concept_fts s args = Js.Ok reply
        /\ Server.query reply = query
  | Js.Err e => Server.concept_search concept_fts s args = Js.Err e
  end.
Proof.
  intros Hno query. unfold Server.concept_search. cbv zeta. fold query.
  destruct (ConceptStore.search concept_fts s _) as [[|r first]|e];
    cbn [Js.bind]; [| eexists; split; reflexivity | reflexivity].
  destruct (query =? "*")%string; cbn [Js.bind];
    [eexists; split; reflexivity|].
  destruct (wildcard_search s
              (ConceptStore.mkSearchParams "*"
                 (Some (Js.or_default (Server.arg_k args) 10))
                 (Server.arg_allowlist args) None))
    as [found [Hf _]]; [reflexivity | split; [now left | exact Hno] |].
  rewrite Hf. cbn [Js.bind]. eexists. split; reflexivity.
Qed.

(** C8, as the code has it.  The search of ConceptStoreEnhanced with an
    empty query or a star, without a project and without related
    concepts, does not fail: it returns the stored concepts, as many as
    the limit leaves, in the descending order of the score that importance,
    usage count and a recent use give, and so at least one when one is
    stored.  A query that matches nothing is not searched again by the
    store; the concept_search handler of the server searches it again
    with the star.  So, for a call that names no allowlist on a store
    that holds a concept: when the query is empty or a star, or the
    full-text engine accepts it, the handler answers with a reply that
    holds a concept; when the engine rejects the expression, which is
    the trimmed query with its quotes doubled and nothing else escaped,
    the handler answers with the text of that error and searches no
    further. *)
Theorem wildcard_search_ranks_all_and_handler_reruns :
  (forall s now now' params,
     ConceptStoreEnhanced.q params = "" \/ ConceptStoreEnhanced.q params = "*" ->
     ConceptStoreEnhanced.projectId params = None ->
     Js.truthy (ConceptStoreEnhanced.includeRelated params) = false ->
     exists ranked s',
       ConceptStoreEnhanced.search enhanced_fts s now now' params
       = Js.Ok (map (fun r =>
                       ConceptStoreEnhanced.mkResult
                         (ConceptStoreEnhanced.rowToConcept r)
                         (ConceptStoreEnhanced.or_one
                            (ConceptStoreEnhanced.smart_base
                               (now - 7 * 24 * 60 * 60 * 1000) r)) "")
                  ranked, s')
       /\ List.length ranked
          = ConceptStoreEnhanced.limited (ConceptStoreEnhanced.search_limit params)
              (List.length (ConceptStoreEnhanced.concepts s))
       /\ (forall r, In r ranked -> In r (ConceptStoreEnhanced.concepts s))
       /\ StronglySorted
            (fun a b =>
               ConceptStoreEnhanced.smart_base (now - 7 * 24 * 60 * 60 * 1000) b
               <= ConceptStoreEnhanced.smart_base (now - 7 * 24 * 60 * 60 * 1000) a)
            ranked
       /\ (ConceptStoreEnhanced.concepts s <> [] -> ranked <> []))
  /\ (forall s args,
        Server.no_allowlist args ->
        ConceptStore.concepts s <> [] ->
        let query := match Server.arg_q args with
                     | Some (String c rest) => String c rest
                     | _ => "*"%string
                     end in
        let expr :=
          ConceptStore.normalizeSearchQuery
            (if (Js.trim query =? "")%string then "*"%string else Js.trim query) in
        if ((expr =? "*") || (Js.trim expr =? ""))%string
        then exists reply,
               Server.call_concept_search concept_fts s args = Server.Content reply
               /\ Server.query reply = query
               /\ Server.found reply <> []
        else match concept_fts (ConceptStore.concepts s) expr with
             | Js.Ok _ =>
                 exists reply,
                   Server.call_concept_search concept_fts s args
                   = Server.Content reply
                   /\ Server.query reply = query
                   /\ Server.found reply <> []
             | Js.Err e =>
                 Server.call_concept_search concept_fts s args = Server.ErrorText e
             end).
Proof.
  split.
  2: { intros s args Hno Hs query expr.
       pose proof (call_concept_search_follows s args Hno) as Hcall.
       cbv zeta in Hcall. fold query in Hcall.
       pose proof (concept_store_search_cases s
                     (ConceptStore.mkSearchParams
                        (if (Js.trim query =? "")%string then "*"%string
                         else Js.trim query)
                        (Some (Js.or_default (Server.arg_k args) 10))
                        (Server.arg_allowlist args) None)) as Hfirst.
       cbv zeta in Hfirst. cbn [ConceptStore.q] in Hfirst. fold expr in Hfirst.
       assert (Hok : forall found,
                 ConceptStore.search concept_fts s
                   (ConceptStore.mkSearchParams
                      (if (Js.trim query =? "")%string then "*"%string
                       else Js.trim query)
                      (Some (Js.or_default (Server.arg_k args) 10))
                      (Server.arg_allowlist args) None) = Js.Ok found ->
                 exists reply,
                   Server.call_concept_search concept_fts s args
                   = Server.Content reply
                   /\ Server.query reply = query
                   /\ Server.found reply <> []).
       { intros found Hfound. rewrite Hfound in Hcall.
         destruct Hcall as [reply [Hreply Hquery]]. exists reply.
         unfold Server.call_concept_search. rewrite Hreply.
         split; [reflexivity|]. split; [exact Hquery|].
         exact (concept_search_finds s args reply Hreply Hno Hs). }
       destruct ((expr =? "*") || (Js.trim expr =? ""))%string.
       - destruct Hfirst as [found Hfound]. exact (Hok found Hfound).
       - destruct (concept_fts (ConceptStore.concepts s) expr) as [hit|e].
         + destruct Hfirst as [found Hfound]. exact (Hok found Hfound).
         + rewrite Hfirst in Hcall. unfold Server.call_concept_search.
           now rewrite Hcall. }
  intros s now now' params Hq Hp Hrel.
  unfold ConceptStoreEnhanced.search. cbv zeta. rewrite Hp, Hrel.
  assert (Hstar : (if ConceptStoreEnhanced.q params =? "" then "*"
                   else ConceptStoreEnhanced.q params) = "*")
    by (destruct Hq as [-> | ->]; reflexivity).
  rewrite Hstar, String.eqb_refl. cbn [Js.bind].
  set (since := (now - 7 * 24 * 60 * 60 * 1000)%Z).
  set (scored := map (fun r => (r, (ConceptStoreEnhanced.smart_base since r, "")))
                   (ConceptStoreEnhanced.concepts s)).
  set (before := fun a b : ConceptStoreEnhanced.Row * (Q * string) =>
                   Sql.Qgtb (fst (snd a)) (fst (snd b))).
  set (rows := Sql.limit (Js.or_default (ConceptStoreEnhanced.k params) 10)
                 (Sql.order_by before scored)).
  assert (Hrows : forall rs, In rs rows ->
            In (fst rs) (ConceptStoreEnhanced.concepts s)
            /\ snd rs = (ConceptStoreEnhanced.smart_base since (fst rs), "")).
  { intros rs Hrs. apply limit_In in Hrs. apply order_by_In in Hrs.
    apply in_map_iff in Hrs. destruct Hrs as [r [<- Hr]]. now split. }
  assert (Hmap : map (fun rs : ConceptStoreEnhanced.Row * (Q * string) =>
                        ConceptStoreEnhanced.mkResult
                          (ConceptStoreEnhanced.rowToConcept (fst rs))
                          (ConceptStoreEnhanced.or_one (fst (snd rs))) (snd (snd rs)))
                    rows
                = map (fun r =>
                         ConceptStoreEnhanced.mkResult
                           (ConceptStoreEnhanced.rowToConcept r)
                           (ConceptStoreEnhanced.or_one
                              (ConceptStoreEnhanced.smart_base since r)) "")
                    (map fst rows)).
  { rewrite map_map. apply map_ext_in. intros rs Hrs.
    destruct (Hrows rs Hrs) as [_ E]. now rewrite E. }
  rewrite Hmap. exists (map fst rows).
  assert (Hlen : List.length (map fst rows)
                 = ConceptStoreEnhanced.limited
                     (ConceptStoreEnhanced.search_limit params)
                     (List.length (ConceptStoreEnhanced.concepts s))).
  { rewrite length_map. unfold rows. rewrite limit_length_any, order_by_length.
    unfold scored. now rewrite length_map. }
  set (found := map _ (map fst rows)).
  exists (match found with
          | [] => s
          | first :: _ =>
              ConceptStoreEnhanced.trackUsage s now'
                (ConceptStoreEnhanced.id (ConceptStoreEnhanced.concept first))
          end).
  split.
  - destruct found; reflexivity.
  - split; [exact Hlen|]. split.
    + intros r Hr. apply in_map_iff in Hr. destruct Hr as [rs [<- Hrs]].
      now apply Hrows.
    + split.
      * assert (Hs : StronglySorted
                       (fun a b : ConceptStoreEnhanced.Row * (Q * string) =>
                          fst (snd b) <= fst (snd a)) rows).
        { apply ranked_sorted.
          - intros x y H. apply Qgtb_true in H. now apply Qlt_le_weak.
          - intros x y H. now apply Qgtb_false in H.
          - intros x y z H1 H2. now apply Qle_trans with (fst (snd y)). }
        clearbody rows. clear -Hs Hrows.
        induction rows as [|rs rows IH]; simpl; [constructor|].
        apply StronglySorted_inv in Hs. destruct Hs as [Hs' Hall].
        constructor.
        -- apply IH; [intros; apply Hrows; now right | exact Hs'].
        -- apply Forall_map. rewrite Forall_forall in *. intros z Hz.
           specialize (Hall z Hz).
           destruct (Hrows rs (or_introl eq_refl)) as [_ E1].
           destruct (Hrows z (or_intror Hz)) as [_ E2].
           rewrite E1, E2 in Hall. exact Hall.
      * intros Hne E.
        assert (0 < List.length (ConceptStoreEnhanced.concepts s))%nat
          by (destruct (ConceptStoreEnhanced.concepts s); [congruence | simpl; lia]).
        pose proof (limited_positive (ConceptStoreEnhanced.search_limit params) _
                      (or_default_not_zero _ 10 ltac:(discriminate)) H).
        rewrite E in Hlen. simpl in Hlen. lia.
Qed.

End ConceptSearch.

(* ------------------------------------------------------------------ *)
(** ** The properties at the sample data *)

Lemma sample_table_ok : MemoryDatabase.table_ok Examples.table.
Proof.
  split.
  - repeat constructor; simpl; intuition discriminate.
  - repeat constructor.
Qed.

(** The preview of the task auth under a budget of 200 bytes. *)
Lemma preview_respects_budget_witness :
  (ContextBroker.total_bytes (ContextBroker.injections Examples.preview_result)
   <= 200)%Z
  /\ (Z.of_nat (List.length (ContextBroker.injections Examples.preview_result))
      <= 10)%Z
  /\ ContextBroker.budgetUsed Examples.preview_result
     = ContextBroker.total_bytes (ContextBroker.injections Examples.preview_result)
  /\ ContextBroker.budgetLimit Examples.preview_result = 200%Z
  /\ ContextBroker.topK Examples.preview_result = 10%Z.
Proof.
  apply (preview_respects_budget Examples.project Examples.word_fts
           Examples.no_like Examples.word_concept_fts Examples.table
           Examples.no_concepts Examples.clock Examples.clock 3000
           Examples.preview_call Examples.preview_result).
  - vm_compute. discriminate.
  - vm_compute. discriminate.
  - vm_compute. reflexivity.
Defined.

(** C5, at four candidates under a budget of 50 bytes: after the first
    candidate of 30 bytes the third, of 100 bytes, does not fit, and the
    fourth, of 10 bytes and with a summary of its own, is not selected
    although it fits. *)
Lemma later_candidate_that_fits_is_dropped :
  ContextBroker.selectByBudget
    [Examples.first_candidate; Examples.large_candidate; Examples.small_candidate]
    50 10
  = [Examples.first_candidate]
  /\ (ContextBroker.byteSize Examples.first_candidate
      + ContextBroker.byteSize Examples.small_candidate <= 50)%Z
  /\ Js.mem
       (ContextBroker.normalizeForDedupe
          (ContextBroker.summary Examples.small_candidate))
       [ContextBroker.normalizeForDedupe
          (ContextBroker.summary Examples.first_candidate)]
     = false.
Proof.
  split; [vm_compute; reflexivity|]. split; [vm_compute; discriminate|].
  vm_compute. reflexivity.
Qed.

Lemma selectByBudget_skips_duplicates_and_stops_at_overflow_witness :
  ContextBroker.selectByBudget
    ([Examples.first_candidate]
     ++ Examples.repeated_candidate
     :: [Examples.large_candidate; Examples.small_candidate]) 50 10
  = ContextBroker.selectByBudget
      ([Examples.first_candidate]
       ++ [Examples.large_candidate; Examples.small_candidate]) 50 10
  /\ ContextBroker.selectByBudget
       ([Examples.first_candidate]
        ++ Examples.large_candidate :: [Examples.small_candidate]) 50 10
     = [Examples.first_candidate].
Proof.
  split.
  - apply (proj1 (selectByBudget_skips_duplicates_and_stops_at_overflow 50 10
                    [Examples.first_candidate] Examples.repeated_candidate
                    [Examples.large_candidate; Examples.small_candidate]
                    Examples.after_first eq_refl eq_refl)).
    + vm_compute. discriminate.
    + vm_compute. reflexivity.
  - apply (proj2 (selectByBudget_skips_duplicates_and_stops_at_overflow 50 10
                    [Examples.first_candidate] Examples.large_candidate
                    [Examples.small_candidate] Examples.after_first
                    eq_refl eq_refl)).
    vm_compute. reflexivity.
Defined.

(** C7, at a store of twenty-one concepts with the tag cache and a save
    of one more: the overlap ratio with each of them is 1, the edge to
    the first is stored with strength one half, and the twenty-first,
    which the scan does not read, gets no edge. *)
Lemma save_scans_twenty_and_stores_one_half :
  exists c s',
    ConceptStoreEnhanced.save true Examples.cache_store 5000 "abc123"
      Examples.cache_call = Js.Ok (c, s')
    /\ In (Examples.cache_row "c21")
         (ConceptStoreEnhanced.concepts Examples.cache_store)
    /\ ConceptStoreEnhanced.overlap_ratio (ConceptStoreEnhanced.tags c)
         (ConceptStoreEnhanced.row_tags (Examples.cache_row "c21")) == 1
    /\ ConceptStoreEnhanced.find_edge s' (ConceptStoreEnhanced.id c) "c21" = None
    /\ option_map ConceptStoreEnhanced.strength
         (ConceptStoreEnhanced.find_edge s' (ConceptStoreEnhanced.id c) "c01")
       = Some (1 # 2).
Proof.
  eexists. eexists. split; [vm_compute; reflexivity|].
  split; [simpl; tauto|]. split; [vm_compute; reflexivity|].
  split; vm_compute; reflexivity.
Qed.

Lemma save_links_related_concepts_witness :
  exists c s',
    ConceptStoreEnhanced.save true Examples.cache_store 5000 "abc123"
      Examples.cache_call = Js.Ok (c, s')
    /\ ConceptStoreEnhanced.id c
       = ConceptStoreEnhanced.generateConceptId
           (ConceptStoreEnhanced.save_title Examples.cache_call) "abc123"
    /\ ConceptStoreEnhanced.tags c
       = Js.or_empty (ConceptStoreEnhanced.save_tags Examples.cache_call)
    /\ (forall other,
          In other (ConceptStoreEnhanced.others Examples.cache_store
                      (ConceptStoreEnhanced.id c)) ->
          3 # 10 < ConceptStoreEnhanced.overlap_ratio (ConceptStoreEnhanced.tags c)
                     (ConceptStoreEnhanced.row_tags other) ->
          ConceptStoreEnhanced.has_edge s' (ConceptStoreEnhanced.id c)
            (ConceptStoreEnhanced.row_id other) "related").
Proof.
  apply (save_links_related_concepts true Examples.cache_store 5000 "abc123"
           Examples.cache_call).
  - vm_compute. reflexivity.
  - right. constructor.
Defined.

(** C10, at a store whose concept c-01 was used four times: the save
    gives the same id, and the row it leaves has counted nothing. *)
Lemma save_resets_usage_witness :
  exists c s' r,
    ConceptStoreEnhanced.save true Examples.resave_store 5000 "01"
      Examples.resave_call = Js.Ok (c, s')
    /\ ConceptStoreEnhanced.id c
       = ConceptStoreEnhanced.generateConceptId
           (ConceptStoreEnhanced.save_title Examples.resave_call) "01"
    /\ ConceptStoreEnhanced.find_row s' (ConceptStoreEnhanced.id c) = Some r
    /\ ConceptStoreEnhanced.row_usage_count r = 0%Z
    /\ ConceptStoreEnhanced.row_last_used r = None
    /\ ConceptStoreEnhanced.get s' (ConceptStoreEnhanced.id c)
       = Some (ConceptStoreEnhanced.mkConcept (ConceptStoreEnhanced.id c)
                 (ConceptStoreEnhanced.save_title Examples.resave_call)
                 (ConceptStoreEnhanced.save_body Examples.resave_call)
                 (Js.or_empty (ConceptStoreEnhanced.save_tags Examples.resave_call))
                 (Js.or_default
                    (ConceptStoreEnhanced.save_importance Examples.resave_call) 3)
                 5000 5000 (Some 0%Z) None)
    /\ List.length
         (filter (fun x => ConceptStoreEnhanced.row_id x =? ConceptStoreEnhanced.id c)
            (ConceptStoreEnhanced.concepts s')) = 1%nat.
Proof.
  apply (save_resets_usage true Examples.resave_store 5000 "01"
           Examples.resave_call).
  - vm_compute. reflexivity.
  - right. constructor.
  - vm_compute. reflexivity.
Defined.

(** C8, at a store with concepts and a query that matches none of them:
    the search of either store returns nothing and does not search
    again. *)
Lemma store_search_does_not_rerun :
  ConceptStoreEnhanced.concepts Examples.cache_store <> []
  /\ ConceptStoreEnhanced.search Examples.word_enhanced_fts Examples.cache_store
       5000 5001 Examples.unmatched
     = Js.Ok ([], Examples.cache_store)
  /\ ConceptStore.concepts Examples.server_store <> []
  /\ ConceptStore.search Examples.word_concept_fts Examples.server_store
       (ConceptStore.mkSearchParams "zzz" None None None)
     = Js.Ok [].
Proof.
  split; [discriminate|]. split; [vm_compute; reflexivity|].
  split; [discriminate|]. vm_compute. reflexivity.
Qed.

(** C8, at a store of two concepts searched with the star, at the query
    zzz, which matches no concept of the store of the server, and at the
    query jwt-auth under an engine that rejects the hyphen. *)
Lemma wildcard_search_ranks_all_and_handler_reruns_witness :
  (exists ranked s',
     ConceptStoreEnhanced.search Examples.word_enhanced_fts Examples.resave_store
       5000 5001 Examples.wildcard
     = Js.Ok (map (fun r =>
                     ConceptStoreEnhanced.mkResult
                       (ConceptStoreEnhanced.rowToConcept r)
                       (ConceptStoreEnhanced.or_one
                          (ConceptStoreEnhanced.smart_base
                             (5000 - 7 * 24 * 60 * 60 * 1000) r)) "")
                ranked, s')
     /\ List.length ranked = 2%nat)
  /\ (exists reply,
        Server.call_concept_search Examples.strict_concept_fts
          Examples.server_store Examples.unmatched_args = Server.Content reply
        /\ Server.query reply = "zzz"%string
        /\ Server.found reply <> [])
  /\ Server.call_concept_search Examples.strict_concept_fts
       Examples.server_store Examples.hyphen_args
     = Server.ErrorText Js.SQLITE_ERROR.
Proof.
  pose proof (wildcard_search_ranks_all_and_handler_reruns
                Examples.word_enhanced_fts Examples.strict_concept_fts)
    as [HA HB].
  split; [|split].
  - destruct (HA Examples.resave_store 5000%Z 5001%Z Examples.wildcard)
      as [ranked [s' [H [Hlen _]]]].
    + left. reflexivity.
    + reflexivity.
    + reflexivity.
    + exists ranked, s'. split; [exact H|]. rewrite Hlen. reflexivity.
  - exact (HB Examples.server_store Examples.unmatched_args
             (or_introl eq_refl) ltac:(discriminate)).
  - exact (HB Examples.server_store Examples.hyphen_args
             (or_introl eq_refl) ltac:(discriminate)).
Defined.

(* ================================================================== *)
(** * Further properties of the storage engine *)

Section StringFacts.

Import Js.

Lemma exists_char_map (p : ascii -> bool) (f : ascii -> ascii) (s : string) :
  exists_char p (map_chars f s) = exists_char (fun c => p (f c)) s.
Proof. induction s as [|c s IH]; simpl; [reflexivity | now rewrite IH]. Qed.

Lemma exists_char_false (p : ascii -> bool) (s : string) :
  (forall c, p c = false) -> exists_char p s = false.
Proof.
  intros H. induction s as [|c s IH]; simpl; [reflexivity | now rewrite H, IH].
Qed.

Lemma exists_char_weaken (p q : ascii -> bool) (s : string) :
  (forall c, p c = true -> q c = true) ->
  exists_char p s = true -> exists_char q s = true.
Proof.
  intros H. induction s as [|c s IH]; simpl; [discriminate|].
  intros E. apply orb_true_iff in E. apply orb_true_iff.
  destruct E as [E|E]; [left; now apply H | right; now apply IH].
Qed.

Lemma exists_char_trimStart (p : ascii -> bool) (s : string) :
  exists_char p (trimStart s) = true -> exists_char p s = true.
Proof.
  induction s as [|c s IH]; simpl; [discriminate|].
  destruct (is_space c); [|exact (fun H => H)].
  intros H. rewrite (IH H). apply orb_true_r.
Qed.

Lemma exists_char_trimEnd (p : ascii -> bool) (s : string) :
  exists_char p (trimEnd s) = true -> exists_char p s = true.
Proof.
  induction s as [|c s IH]; simpl; [discriminate|].
  destruct (is_space c && (trimEnd s =? ""))%bool; simpl; [discriminate|].
  intros H. apply orb_true_iff in H. apply orb_true_iff.
  destruct H as [H|H]; [now left | right; now apply IH].
Qed.

Lemma exists_char_trim (p : ascii -> bool) (s : string) :
  exists_char p (trim s) = true -> exists_char p s = true.
Proof.
  intros H. now apply exists_char_trimStart, exists_char_trimEnd.
Qed.

(** After the white space is collapsed, the only white space left is
    the space. *)
Lemma exists_char_collapse (p : ascii -> bool) (b : bool) (s : string) :
  exists_char p (collapse_from b s) = true ->
  p " "%char = true \/ exists_char (fun c => p c && negb (is_space c)) s = true.
Proof.
  revert b. induction s as [|c s IH]; intros b; simpl; [discriminate|].
  destruct (is_space c) eqn:Ec.
  - destruct b; simpl.
    + intros H. destruct (IH _ H) as [H'|H']; [now left | right].
      rewrite H'. apply orb_true_r.
    + intros H. apply orb_true_iff in H. destruct H as [H|H]; [now left|].
      destruct (IH _ H) as [H'|H']; [now left | right].
      rewrite H'. apply orb_true_r.
  - simpl. intros H. apply orb_true_iff in H. destruct H as [H|H].
    + right. now rewrite H.
    + destruct (IH _ H) as [H'|H']; [now left | right].
      rewrite H'. apply orb_true_r.
Qed.

Lemma space_is_space : is_space " "%char = true.
Proof. reflexivity. Qed.

Lemma space_not_special : is_special " "%char = false.
Proof. reflexivity. Qed.

(** What blank_specials, collapse_spaces and trim leave of any string is
    plain. *)
Lemma cleaned_plain (s : string) :
  MemoryDatabase.plain (trim (collapse_spaces (blank_specials s))) = true.
Proof.
  unfold MemoryDatabase.plain. apply negb_true_iff.
  destruct (exists_char _ (trim _)) eqn:E; [|reflexivity]. exfalso.
  apply exists_char_trim in E. unfold collapse_spaces in E.
  apply exists_char_collapse in E. destruct E as [E|E]; [discriminate|].
  unfold blank_specials in E. rewrite exists_char_map in E.
  rewrite exists_char_false in E; [discriminate|].
  intros c. unfold is_special.
  destruct (is_word c) eqn:Ew; simpl.
  - rewrite Ew. reflexivity.
  - destruct (is_space c) eqn:Es; simpl.
    + rewrite Ew, Es. simpl. now rewrite andb_false_r.
    + reflexivity.
Qed.

Lemma code_eq (c : ascii) (n : nat) :
  (code c =? n)%nat = true -> c = ascii_of_nat n.
Proof.
  intros H. apply Nat.eqb_eq in H. rewrite <- H. unfold code.
  symmetry. apply ascii_nat_embedding.
Qed.

Lemma collapse_single_spaced (b : bool) (s : string) :
  single_spaced b (collapse_from b s) = true.
Proof.
  revert b. induction s as [|c s IH]; intros b; simpl; [reflexivity|].
  destruct (is_space c) eqn:Ec.
  - destruct b; [apply IH|]. simpl. apply IH.
  - simpl. rewrite Ec. apply IH.
Qed.

Lemma single_spaced_collapse (b : bool) (s : string) :
  single_spaced b s = true -> collapse_from b s = s.
Proof.
  revert b. induction s as [|c s IH]; intros b; simpl; [reflexivity|].
  destruct (is_space c).
  - intros H. apply andb_true_iff in H. destruct H as [H Hs].
    apply andb_true_iff in H. destruct H as [Hb Hc].
    apply negb_true_iff in Hb. subst b.
    rewrite (code_eq _ _ Hc). now rewrite (IH true Hs).
  - intros H. now rewrite (IH false H).
Qed.

Lemma single_spaced_trimStart (b : bool) (s : string) :
  single_spaced b s = true -> single_spaced false (trimStart s) = true.
Proof.
  revert b. induction s as [|c s IH]; intros b; simpl; [reflexivity|].
  destruct (is_space c) eqn:Ec.
  - intros H. apply andb_true_iff in H. destruct H as [_ Hs]. now apply (IH true).
  - intros H. simpl. now rewrite Ec.
Qed.

Lemma single_spaced_trimEnd (b : bool) (s : string) :
  single_spaced b s = true -> single_spaced b (trimEnd s) = true.
Proof.
  revert b. induction s as [|c s IH]; intros b; simpl; [reflexivity|].
  destruct (is_space c) eqn:Ec; simpl.
  - intros H. apply andb_true_iff in H. destruct H as [H Hs].
    destruct (trimEnd s =? "")%string; [reflexivity|]. simpl. rewrite Ec.
    rewrite H. now apply IH.
  - intros H. rewrite Ec. now apply IH.
Qed.

Lemma trimStart_no_space (s : string) : starts_with_space (trimStart s) = false.
Proof.
  induction s as [|c s IH]; simpl; [reflexivity|].
  destruct (is_space c) eqn:Ec; [exact IH | simpl; exact Ec].
Qed.

Lemma trimEnd_no_space (s : string) :
  starts_with_space s = false -> starts_with_space (trimEnd s) = false.
Proof.
  destruct s as [|c s]; simpl; [reflexivity|].
  intros Ec. rewrite Ec. simpl. exact Ec.
Qed.

Lemma trimStart_fixed (s : string) :
  starts_with_space s = false -> trimStart s = s.
Proof. destruct s as [|c s]; simpl; [reflexivity|]. now intros ->. Qed.

Lemma trimEnd_idempotent (s : string) : trimEnd (trimEnd s) = trimEnd s.
Proof.
  induction s as [|c s IH]; simpl; [reflexivity|].
  destruct (is_space c && (trimEnd s =? ""))%bool eqn:E; [reflexivity|].
  simpl. now rewrite IH, E.
Qed.

Lemma trim_idempotent (s : string) : trim (trim s) = trim s.
Proof.
  unfold trim.
  rewrite (trimStart_fixed (trimEnd (trimStart s))).
  - apply trimEnd_idempotent.
  - apply trimEnd_no_space, trimStart_no_space.
Qed.

Lemma plain_cons (c : ascii) (s : string) :
  MemoryDatabase.plain (String c s)
  = (is_word c || (code c =? 32)%nat) && MemoryDatabase.plain s.
Proof.
  unfold MemoryDatabase.plain. simpl. rewrite negb_orb, negb_involutive.
  reflexivity.
Qed.

Lemma plain_blank (s : string) :
  MemoryDatabase.plain s = true -> blank_specials s = s.
Proof.
  induction s as [|c s IH]; [reflexivity|].
  rewrite plain_cons. intros H. apply andb_true_iff in H. destruct H as [Hc Hs].
  unfold blank_specials in *. simpl. rewrite (IH Hs). f_equal.
  unfold is_special. apply orb_true_iff in Hc. destruct Hc as [Hc|Hc].
  - now rewrite Hc.
  - rewrite (code_eq _ _ Hc). reflexivity.
Qed.

(** Doubling the quotes changes nothing once the special characters are
    blanked and the white space is collapsed. *)
Lemma collapse_blank_quotes (b : bool) (s : string) :
  collapse_from b (blank_specials (double_quotes s))
  = collapse_from b (blank_specials s).
Proof.
  unfold blank_specials. revert b.
  induction s as [|c s IH]; intros b; simpl; [reflexivity|].
  destruct (code c =? 34)%nat eqn:Ec.
  - rewrite (code_eq _ _ Ec). simpl.
    destruct b; simpl; now rewrite IH.
  - simpl. destruct (is_special c); simpl.
    + destruct b; now rewrite IH.
    + destruct (is_space c); [destruct b|]; now rewrite IH.
Qed.

(** The query of fallback 1 is one that the cleaning leaves as it is. *)
Lemma fallbackQuery_idempotent (query : string) :
  MemoryDatabase.fallbackQuery (MemoryDatabase.fallbackQuery query)
  = MemoryDatabase.fallbackQuery query.
Proof.
  unfold MemoryDatabase.fallbackQuery at 1.
  rewrite plain_blank by apply cleaned_plain.
  unfold collapse_spaces at 1. rewrite single_spaced_collapse.
  - unfold MemoryDatabase.fallbackQuery. apply trim_idempotent.
  - unfold MemoryDatabase.fallbackQuery, trim.
    apply single_spaced_trimEnd.
    apply (single_spaced_trimStart false). apply collapse_single_spaced.
Qed.

Lemma has_special_not_plain (s : string) :
  MemoryDatabase.has_special s = true -> MemoryDatabase.plain s = false.
Proof.
  unfold MemoryDatabase.has_special, MemoryDatabase.plain. intros H.
  apply negb_false_iff. revert H. apply exists_char_weaken.
  intros c. unfold is_special. intros Hc. apply negb_true_iff in Hc.
  apply orb_false_iff in Hc. destruct Hc as [Hw Hs]. rewrite Hw. simpl.
  destruct (code c =? 32)%nat eqn:E; [|reflexivity].
  rewrite (code_eq _ _ E) in Hs. discriminate.
Qed.

End StringFacts.

Section QueryEscaping.

Import MemoryDatabase.

(** X1. escapeQuery passes no operator of FTS5 on.  Whatever the query,
    the expression it builds is the cleaned query or the cleaned query
    between two double quotes, and the cleaned query holds letters,
    digits, underscores and single spaces only, without a space at
    either end. *)
Theorem escapeQuery_is_plain :
  forall query,
    let cleaned :=
      Js.trim (Js.collapse_spaces (Js.blank_specials (Js.double_quotes query))) in
    (escapeQuery query = cleaned \/ escapeQuery query = quoted cleaned)
    /\ plain cleaned = true
    /\ Js.single_spaced true cleaned = true
    /\ Js.trim cleaned = cleaned.
Proof.
  intros query cleaned. split; [|split; [|split]].
  - unfold escapeQuery. fold cleaned.
    destruct (negb (cleaned =? query) || Js.includes cleaned " ")%bool;
      [right | left]; reflexivity.
  - apply cleaned_plain.
  - unfold cleaned, Js.trim, Js.collapse_spaces.
    assert (H : Js.single_spaced false
                  (Js.trimStart
                     (Js.collapse_from false
                        (Js.blank_specials (Js.double_quotes query)))) = true)
      by (apply (single_spaced_trimStart false), collapse_single_spaced).
    apply single_spaced_trimEnd.
    pose proof (trimStart_no_space
                  (Js.collapse_from false
                     (Js.blank_specials (Js.double_quotes query)))) as Hs.
    destruct (Js.trimStart _) as [|c t]; [reflexivity|].
    simpl in Hs, H |- *. rewrite Hs in *. exact H.
  - apply trim_idempotent.
Qed.

(** X2. fallback 1 of the cascade sends the expression of the primary
    search again unless the cleaned query is a single word.  For a query
    with a special character, the primary search matches the cleaned
    query between quotes; fallback 1 searches the cleaned query, which
    escapeQuery leaves as it is and puts between quotes again when it
    holds a space. *)
Theorem fallback_one_repeats_the_primary_expression :
  forall query,
    has_special query = true ->
    escapeQuery query = quoted (fallbackQuery query)
    /\ escapeQuery (fallbackQuery query)
       = (if Js.includes (fallbackQuery query) " "
          then quoted (fallbackQuery query)
          else fallbackQuery query).
Proof.
  intros query Hs.
  assert (Hclean : Js.trim (Js.collapse_spaces
                              (Js.blank_specials (Js.double_quotes query)))
                   = fallbackQuery query).
  { unfold fallbackQuery, Js.collapse_spaces. now rewrite collapse_blank_quotes. }
  assert (Hne : (fallbackQuery query =? query)%string = false).
  { apply String.eqb_neq. intros E.
    pose proof (cleaned_plain query) as Hp. fold (fallbackQuery query) in Hp.
    rewrite E in Hp. rewrite (has_special_not_plain _ Hs) in Hp. discriminate. }
  split.
  - unfold escapeQuery. rewrite Hclean, Hne. reflexivity.
  - unfold escapeQuery.
    assert (Hclean2 : Js.trim (Js.collapse_spaces
                                 (Js.blank_specials
                                    (Js.double_quotes (fallbackQuery query))))
                      = fallbackQuery query).
    { unfold Js.collapse_spaces. rewrite collapse_blank_quotes.
      apply fallbackQuery_idempotent. }
    rewrite Hclean2, String.eqb_refl. simpl.
    destruct (Js.includes (fallbackQuery query) " "); reflexivity.
Qed.

End QueryEscaping.

Section Records.

Import MemoryDatabase.

Variable like : string -> string -> bool.
Variable projectId : string.

Lemma find_filter (A : Type) (p q : A -> bool) (l : list A) :
  find p (filter q l) = find (fun x => p x && q x) l.
Proof.
  induction l as [|x l IH]; simpl; [reflexivity|].
  destruct (q x) eqn:Eq; simpl.
  - rewrite andb_true_r. destruct (p x); [reflexivity | exact IH].
  - rewrite andb_false_r. exact IH.
Qed.

Lemma find_ext_in (A : Type) (p q : A -> bool) (l : list A) :
  (forall x, In x l -> p x = q x) -> find p l = find q l.
Proof.
  induction l as [|x l IH]; simpl; [reflexivity|]. intros H.
  rewrite (H x (or_introl eq_refl)).
  destruct (q x); [reflexivity|]. apply IH. intros y Hy. apply H. now right.
Qed.

Lemma find_all_false (A : Type) (p : A -> bool) (l : list A) :
  (forall x, In x l -> p x = false) -> find p l = None.
Proof.
  induction l as [|x l IH]; simpl; [reflexivity|]. intros H.
  rewrite (H x (or_introl eq_refl)). apply IH. intros y Hy. apply H. now right.
Qed.

Lemma filter_shorter (A : Type) (p : A -> bool) (l : list A) (x : A) :
  In x l -> p x = false ->
  (List.length (filter p l) < List.length l)%nat.
Proof.
  induction l as [|y l IH]; simpl; [tauto|].
  intros [->|Hin] Hx.
  - rewrite Hx. pose proof (filter_length_le p l). lia.
  - specialize (IH Hin Hx). destruct (p y); simpl; lia.
Qed.

(** X3. forget removes the record with the id in the project of the engine
    and nothing else.  An id that get does not find is reported as not
    found and the table stays as it is.  An id that get finds is
    deleted: forget reports ok, get does not find the id afterwards, a
    second forget reports not found, every other id reads as before, and
    the rows of other projects stay. *)
Theorem forget_removes_that_record_only :
  forall rows id',
    match get projectId rows id' with
    | None =>
        forget projectId rows id'
        = (mkForgetResult false
             ("Memory " ++ id' ++ " not found in project " ++ projectId)%string,
           rows)
    | Some _ =>
        ok (fst (forget projectId rows id')) = true
        /\ get projectId (snd (forget projectId rows id')) id' = None
        /\ ok (fst (forget projectId (snd (forget projectId rows id')) id')) = false
        /\ (forall other,
              other <> id' ->
              get projectId (snd (forget projectId rows id')) other
              = get projectId rows other)
        /\ (forall r,
              In r rows -> project_id (rowToMemory r) <> projectId ->
              In r (snd (forget projectId rows id')))
    end.
Proof.
  intros rows id'. unfold get, forget.
  change (fun r : Row => (id (rowToMemory r) =? id')%string
                         && (project_id (rowToMemory r) =? projectId)%string)
    with (forget_where projectId id').
  destruct (find (forget_where projectId id') rows) as [r0|] eqn:Hfind;
    cbn [option_map]; [|reflexivity].
  cbn [fst snd ok].
  set (rows' := filter (fun r => negb (forget_where projectId id' r)) rows).
  assert (Hgone : find (forget_where projectId id') rows' = None).
  { unfold rows'. rewrite find_filter. apply find_all_false.
    intros x _. apply andb_negb_r. }
  split; [|split; [|split; [|split]]].
  - apply Nat.ltb_lt. apply find_some in Hfind. destruct Hfind as [Hin Hw].
    assert (List.length rows' < List.length rows)%nat
      by (apply (filter_shorter _ _ _ r0 Hin); now rewrite Hw).
    lia.
  - now rewrite Hgone.
  - now rewrite Hgone.
  - intros other Hne. f_equal. unfold rows'. rewrite find_filter.
    apply find_ext_in. intros x _.
    destruct (String.eqb_spec (id (rowToMemory x)) other) as [E|E]; simpl;
      [|reflexivity].
    unfold forget_where.
    destruct (String.eqb_spec (id (rowToMemory x)) id'); [congruence|].
    simpl. now rewrite andb_true_r.
  - intros r Hin Hp. unfold rows'. apply filter_In. split; [exact Hin|].
    unfold forget_where. apply negb_true_iff, andb_false_iff. right.
    now apply String.eqb_neq.
Qed.

Lemma filter_filter_implied (A : Type) (p q : A -> bool) (l : list A) :
  (forall x, p x = true -> q x = true) ->
  filter p (filter q l) = filter p l.
Proof.
  intros H. induction l as [|x l IH]; simpl; [reflexivity|].
  destruct (q x) eqn:Eq; simpl.
  - now rewrite IH.
  - destruct (p x) eqn:Ep; [|exact IH]. rewrite (H x Ep) in Eq. discriminate.
Qed.

Lemma not_expired_survives (now : Z) (m : Memory) :
  not_expired now m = true -> Sql.lt_null (expires_at m) now = false.
Proof.
  unfold not_expired, Sql.lt_null. destruct (expires_at m) as [e|]; [|reflexivity].
  intros H. apply Z.ltb_lt in H. apply Z.ltb_ge. lia.
Qed.

(** X4. the sweep deletes the rows whose expiry lies before its time, in
    every project, and no other row; and it deletes nothing that a read
    at that time returns: getRecent without include_expired gives the
    same records before and after the sweep. *)
Theorem cleanupExpired_is_invisible_to_reads :
  forall rows now recent,
    Js.truthy (recent_include_expired recent) = false ->
    (forall r,
       In r (cleanupExpired rows now)
       <-> In r rows
           /\ match expires_at (rowToMemory r) with
              | Some e => (now <= e)%Z
              | None => True
              end)
    /\ getRecent like projectId (cleanupExpired rows now) now recent
       = getRecent like projectId rows now recent.
Proof.
  intros rows now recent Hflag. split.
  - intros r. unfold cleanupExpired. rewrite filter_In. unfold Sql.lt_null.
    destruct (expires_at (rowToMemory r)) as [e|]; simpl; [|tauto].
    rewrite negb_true_iff, Z.ltb_ge. tauto.
  - unfold getRecent, cleanupExpired. rewrite Hflag.
    rewrite filter_filter_implied; [reflexivity|].
    intros x Hx. cbn [orb] in Hx. rewrite !andb_true_iff in Hx.
    destruct Hx as [[_ Hx] _]. apply negb_true_iff.
    now apply not_expired_survives.
Qed.

(** X5. no read returns an expired record unless it is asked to.  Every
    record that getRecent returns at a time, and every record that a
    stage of search returns at the time the stage reads, has no expiry
    or one that lies after that time. *)
Theorem reads_leave_expired_records_out :
  forall fts5 rows clock now params recent,
    Js.truthy (include_expired params) = false ->
    Js.truthy (recent_include_expired recent) = false ->
    Forall (fun m => not_expired now m = true)
      (getRecent like projectId rows now recent)
    /\ Forall (fun m => exists stage,
                  (1 <= stage <= 4)%nat /\ not_expired (clock stage) m = true)
         (found_by_search (search fts5 like projectId rows clock params)).
Proof.
  intros fts5 rows clock now params recent Hp Hr. split.
  - unfold getRecent. rewrite Hr. apply Forall_map, Forall_forall. intros r Hin.
    apply limit_In in Hin. apply order_by_In in Hin. apply filter_In in Hin.
    destruct Hin as [_ Hw]. cbn [orb] in Hw. rewrite !andb_true_iff in Hw.
    tauto.
  - destruct (search_cascade fts5 like projectId rows clock params)
      as [found [-> [[-> _]|[_ [stage [Hstage [_ [Hrun _]]]]]]]]; cbn;
      [constructor|].
    apply Forall_map, Forall_forall. intros r Hin. exists stage.
    split; [exact Hstage|].
    unfold run_stage, executeSearch in Hrun.
    set (p := match stage with 1%nat => params | _ => _ end) in Hrun.
    assert (Hflag : Js.truthy (include_expired p) = false)
      by (unfold p; destruct stage as [|[|stage]]; exact Hp).
    destruct (Js.truthy (require_path_match p) && _)%bool;
      [injection Hrun as <-; destruct Hin|].
    destruct (fts5 rows (escapeQuery (q p))) as [hit|e]; cbn [Js.bind] in Hrun;
      [|discriminate].
    injection Hrun as <-. apply in_map_iff in Hin. destruct Hin as [rs [<- Hin]].
    cbn [memory]. apply limit_In in Hin. apply order_by_In in Hin.
    apply filter_In in Hin. destruct Hin as [_ Hw]. unfold search_where in Hw.
    rewrite Hflag in Hw. cbn [orb] in Hw. rewrite !andb_true_iff in Hw. tauto.
Qed.

(** X6. search returns no more records than the limit of the call, which
    is 10 when the call gives none or 0. *)
Theorem search_returns_at_most_k :
  forall fts5 rows clock params,
    (0 <= Js.or_default (k params) 10)%Z ->
    (List.length (found_by_search (search fts5 like projectId rows clock params))
     <= Z.to_nat (Js.or_default (k params) 10))%nat.
Proof.
  intros fts5 rows clock params Hk.
  destruct (search_cascade fts5 like projectId rows clock params)
    as [found [-> [[-> _]|[_ [stage [Hstage [_ [Hrun _]]]]]]]]; cbn;
    [lia|].
  rewrite length_map. unfold run_stage, executeSearch in Hrun.
  set (p := match stage with 1%nat => params | _ => _ end) in Hrun.
  assert (Hkp : k p = k params)
    by (unfold p; destruct stage as [|[|stage]]; reflexivity).
  destruct (Js.truthy (require_path_match p) && _)%bool;
    [injection Hrun as <-; simpl; lia|].
  destruct (fts5 rows (escapeQuery (q p))) as [hit|e]; cbn [Js.bind] in Hrun;
    [|discriminate].
  injection Hrun as <-. rewrite length_map, Hkp, limit_length by exact Hk.
  apply Nat.le_min_l.
Qed.

End Records.

Section Lookups.

Import MemoryDatabase.

Variable projectId : string.

Lemma lookup_assign (A : Type) (key key' : string) (value : A)
    (o : list (string * A)) :
  lookup key' (assign key value o)
  = if (key =? key')%string then Some value else lookup key' o.
Proof.
  unfold lookup. induction o as [|[k v] o IH]; simpl.
  - destruct (key =? key')%string; reflexivity.
  - destruct (String.eqb_spec k key) as [->|Hk]; simpl.
    + destruct (key =? key')%string; reflexivity.
    + destruct (String.eqb_spec k key') as [->|Hk']; simpl.
      * destruct (String.eqb_spec key key'); [congruence | reflexivity].
      * exact IH.
Qed.

Lemma has_own_assign (key key' : string) (value : option Memory)
    (o : list (string * option Memory)) :
  existsb (fun kv => (fst kv =? key')%string) (assign key value o)
  = (key =? key')%string || existsb (fun kv => (fst kv =? key')%string) o.
Proof.
  induction o as [|[k v] o IH]; simpl.
  - now rewrite orb_false_r.
  - destruct (String.eqb_spec k key) as [->|Hk]; simpl.
    + now destruct (key =? key')%string.
    + rewrite IH. destruct (k =? key')%string, (key =? key')%string; reflexivity.
Qed.

(** An assignment under another key than __proto__ is an assignment to
    an own property. *)
Lemma set_property_ordinary (key : string) (value : option Memory)
    (o : Dictionary) :
  key <> "__proto__"%string ->
  set_property key value o
  = mkDictionary (assign key value (own o)) (prototype o).
Proof.
  intros Hk. unfold set_property. apply String.eqb_neq in Hk. now rewrite Hk.
Qed.

Lemma lookup_set_property (key key' : string) (value : option Memory)
    (o : Dictionary) :
  key' <> "__proto__"%string ->
  lookup key' (own (set_property key value o))
  = if (key =? key')%string then Some value else lookup key' (own o).
Proof.
  intros Hk. unfold set_property. destruct (_ && _ && _) eqn:E; cbn [own].
  - apply andb_true_iff in E. destruct E as [E _].
    apply andb_true_iff in E. destruct E as [E _].
    apply String.eqb_eq in E. subst key.
    destruct (String.eqb_spec "__proto__" key'); [congruence | reflexivity].
  - apply lookup_assign.
Qed.

Lemma lookup_nulls (ids : list string) (o : Dictionary) (key : string) :
  key <> "__proto__"%string ->
  lookup key (own (fold_left (fun o id' => set_property id' None o) ids o))
  = if Js.mem key ids then Some None else lookup key (own o).
Proof.
  intros Hk. revert o. induction ids as [|i ids IH]; intros o; simpl;
    [reflexivity|].
  rewrite IH, lookup_set_property by exact Hk. unfold Js.mem. simpl.
  rewrite (String.eqb_sym key i).
  destruct (i =? key)%string; destruct (existsb (String.eqb key) ids);
    reflexivity.
Qed.

Lemma lookup_rows (rows : list Row) (o : Dictionary) (key : string) :
  key <> "__proto__"%string ->
  NoDup (map (fun r => id (rowToMemory r)) rows) ->
  lookup key
    (own (fold_left (fun o r => set_property (id (rowToMemory r))
                                  (Some (rowToMemory r)) o)
            rows o))
  = match find (fun r => (id (rowToMemory r) =? key)%string) rows with
    | Some r => Some (Some (rowToMemory r))
    | None => lookup key (own o)
    end.
Proof.
  intros Hk. revert o. induction rows as [|r rows IH]; intros o Hnd; simpl;
    [reflexivity|].
  inversion Hnd as [|? ? Hnot Hnd']; subst.
  rewrite (IH _ Hnd'), lookup_set_property by exact Hk.
  destruct (String.eqb_spec (id (rowToMemory r)) key) as [E|E]; [|reflexivity].
  rewrite find_all_false; [reflexivity|].
  intros x Hx. apply String.eqb_neq. intros Ex. apply Hnot.
  apply in_map_iff. exists x. split; [congruence | exact Hx].
Qed.

(** A key of a table is a key of every selection from it. *)
Lemma key_of_selection (Row Key : Type) (where_ : Row -> bool) (key : Row -> Key)
    (table : list Row) (Hkey : NoDup (map key table)) :
  NoDup (map key (filter where_ table)).
Proof.
  induction table as [|row table IH]; cbn [filter map] in *; [constructor|].
  apply NoDup_cons_iff in Hkey. destruct Hkey as [Hrow Hrest].
  destruct (where_ row); cbn [map]; [|exact (IH Hrest)].
  apply NoDup_cons; [|exact (IH Hrest)].
  intros Hin. apply Hrow. apply in_map_iff in Hin.
  destruct Hin as [other [Eother Hother]]. apply filter_In in Hother.
  apply in_map_iff. exists other. tauto.
Qed.

(** Assignments under other keys than __proto__ leave the prototype and
    the own property __proto__, if there is one, as they are. *)
Lemma fold_ordinary (B : Type) (key : B -> string) (value : B -> option Memory)
    (l : list B) (o : Dictionary) :
  Forall (fun x => key x <> "__proto__"%string) l ->
  prototype (fold_left (fun o x => set_property (key x) (value x) o) l o)
  = prototype o
  /\ has_own "__proto__"
       (fold_left (fun o x => set_property (key x) (value x) o) l o)
     = has_own "__proto__" o.
Proof.
  intros Hl. revert o. induction Hl as [|x l Hx _ IH]; intros o; simpl;
    [now split|].
  destruct (IH (set_property (key x) (value x) o)) as [H1 H2].
  rewrite H1, H2, (set_property_ordinary _ _ _ Hx). cbn [prototype].
  split; [reflexivity|]. unfold has_own. cbn [own]. rewrite has_own_assign.
  apply String.eqb_neq in Hx. now rewrite Hx.
Qed.

(** Once the prototype is null it stays null. *)
Lemma fold_null (B : Type) (key : B -> string) (value : B -> option Memory)
    (l : list B) (o : Dictionary) :
  prototype o = NullPrototype ->
  prototype (fold_left (fun o x => set_property (key x) (value x) o) l o)
  = NullPrototype.
Proof.
  revert o. induction l as [|x l IH]; intros o Ho; simpl; [exact Ho|].
  apply IH. unfold set_property. rewrite Ho, andb_false_r. reflexivity.
Qed.

(** The first null assigned under __proto__ makes the prototype null. *)
Lemma nulls_cut_the_prototype (ids : list string) (o : Dictionary) :
  Js.mem "__proto__" ids = true ->
  has_own "__proto__" o = false ->
  prototype (fold_left (fun o id' => set_property id' None o) ids o)
  = NullPrototype.
Proof.
  revert o. induction ids as [|i ids IH]; intros o Hmem Hown; [discriminate|].
  cbn [fold_left]. destruct (String.eqb_spec i "__proto__") as [->|Hi].
  - apply (fold_null _ (fun i : string => i) (fun _ => None)).
    unfold set_property. rewrite Hown. cbn [String.eqb Ascii.eqb Bool.eqb negb andb].
    destruct (prototype o); cbn [prototype]; reflexivity.
  - apply IH.
    + unfold Js.mem in *. cbn [existsb] in Hmem.
      rewrite (String.eqb_sym "__proto__" i) in Hmem.
      apply String.eqb_neq in Hi. now rewrite Hi in Hmem.
    + rewrite (set_property_ordinary _ _ _ Hi). unfold has_own. cbn [own].
      rewrite has_own_assign. apply String.eqb_neq in Hi. now rewrite Hi.
Qed.

(** A single null assigned under __proto__ creates no property. *)
Lemma one_null_creates_no_key (ids : list string) (o : Dictionary) :
  count_occ string_dec ids "__proto__"%string = 1%nat ->
  has_own "__proto__" o = false ->
  prototype o <> NullPrototype ->
  has_own "__proto__" (fold_left (fun o id' => set_property id' None o) ids o)
  = false.
Proof.
  revert o. induction ids as [|i ids IH]; intros o Hcount Hown Hproto;
    [discriminate|].
  cbn [fold_left]. cbn [count_occ] in Hcount.
  destruct (string_dec i "__proto__") as [->|Hi].
  - injection Hcount as Hcount.
    destruct (fold_ordinary _ (fun i : string => i) (fun _ => None) ids
                (set_property "__proto__" None o)) as [_ H].
    + apply Forall_forall. intros x Hx ->.
      apply (count_occ_not_In string_dec) in Hcount. contradiction.
    + rewrite H. unfold set_property. rewrite Hown.
      cbn [String.eqb Ascii.eqb Bool.eqb negb andb].
      destruct (prototype o); [exact Hown | congruence | exact Hown].
  - apply IH; [exact Hcount | |].
    + rewrite (set_property_ordinary _ _ _ Hi). unfold has_own. cbn [own].
      rewrite has_own_assign. apply String.eqb_neq in Hi. now rewrite Hi.
    + now rewrite (set_property_ordinary _ _ _ Hi).
Qed.

(** X7. getMultiple answers for every id what get answers for it, the
    id __proto__ apart.  In a table whose ids are a key, under every key
    other than __proto__ the object that getMultiple builds holds the
    record that get finds, or null when get finds none, if the key is
    among the ids asked for, and holds nothing otherwise.  The name
    __proto__ is the prototype accessor of the object: when it is not
    asked for, the object keeps Object.prototype and has no property of
    that name; when it is asked for, the prototype of the object is null
    afterwards, and when it is asked for once and get finds no record
    under it, the object has no property of that name, where a null was
    asked for. *)
Theorem getMultiple_agrees_with_get :
  forall rows ids key,
    table_ok rows ->
    key <> "__proto__"%string ->
    lookup key (own (getMultiple projectId rows ids))
    = (if Js.mem key ids then Some (get projectId rows key) else None)
    /\ (Js.mem "__proto__" ids = false ->
        prototype (getMultiple projectId rows ids) = ObjectPrototype
        /\ has_own "__proto__" (getMultiple projectId rows ids) = false)
    /\ (Js.mem "__proto__" ids = true ->
        prototype (getMultiple projectId rows ids) = NullPrototype)
    /\ (count_occ string_dec ids "__proto__"%string = 1%nat ->
        get projectId rows "__proto__" = None ->
        has_own "__proto__" (getMultiple projectId rows ids) = false).
Proof.
  intros rows ids key [Hkey _] Hk. unfold getMultiple. cbv zeta.
  destruct ids as [|i ids].
  { split; [reflexivity|]. split; [now split|]. split; discriminate. }
  set (all := i :: ids).
  set (results := filter (fun r => Js.mem (id (rowToMemory r)) all
                                   && (project_id (rowToMemory r) =? projectId)%string)
                    rows).
  split; [|split; [|split]].
  - rewrite lookup_rows; [|exact Hk | now apply key_of_selection].
    rewrite lookup_nulls by exact Hk. unfold results. rewrite find_filter.
    unfold get. destruct (Js.mem key all) eqn:Hmem.
    + rewrite (find_ext_in _ _
                 (fun r => (id (rowToMemory r) =? key)%string
                           && (project_id (rowToMemory r) =? projectId)%string)).
      * destruct (find _ rows); reflexivity.
      * intros x _.
        destruct (String.eqb_spec (id (rowToMemory x)) key) as [E|E]; cbn [andb];
          [rewrite E, Hmem; reflexivity | reflexivity].
    + rewrite find_all_false; [reflexivity|].
      intros x _.
      destruct (String.eqb_spec (id (rowToMemory x)) key) as [E|E]; cbn [andb];
        [rewrite E, Hmem; reflexivity | reflexivity].
  - intros Hmem.
    assert (Hrows : Forall (fun r => id (rowToMemory r) <> "__proto__"%string)
                      results).
    { apply Forall_forall. intros r Hr E. apply filter_In in Hr.
      destruct Hr as [_ Hw]. apply andb_true_iff in Hw. destruct Hw as [Hw _].
      rewrite E in Hw. congruence. }
    assert (Hids : Forall (fun x : string => x <> "__proto__"%string) all).
    { apply Forall_forall. intros x Hx ->. apply mem_In in Hx. congruence. }
    destruct (fold_ordinary _ (fun r => id (rowToMemory r))
                (fun r => Some (rowToMemory r)) results
                (fold_left (fun o id' => set_property id' None o) all
                   (mkDictionary [] ObjectPrototype)) Hrows) as [H1 H2].
    destruct (fold_ordinary _ (fun x : string => x) (fun _ => @None Memory) all
                (mkDictionary [] ObjectPrototype) Hids) as [H3 H4].
    rewrite H1, H2, H3, H4. now split.
  - intros Hmem.
    apply (fold_null _ (fun r => id (rowToMemory r))
             (fun r => Some (rowToMemory r))).
    now apply nulls_cut_the_prototype.
  - intros Hcount Hget.
    assert (Hrows : Forall (fun r => id (rowToMemory r) <> "__proto__"%string)
                      results).
    { apply Forall_forall. intros r Hr E. apply filter_In in Hr.
      destruct Hr as [Hr Hw]. apply andb_true_iff in Hw. destruct Hw as [_ Hp].
      unfold get in Hget.
      destruct (find _ rows) eqn:F; [discriminate|].
      apply (find_none _ _ F) in Hr. cbv beta in Hr.
      rewrite E, Hp in Hr. discriminate. }
    destruct (fold_ordinary _ (fun r => id (rowToMemory r))
                (fun r => Some (rowToMemory r)) results
                (fold_left (fun o id' => set_property id' None o) all
                   (mkDictionary [] ObjectPrototype)) Hrows) as [_ H2].
    rewrite H2. apply one_null_creates_no_key; [exact Hcount | reflexivity|].
    discriminate.
Qed.

End Lookups.

Section DebugAgreement.

Import MemoryDatabase.

Variable fts5 : list Row -> string -> Js.result (Row -> option (Q * string)).
Variable like : string -> string -> bool.
Variable projectId : string.

(** X8. searchWithDebug runs the cascade of search.  For the same table,
    clock and call it returns the results that search returns; it names
    no fallback exactly when the results are those of the literal query,
    and it lists the literal query first among the queries tried. *)
Theorem searchWithDebug_agrees_with_search :
  forall rows clock params,
  exists d,
    searchWithDebug fts5 like projectId rows clock params = Js.Return d
    /\ search fts5 like projectId rows clock params = Js.Return (results d)
    /\ original_query d = q params
    /\ hd_error (queries_tried d) = Some (q params)
    /\ (List.length (queries_tried d) <= 4)%nat
    /\ (fallback_used d = None
        <-> gives_nothing (run_stage fts5 like projectId rows clock params 1)
            = false).
Proof.
  intros rows clock params. unfold searchWithDebug, search. cbv beta zeta.
  destruct (run_stage fts5 like projectId rows clock params 1) as [[|x1 l1]|e1];
  destruct (run_stage fts5 like projectId rows clock params 2) as [[|x2 l2]|e2];
  destruct (run_stage fts5 like projectId rows clock params 3) as [[|x3 l3]|e3];
  destruct (run_stage fts5 like projectId rows clock params 4) as [[|x4 l4]|e4];
  destruct (has_special (q params));
  destruct (1 <? List.length (words (q params)))%nat;
  destruct (0 <? List.length (words (q params)))%nat;
  cbn; eexists; (split; [reflexivity|]); cbn;
  repeat split; try reflexivity; try lia; try discriminate.
Qed.

End DebugAgreement.

Section SaveInvariants.

Import MemoryDatabase.

Variable md5 : string -> string.
Variable projectId : string.

Lemma find_app_fresh (rows : list Row) (r : Row) :
  fresh (id (rowToMemory r)) rows ->
  project_id (rowToMemory r) = projectId ->
  find (fun x => (id (rowToMemory x) =? id (rowToMemory r))%string
                 && (project_id (rowToMemory x) =? projectId)%string)
    (rows ++ [r]) = Some r.
Proof.
  intros Hfresh Hp. induction Hfresh as [|x rows Hx _ IH]; simpl.
  - now rewrite String.eqb_refl, Hp, String.eqb_refl.
  - apply String.eqb_neq in Hx. now rewrite Hx.
Qed.

Lemma find_map_where {A} (p : A -> bool) (g : A -> A) (l : list A) (x : A) :
  (forall y, p (g y) = p y) ->
  find p l = Some x ->
  find p (map (fun r => if p r then g r else r) l) = Some (g x).
Proof.
  intros Hg. induction l as [|y l IH]; simpl; [discriminate|].
  destruct (p y) eqn:Ey.
  - intros [= ->]. now rewrite Hg, Ey.
  - rewrite Ey. exact IH.
Qed.

(** X9. a record saved can be read back.  After a save that succeeds, get
    finds under the id returned a record of the project with the
    summary and the text of the call. *)
Theorem save_then_get :
  forall rows now new_id params,
    table_ok rows -> importance_ok params -> fresh new_id rows ->
    exists r rows' m,
      save md5 projectId rows now new_id params = Js.Ok (r, rows')
      /\ get projectId rows' (saved_id r) = Some m
      /\ id m = saved_id r
      /\ project_id m = projectId
      /\ summary m = save_summary params
      /\ text m = save_text params
      /\ updated_at m = now.
Proof.
  intros rows now new_id params Hok Himp Hfresh.
  destruct (find (collides projectId (fingerprint md5 params)) rows)
    as [existing|] eqn:Hfind.
  - rewrite (save_collision md5 projectId rows now new_id params existing
               Hok Himp Hfind).
    destruct (find_collides_where projectId _ _ _ Hfind) as [Hin Hw].
    assert (Hf : exists x,
               find (update_where projectId (id (rowToMemory existing))) rows
               = Some x
               /\ update_where projectId (id (rowToMemory existing)) x = true).
    { destruct (find (update_where projectId (id (rowToMemory existing))) rows)
        as [x|] eqn:E.
      - exists x. split; [reflexivity|]. now apply find_some in E.
      - exfalso. apply (find_none _ _ E) in Hin. congruence. }
    destruct Hf as [x [Hx Hwx]].
    assert (Hfound :
              find (update_where projectId (id (rowToMemory existing)))
                (map (fun r => if update_where projectId (id (rowToMemory existing)) r
                               then set_columns now (patch_of params) r else r) rows)
              = Some (set_columns now (patch_of params) x)).
    { apply find_map_where; [|exact Hx].
      intros y. reflexivity. }
    exists (Existing (id (rowToMemory existing))),
      (updated projectId now (id (rowToMemory existing)) params rows),
      (rowToMemory (set_columns now (patch_of params) x)).
    split; [reflexivity|]. cbn [saved_id]. unfold get, updated.
    change (fun r : Row => (id (rowToMemory r) =? id (rowToMemory existing))%string
                           && (project_id (rowToMemory r) =? projectId)%string)
      with (update_where projectId (id (rowToMemory existing))).
    rewrite Hfound. cbn [option_map]. split; [reflexivity|].
    unfold update_where in Hwx. apply andb_true_iff in Hwx.
    destruct Hwx as [Hi Hp]. apply String.eqb_eq in Hi, Hp.
    cbn. repeat split; assumption.
  - destruct (save_insert md5 projectId rows now new_id params Himp Hfresh Hfind)
      as [m [Hsave [Hid _]]].
    rewrite Hsave. do 3 eexists. split; [reflexivity|]. cbn [saved_id].
    unfold get. rewrite Hid.
    pose proof (find_app_fresh rows (new_row md5 projectId now new_id params))
      as Hf.
    cbn [new_row rowToMemory id project_id] in Hf.
    rewrite (Hf Hfresh eq_refl). cbn. repeat split.
Qed.

(** X10. save keeps the table sound.  It keeps id a key and the importance
    of every row within 1 to 5, and it keeps the fingerprints of the
    project apart: when no two records of the project share a
    fingerprint before the call, none do after it. *)
Theorem save_keeps_fingerprints_unique :
  forall rows now new_id params r rows',
    table_ok rows -> importance_ok params -> fresh new_id rows ->
    fingerprints_unique projectId rows ->
    save md5 projectId rows now new_id params = Js.Ok (r, rows') ->
    table_ok rows' /\ fingerprints_unique projectId rows'.
Proof.
  intros rows now new_id params r rows' Hok Himp Hfresh Huniq Hsave.
  destruct (find (collides projectId (fingerprint md5 params)) rows)
    as [existing|] eqn:Hfind.
  - rewrite (save_collision md5 projectId rows now new_id params existing
               Hok Himp Hfind) in Hsave.
    injection Hsave as _ <-. split.
    + now apply updated_table_ok.
    + intros h. rewrite updated_stored_with. apply Huniq.
  - destruct (save_insert md5 projectId rows now new_id params Himp Hfresh Hfind)
      as [m [Hsave' _]].
    rewrite Hsave' in Hsave. injection Hsave as _ <-. split.
    + destruct Hok as [Hkey Hcheck]. split.
      * rewrite map_app. simpl. apply NoDup_app; [exact Hkey | |].
        -- repeat constructor. simpl. tauto.
        -- intros x Hx [Hx'|[]]. subst x.
           apply in_map_iff in Hx. destruct Hx as [y [Hy Hin]].
           unfold fresh in Hfresh. rewrite Forall_forall in Hfresh.
           exact (Hfresh y Hin Hy).
      * apply Forall_app. split; [exact Hcheck|]. repeat constructor.
        simpl. now apply importance_default_ok.
    + intros h. rewrite stored_with_app.
      destruct (String.eqb_spec (fingerprint md5 params) h) as [<-|Hne].
      * apply (find_none_stored_with md5 projectId) in Hfind. rewrite Hfind.
        unfold stored_with. cbn [filter].
        rewrite (new_row_collides md5 projectId). cbn [List.length]. lia.
      * specialize (Huniq h).
        assert (E : stored_with projectId h [new_row md5 projectId now new_id params]
                    = 0%nat).
        { unfold stored_with. cbn [filter]. unfold collides.
          cbn [new_row dedupe_hash].
          apply String.eqb_neq in Hne. now rewrite Hne. }
        rewrite E. lia.
Qed.

End SaveInvariants.

(* ------------------------------------------------------------------ *)
(** ** The context assembler: order, repeats, modes and counts *)

Section Subsequences.

Variable A : Type.

Lemma subsequence_In (s l : list A) (x : A) :
  Js.subsequence s l -> In x s -> In x l.
Proof.
  induction 1 as [l|y s l _ IH|y s l _ IH]; simpl.
  - intros [].
  - intros H. right. now apply IH.
  - intros [H|H]; [now left | right; now apply IH].
Qed.

Lemma subsequence_length (s l : list A) :
  Js.subsequence s l -> (List.length s <= List.length l)%nat.
Proof. induction 1; simpl; lia. Qed.

Lemma subsequence_sorted (le : A -> A -> Prop) (s l : list A) :
  Js.subsequence s l -> StronglySorted le l -> StronglySorted le s.
Proof.
  induction 1 as [l|y s l Hs IH|y s l Hs IH]; intros Hl.
  - constructor.
  - apply StronglySorted_inv in Hl. now apply IH.
  - apply StronglySorted_inv in Hl. destruct Hl as [Hl Hy].
    constructor; [now apply IH|].
    apply Forall_forall. intros z Hz. rewrite Forall_forall in Hy.
    apply Hy. exact (subsequence_In _ _ _ Hs Hz).
Qed.

End Subsequences.

Section Selecting.

Import ContextBroker.

Lemma select_body_picks (budgetLimit topK : Z) (st st' : Selection)
    (c : ContextInjection) :
  select_body budgetLimit topK st c = Next st' ->
  st' = st
  \/ (Js.mem (dedupeKey c) (seen st) = false
      /\ st' = mkSelection (selected st ++ [c]) (used st + byteSize c)
                 (dedupeKey c :: seen st)).
Proof.
  unfold select_body. destruct (_ <=? _)%Z; [discriminate|].
  destruct (_ <? _)%Z; [discriminate|].
  fold (dedupeKey c). destruct (Js.mem _ _) eqn:E; intros [= <-];
    [now left | right; now split].
Qed.

Lemma select_loop_picks (budgetLimit topK : Z) (cs : list ContextInjection) :
  forall st,
    (forall key, In key (seen st) <-> In key (map dedupeKey (selected st))) ->
    NoDup (map dedupeKey (selected st)) ->
    exists extra,
      selected (select_loop budgetLimit topK cs st) = selected st ++ extra
      /\ Js.subsequence extra cs
      /\ NoDup (map dedupeKey (selected st ++ extra)).
Proof.
  induction cs as [|c cs IH]; intros st Hseen Hnodup; simpl.
  - exists []. rewrite app_nil_r. repeat split; [constructor | exact Hnodup].
  - destruct (select_body budgetLimit topK st c) as [|st'] eqn:E.
    + exists []. rewrite app_nil_r. repeat split; [constructor | exact Hnodup].
    + destruct (select_body_picks _ _ _ _ _ E) as [->|[Hnew ->]].
      * destruct (IH st Hseen Hnodup) as [extra [H1 [H2 H3]]].
        exists extra. repeat split; [exact H1 | now constructor | exact H3].
      * destruct (IH (mkSelection (selected st ++ [c]) (used st + byteSize c)
                        (dedupeKey c :: seen st)))
          as [extra [H1 [H2 H3]]].
        -- cbn [seen selected]. intros key. rewrite map_app, in_app_iff.
           simpl. rewrite Hseen. tauto.
        -- cbn [selected]. rewrite map_app. simpl.
           apply NoDup_app; [exact Hnodup | repeat constructor; simpl; tauto |].
           intros key Hkey [<-|[]]. apply Hseen in Hkey.
           apply mem_In in Hkey. congruence.
        -- cbn [selected] in H1, H3. exists (c :: extra).
           rewrite H1, <- app_assoc. simpl. repeat split; [now constructor|].
           rewrite <- app_assoc in H3. exact H3.
Qed.

(** What selectByBudget selects is a part of the candidates, in their
    order and without a repeated dedupe key. *)
Lemma selectByBudget_picks (cs : list ContextInjection) (budgetLimit topK : Z) :
  Js.subsequence (selectByBudget cs budgetLimit topK) cs
  /\ NoDup (map dedupeKey (selectByBudget cs budgetLimit topK)).
Proof.
  unfold selectByBudget.
  destruct (select_loop_picks budgetLimit topK cs (mkSelection [] 0 []))
    as [extra [H1 [H2 H3]]].
  - intros key. simpl. tauto.
  - constructor.
  - rewrite H1. cbn [selected app] in *. now split.
Qed.

(** X11. selectByBudget keeps the order of its candidates and drops
    repeats.  What it selects is a part of the candidates in the order
    it received them, and no two of the selected have one dedupe key,
    that is one summary up to case, punctuation and spacing. *)
Theorem selectByBudget_keeps_order_and_drops_repeats :
  forall candidates budgetLimit topK,
    Js.subsequence (selectByBudget candidates budgetLimit topK) candidates
    /\ NoDup (map dedupeKey (selectByBudget candidates budgetLimit topK)).
Proof.
  intros candidates budgetLimit topK.
  destruct (selectByBudget_picks candidates budgetLimit topK) as [Hsub Hnd].
  split; [exact Hsub | exact Hnd].
Qed.

End Selecting.

Section PreviewAnatomy.

Import ContextBroker.

Variable projectId : string.
Variable mem_fts : list MemoryDatabase.Row -> string
                   -> Js.result (MemoryDatabase.Row -> option (Q * string)).
Variable like : string -> string -> bool.
Variable concept_fts : list ConceptStore.Concept -> string
                       -> Js.result (ConceptStore.Concept -> option (Q * string)).

Lemma returned_in_project rows clock params found :
  returned (MemoryDatabase.search mem_fts like projectId rows clock params)
  = Js.Ok found ->
  Forall (MemoryDatabase.in_project projectId)
    (map MemoryDatabase.memory found).
Proof.
  destruct (search_cascade mem_fts like projectId rows clock params)
    as [f [-> [[-> _]|[_ [stage [_ [_ [Hs _]]]]]]]]; cbn [returned];
    intros [= <-].
  - constructor.
  - eapply run_stage_in_project. exact Hs.
Qed.

(** The parts of a result of preview. *)
Lemma preview_anatomy rows store clock clock' now params p :
  preview projectId mem_fts like concept_fts rows store clock clock' now params
  = Js.Ok p ->
  exists memoryResults conceptResults,
    let pathPrefixes := inferPathPrefixes (default (open_files params) []) in
    let scoredCandidates :=
      Js.sort_by (fun a b => Sql.Qgtb (score a) (score b))
        (scoreMemories projectId now memoryResults pathPrefixes (task params)
         ++ scoreConcepts conceptResults (task params)) in
    injections p
    = selectByBudget scoredCandidates (default (budget_bytes params) 2048%Z)
        (default (top_k params) 10%Z)
    /\ stats p
       = mkStats
           (Z.of_nat (List.length
              (filter (fun r => (MemoryDatabase.project_id
                                   (MemoryDatabase.memory r) =? projectId)%string)
                 memoryResults)))
           (Z.of_nat (List.length
              (filter (fun r => hasPathMatch
                                  (MemoryDatabase.paths (MemoryDatabase.memory r))
                                  pathPrefixes)
                 memoryResults)))
           (Z.of_nat (List.length conceptResults))
           (Z.of_nat (List.length scoredCandidates))
    /\ Forall (MemoryDatabase.in_project projectId)
         (map MemoryDatabase.memory memoryResults)
    /\ match default (mode params) smart with
       | hard => conceptResults = []
       | m =>
           exists concepts,
             ConceptStore.search concept_fts store
               (ConceptStore.mkSearchParams (extractSearchTerms (task params))
                  (Some 20%Z)
                  (match m with
                   | smart => Some (ConceptStore.list_allowlist store projectId)
                   | _ => None
                   end)
                  (match m with smart => Some projectId | _ => None end))
             = Js.Ok concepts
             /\ conceptResults
                = map (fun c => (ConceptStore.concept c, ConceptStore.score c))
                    (filter (fun c => Sql.Qgtb (ConceptStore.score c) (1 # 2))
                       concepts)
       end.
Proof.
  unfold preview. cbv zeta.
  match goal with
  | |- Js.bind ?x _ = _ -> _ =>
      destruct x as [first|] eqn:E1; cbn [Js.bind]; [|discriminate]
  end.
  match goal with
  | |- Js.bind ?x _ = _ -> _ =>
      destruct x as [memoryResults|] eqn:E2; cbn [Js.bind]; [|discriminate]
  end.
  match goal with
  | |- Js.bind ?x _ = _ -> _ =>
      destruct x as [conceptResults|] eqn:E3; cbn [Js.bind]; [|discriminate]
  end.
  intros [= <-]. exists memoryResults, conceptResults. cbv zeta.
  cbn [injections stats]. split; [reflexivity|]. split; [reflexivity|]. split.
  - destruct first as [|x first].
    + destruct (Js.endsWith_char "*" (extractSearchTerms (task params))).
      * exact (returned_in_project _ _ _ _ E2).
      * injection E2 as <-. constructor.
    + injection E2 as <-. exact (returned_in_project _ _ _ _ E1).
  - destruct (default (mode params) smart).
    + now injection E3 as <-.
    + match type of E3 with
      | Js.bind ?x _ = _ => destruct x as [concepts|]; cbn [Js.bind] in E3;
                            [|discriminate]
      end.
      injection E3 as <-. now exists concepts.
    + match type of E3 with
      | Js.bind ?x _ = _ => destruct x as [concepts|]; cbn [Js.bind] in E3;
                            [|discriminate]
      end.
      injection E3 as <-. now exists concepts.
Qed.

(** X12. preview returns its injections by score.  The injections of a
    result stand in the order of their scores, the highest first, and no
    two of them have one dedupe key. *)
Theorem preview_orders_by_score :
  forall rows store clock clock' now params p,
    preview projectId mem_fts like concept_fts rows store clock clock' now params
    = Js.Ok p ->
    StronglySorted (fun a b => score b <= score a) (injections p)
    /\ NoDup (map dedupeKey (injections p)).
Proof.
  intros rows store clock clock' now params p H.
  destruct (preview_anatomy _ _ _ _ _ _ _ H) as [ms [cs [Hsel _]]].
  cbv zeta in Hsel. rewrite Hsel.
  match goal with
  | |- context [selectByBudget ?c ?b ?k] =>
      destruct (selectByBudget_picks c b k) as [Hsub Hnd]
  end.
  split; [|exact Hnd].
  apply (subsequence_sorted _ _ _ _ Hsub).
  apply (sort_by_sorted _ (fun a b => Sql.Qgtb (score a) (score b))).
  - intros x y Hxy. apply Qgtb_true in Hxy. now apply Qlt_le_weak.
  - intros x y Hxy. now apply Qgtb_false in Hxy.
  - intros x y z Hxy Hyz. now apply Qle_trans with (score y).
Qed.

Lemma filter_all (A : Type) (f : A -> bool) (l : list A) :
  Forall (fun x => f x = true) l -> filter f l = l.
Proof.
  induction 1 as [|x l Hx _ IH]; simpl; [reflexivity|]. now rewrite Hx, IH.
Qed.

(** X13. the counts of preview.  Every record that the memory search gave
    counts as a match of the project, so totalCandidates is
    projectMatches plus conceptMatches; pathMatches counts some of the
    same records; and the injections are not more than the candidates. *)
Theorem preview_counts_candidates :
  forall rows store clock clock' now params p,
    preview projectId mem_fts like concept_fts rows store clock clock' now params
    = Js.Ok p ->
    (totalCandidates (stats p)
     = projectMatches (stats p) + conceptMatches (stats p))%Z
    /\ (0 <= pathMatches (stats p) <= projectMatches (stats p))%Z
    /\ (Z.of_nat (List.length (injections p)) <= totalCandidates (stats p))%Z.
Proof.
  intros rows store clock clock' now params p H.
  destruct (preview_anatomy _ _ _ _ _ _ _ H) as [ms [cs [Hsel [Hst [Hin _]]]]].
  cbv zeta in Hsel, Hst. rewrite Hst, Hsel.
  cbn [totalCandidates projectMatches conceptMatches pathMatches].
  rewrite sort_by_length, length_app.
  unfold scoreMemories, scoreConcepts. rewrite !length_map.
  rewrite (filter_all _ _ ms).
  - split; [lia|]. split.
    + pose proof (filter_length_le
                    (fun r => hasPathMatch
                                (MemoryDatabase.paths (MemoryDatabase.memory r))
                                (inferPathPrefixes (default (open_files params) [])))
                    ms). lia.
    + match goal with
      | |- context [selectByBudget ?c ?b ?k] =>
          destruct (selectByBudget_picks c b k)
            as [Hsub _]
      end.
      apply subsequence_length in Hsub.
      rewrite sort_by_length, length_app, !length_map in Hsub. lia.
  - rewrite Forall_forall in *. intros r Hr. apply String.eqb_eq.
    apply (Hin (MemoryDatabase.memory r)). now apply in_map.
Qed.

(** X14. hard mode.  In hard mode preview asks no concept store: it
    returns whatever the concept engine would do, every injection is a
    memory and conceptMatches is 0. *)
Theorem preview_hard_mode_reads_memories_only :
  forall rows store clock clock' now params,
    mode params = Some hard ->
    exists p,
      preview projectId mem_fts like concept_fts rows store clock clock' now
        params = Js.Ok p
      /\ Forall (fun i => type i = memory) (injections p)
      /\ conceptMatches (stats p) = 0%Z.
Proof.
  intros rows store clock clock' now params Hmode.
  destruct (preview_hard_returns projectId mem_fts like concept_fts rows store
              clock clock' now params Hmode) as [p Hp].
  exists p. split; [exact Hp|].
  destruct (preview_anatomy _ _ _ _ _ _ _ Hp) as [ms [cs [Hsel [Hst [_ Hcs]]]]].
  cbv zeta in Hsel, Hst. rewrite Hmode in Hcs. cbn [default] in Hcs. subst cs.
  rewrite Hst, Hsel. split; [|reflexivity].
  match goal with
  | |- context [selectByBudget ?c ?b ?k] =>
      destruct (selectByBudget_picks c b k) as [Hsub _]
  end.
  apply Forall_forall. intros i Hi.
  apply (subsequence_In _ _ _ _ Hsub) in Hi. apply sort_by_In in Hi.
  cbn [scoreConcepts map] in Hi. rewrite app_nil_r in Hi.
  unfold scoreMemories in Hi. apply in_map_iff in Hi.
  destruct Hi as [r [<- _]]. reflexivity.
Qed.

Lemma concept_search_filtered (s : ConceptStore.Store)
    (params : ConceptStore.SearchParams)
    (results : list ConceptStore.ConceptSearchResult)
    (r : ConceptStore.ConceptSearchResult) :
  ConceptStore.search concept_fts s params = Js.Ok results ->
  In r results ->
  ConceptStore.search_filter s params (ConceptStore.concept r) = true.
Proof.
  unfold ConceptStore.search. cbv zeta.
  match goal with
  | |- Js.bind ?x _ = _ -> _ =>
      destruct x as [scored|]; cbn [Js.bind]; [|discriminate]
  end.
  intros [= <-] Hr. apply in_map_iff in Hr. destruct Hr as [cs [<- Hcs]].
  cbn [ConceptStore.concept]. apply limit_In in Hcs. apply order_by_In in Hcs.
  apply filter_In in Hcs. tauto.
Qed.

(** X15. smart mode keeps to the allowlist.  In smart mode, which is the
    mode of a call that names none, every concept that preview injects
    is on the allowlist of the project. *)
Theorem preview_smart_mode_keeps_to_the_allowlist :
  forall rows store clock clock' now params p i,
    projectId <> ""%string ->
    default (mode params) smart = smart ->
    preview projectId mem_fts like concept_fts rows store clock clock' now params
    = Js.Ok p ->
    In i (injections p) -> type i = concept ->
    In (id i) (ConceptStore.list_allowlist store projectId).
Proof.
  intros rows store clock clock' now params p i Hproj Hmode H Hi Hty.
  destruct (preview_anatomy _ _ _ _ _ _ _ H) as [ms [cs [Hsel [_ [_ Hcs]]]]].
  cbv zeta in Hsel. rewrite Hmode in Hcs.
  destruct Hcs as [concepts [Hsearch ->]]. rewrite Hsel in Hi.
  match type of Hi with
  | context [selectByBudget ?c ?b ?k] =>
      destruct (selectByBudget_picks c b k) as [Hsub _]
  end.
  apply (subsequence_In _ _ _ _ Hsub) in Hi. apply sort_by_In in Hi.
  apply in_app_iff in Hi. destruct Hi as [Hi|Hi].
  - unfold scoreMemories in Hi. apply in_map_iff in Hi.
    destruct Hi as [r [<- _]]. discriminate.
  - unfold scoreConcepts in Hi. apply in_map_iff in Hi.
    destruct Hi as [[c sc] [<- Hc]]. cbn [id fst].
    apply in_map_iff in Hc. destruct Hc as [r [[= <- _] Hr]].
    apply filter_In in Hr. destruct Hr as [Hr _].
    pose proof (concept_search_filtered _ _ _ _ Hsearch Hr) as Hf.
    unfold ConceptStore.search_filter in Hf. cbn [ConceptStore.projectId] in Hf.
    destruct projectId as [|a project] eqn:Ep; [contradiction|].
    apply existsb_exists in Hf. destruct Hf as [e [He Hw]].
    apply andb_true_iff in Hw. destruct Hw as [Hw1 Hw2].
    apply String.eqb_eq in Hw2. rewrite <- Hw2.
    unfold ConceptStore.list_allowlist. apply in_map. apply order_by_In.
    apply filter_In. now split.
Qed.

End PreviewAnatomy.

(* ------------------------------------------------------------------ *)
(** ** The strengths that the scores are made of *)

Section Strengths.

Import ContextBroker.

Lemma Qof_nat_nonneg (n : nat) : 0 <= Qof_nat n.
Proof.
  unfold Qof_nat. change 0 with (inject_Z 0). rewrite <- Zle_Qle. lia.
Qed.

Lemma fraction_bounds (a b : nat) :
  (a <= b)%nat -> 0 <= Qof_nat a / Qof_nat b /\ Qof_nat a / Qof_nat b <= 1.
Proof.
  intros Hab. destruct b as [|b].
  - assert (a = 0%nat) by lia. subst a. split; vm_compute; discriminate.
  - assert (Hb : 0 < Qof_nat (S b)).
    { unfold Qof_nat. change 0 with (inject_Z 0). rewrite <- Zlt_Qlt. lia. }
    split.
    + apply Qle_shift_div_l; [exact Hb|]. rewrite Qmult_0_l.
      apply Qof_nat_nonneg.
    + apply Qle_shift_div_r; [exact Hb|]. rewrite Qmult_1_l.
      unfold Qof_nat. rewrite <- Zle_Qle. lia.
Qed.

Lemma fold_left_keeps (A B : Type) (P : A -> Prop) (f : A -> B -> A)
    (l : list B) :
  (forall acc x, P acc -> P (f acc x)) ->
  forall acc, P acc -> P (fold_left f l acc).
Proof.
  intros Hf. induction l as [|x l IH]; intros acc Hacc; simpl;
    [exact Hacc | apply IH, Hf, Hacc].
Qed.

Lemma match_step_fraction (m p : string) (acc : Q) :
  0 <= acc /\ acc <= 1 ->
  0 <= match_step m acc p /\ match_step m acc p <= 1.
Proof.
  intros [H0 H1]. unfold match_step. cbv zeta.
  destruct (m =? _)%string; [split; discriminate|].
  destruct (_ || _); [|now split].
  match goal with
  | |- context [Qof_nat ?a / Qof_nat ?b] =>
      destruct (fraction_bounds a b) as [F0 F1]; [lia|];
      destruct (Q.max_spec acc (Qof_nat a / Qof_nat b)) as [[_ E]|[_ E]]
  end; rewrite E; now split.
Qed.

(** X16. the strengths are fractions.  pathMatchStrength and
    taskMatchStrength lie between 0 and 1 for all stored paths, prefixes,
    tags and tasks. *)
Theorem match_strengths_are_fractions :
  forall memoryPaths prefixes tags task,
    (0 <= pathMatchStrength memoryPaths prefixes
     /\ pathMatchStrength memoryPaths prefixes <= 1)
    /\ (0 <= taskMatchStrength tags task
        /\ taskMatchStrength tags task <= 1).
Proof.
  intros memoryPaths prefixes tags task. split.
  - unfold pathMatchStrength.
    destruct memoryPaths as [|m ms]; [split; discriminate|].
    destruct prefixes as [|p ps]; [split; discriminate|].
    apply (fold_left_keeps _ _ (fun acc => 0 <= acc /\ acc <= 1));
      [|split; discriminate].
    intros acc memPath Hacc.
    apply (fold_left_keeps _ _ (fun acc => 0 <= acc /\ acc <= 1));
      [|exact Hacc].
    intros acc' prefix. apply match_step_fraction.
  - unfold taskMatchStrength. cbv zeta.
    destruct tags as [|t ts]; [split; discriminate|].
    apply fraction_bounds. apply filter_length_le.
Qed.

Lemma match_step_stays_one (m p : string) (acc : Q) :
  acc == 1 -> match_step m acc p == 1.
Proof.
  intros H1. unfold match_step. cbv zeta.
  destruct (m =? _)%string; [reflexivity|].
  destruct (_ || _); [|exact H1].
  match goal with
  | |- context [Qof_nat ?a / Qof_nat ?b] =>
      destruct (fraction_bounds a b) as [F0 F1]; [lia|];
      destruct (Q.max_spec acc (Qof_nat a / Qof_nat b)) as [[L E]|[_ E]]
  end; rewrite E; [|exact H1].
  rewrite H1 in L. apply Qle_antisym; [exact F1 | now apply Qlt_le_weak].
Qed.

Lemma inner_fold_stays_one (m : string) (prefixes : list string) (acc : Q) :
  acc == 1 -> fold_left (match_step m) prefixes acc == 1.
Proof.
  apply (fold_left_keeps _ _ (fun acc => acc == 1)).
  intros acc' p. apply match_step_stays_one.
Qed.

Lemma inner_fold_finds (m p : string) (prefixes : list string) (acc : Q) :
  In p prefixes -> m = Js.strip_star p ->
  fold_left (match_step m) prefixes acc == 1.
Proof.
  intros Hp ->. revert acc. induction prefixes as [|x prefixes IH];
    intros acc; simpl; [destruct Hp|].
  destruct Hp as [->|Hp]; [|now apply IH].
  apply inner_fold_stays_one. unfold match_step.
  now rewrite String.eqb_refl.
Qed.

(** X17. an exact match is perfect.  When a stored path is one of the
    prefixes, both taken without a star at their end, pathMatchStrength
    is 1 whatever the other paths and prefixes are, and hasPathMatch
    holds. *)
Theorem exact_path_match_is_perfect :
  forall memoryPaths prefixes memPath prefix,
    In memPath memoryPaths -> In prefix prefixes ->
    Js.strip_star memPath = Js.strip_star prefix ->
    pathMatchStrength memoryPaths prefixes == 1
    /\ hasPathMatch memoryPaths prefixes = true.
Proof.
  intros memoryPaths prefixes memPath prefix Hm Hp E.
  assert (H : pathMatchStrength memoryPaths prefixes == 1).
  { unfold pathMatchStrength.
    destruct memoryPaths as [|m0 ms] eqn:Em; [destruct Hm|].
    destruct prefixes as [|p0 ps] eqn:Ep; [destruct Hp|].
    rewrite <- Em, <- Ep in *. clear Em Ep m0 ms p0 ps.
    generalize 0. induction memoryPaths as [|x l IH]; intros acc; simpl;
      [destruct Hm|].
    destruct Hm as [->|Hm]; [|now apply IH].
    apply (fold_left_keeps _ _ (fun acc => acc == 1)).
    - intros acc' y. apply inner_fold_stays_one.
    - exact (inner_fold_finds _ _ _ _ Hp E). }
  split; [exact H|]. unfold hasPathMatch. apply Qgtb_true. rewrite H.
  reflexivity.
Qed.

Lemma set_of_In (x : string) (l seen : list string) :
  In x (Js.set_of l seen) -> In x l.
Proof.
  revert seen. induction l as [|y l IH]; intros seen; simpl; [tauto|].
  destruct (Js.mem y seen); simpl.
  - intros H. right. exact (IH _ H).
  - intros [H|H]; [now left | right; exact (IH _ H)].
Qed.

Lemma prefix_empty (s : string) : prefix "" s = true.
Proof. now destruct s. Qed.

Lemma startsWith_rooted (rest : string) :
  Js.startsWith (String "/" rest) "/" = true.
Proof.
  unfold Js.startsWith. simpl.
  destruct (ascii_dec "/" "/") as [_|H];
    [apply prefix_empty | now contradiction H].
Qed.

Lemma prefixes_of_rooted (parts taken : list string) (x : string) :
  In x (prefixes_of parts taken) -> Js.startsWith x "/" = true.
Proof.
  revert taken. induction parts as [|part rest IH]; intros taken; simpl;
    [tauto|].
  destruct rest as [|part' rest'].
  - intros [<-|[]]. apply startsWith_rooted.
  - intros [<-|[<-|H]];
      [apply startsWith_rooted | apply startsWith_rooted | exact (IH _ H)].
Qed.

Lemma inferPathPrefixes_rooted (openFiles : list string) (x : string) :
  In x (inferPathPrefixes openFiles) -> Js.startsWith x "/" = true.
Proof.
  unfold inferPathPrefixes. intros H. apply set_of_In in H.
  apply in_flat_map in H. destruct H as [file [_ H]].
  exact (prefixes_of_rooted _ _ _ H).
Qed.

Lemma startsWith_slash (x : string) :
  Js.startsWith x "/" = true <-> exists rest, x = String "/" rest.
Proof.
  unfold Js.startsWith. destruct x as [|c s]; cbn [prefix].
  - split; [discriminate | intros [r H]; discriminate H].
  - destruct (ascii_dec "/" c) as [<-|Hc].
    + split; [intros _; now exists s | intros _; apply prefix_empty].
    + split; [discriminate | intros [r [= H _]]; now contradiction Hc].
Qed.

Lemma strip_star_rooted (x : string) :
  Js.startsWith x "/" = true -> Js.startsWith (Js.strip_star x) "/" = true.
Proof.
  intros H. apply startsWith_slash in H. destruct H as [rest ->].
  apply startsWith_slash. unfold Js.strip_star.
  destruct (Js.endsWith_char "*" (String "/" rest)) eqn:E; [|now exists rest].
  destruct rest as [|d r]; [vm_compute in E; discriminate E|].
  exists (Js.drop_last (String d r)). reflexivity.
Qed.

Lemma strip_star_unrooted (x : string) :
  Js.startsWith x "/" = false -> Js.startsWith (Js.strip_star x) "/" = false.
Proof.
  intros H. destruct (Js.startsWith (Js.strip_star x) "/") eqn:E;
    [|reflexivity].
  apply startsWith_slash in E. destruct E as [rest E].
  assert (G : Js.startsWith x "/" = true); [|congruence].
  apply startsWith_slash. unfold Js.strip_star in E.
  destruct (Js.endsWith_char "*" x); [|now exists rest].
  destruct x as [|c [|d r]]; try discriminate E.
  cbn [Js.drop_last] in E. injection E as -> _. now eexists.
Qed.

Lemma match_step_unrooted (m p : string) (acc : Q) :
  Js.startsWith m "/" = false -> Js.startsWith p "/" = true ->
  acc == 0 -> match_step m acc p == 0.
Proof.
  intros Hm Hp H0. unfold match_step. cbv zeta.
  apply strip_star_rooted in Hp. apply startsWith_slash in Hp.
  destruct Hp as [q ->]. destruct m as [|d m].
  - cbn [String.eqb Js.startsWith prefix orb String.length Nat.min].
    destruct (Q.max_spec acc (Qof_nat 0 / Qof_nat (Nat.max 0 (S (String.length q)))))
      as [[_ E]|[_ E]]; rewrite E; [|exact H0].
    unfold Qdiv. apply Qmult_0_l.
  - assert (Hd : d <> "/"%char).
    { intros ->. rewrite startsWith_rooted in Hm. discriminate Hm. }
    assert (E1 : (String d m =? String "/" q)%string = false).
    { apply String.eqb_neq. intros [= H _]. now apply Hd. }
    rewrite E1. unfold Js.startsWith. cbn [prefix].
    destruct (ascii_dec d "/") as [H|_]; [now contradiction Hd|].
    destruct (ascii_dec "/" d) as [H|_]; [now contradiction Hd|].
    exact H0.
Qed.

Lemma unrooted_inner (m : string) (prefixes : list string) :
  Js.startsWith m "/" = false ->
  (forall x, In x prefixes -> Js.startsWith x "/" = true) ->
  forall acc, acc == 0 ->
    fold_left (match_step (Js.strip_star m)) prefixes acc == 0.
Proof.
  intros Hm. induction prefixes as [|p prefixes IH]; intros Hp acc Hacc;
    cbn [fold_left]; [exact Hacc|].
  apply IH; [intros x Hx; apply Hp; now right|].
  apply match_step_unrooted;
    [now apply strip_star_unrooted | apply Hp; now left | exact Hacc].
Qed.

Lemma unrooted_outer (memoryPaths prefixes : list string) :
  Forall (fun memPath => Js.startsWith memPath "/" = false) memoryPaths ->
  (forall x, In x prefixes -> Js.startsWith x "/" = true) ->
  forall acc, acc == 0 ->
    fold_left (fun maxMatch memPath =>
                 fold_left (match_step (Js.strip_star memPath)) prefixes maxMatch)
      memoryPaths acc == 0.
Proof.
  intros Hm Hp. induction Hm as [|m l Hx _ IH]; intros acc Hacc;
    cbn [fold_left]; [exact Hacc|].
  apply IH. now apply unrooted_inner.
Qed.

(** X18. a stored path without a slash at its start never matches.
    inferPathPrefixes puts a slash before every prefix, so when no
    stored path of a record starts with a slash, pathMatchStrength is 0
    for every list of open files and hasPathMatch fails. *)
Theorem unrooted_paths_never_match :
  forall memoryPaths openFiles,
    Forall (fun memPath => Js.startsWith memPath "/" = false) memoryPaths ->
    pathMatchStrength memoryPaths (inferPathPrefixes openFiles) == 0
    /\ hasPathMatch memoryPaths (inferPathPrefixes openFiles) = false.
Proof.
  intros memoryPaths openFiles Hm.
  assert (H : pathMatchStrength memoryPaths (inferPathPrefixes openFiles) == 0).
  { unfold pathMatchStrength.
    pose proof (unrooted_outer memoryPaths (inferPathPrefixes openFiles) Hm
                  (inferPathPrefixes_rooted openFiles) 0 (Qeq_refl 0)) as G.
    destruct memoryPaths as [|m0 ms]; [reflexivity|].
    destruct (inferPathPrefixes openFiles) as [|p0 ps]; [reflexivity|].
    exact G. }
  split; [exact H|]. unfold hasPathMatch. apply Qgtb_false. rewrite H.
  discriminate.
Qed.

Lemma age_hours_order (now c1 c2 : Z) :
  (c1 <= c2)%Z ->
  inject_Z (now - c2) / inject_Z (1000 * 60 * 60)
  <= inject_Z (now - c1) / inject_Z (1000 * 60 * 60).
Proof.
  intros H. unfold Qdiv. apply Qmult_le_compat_r.
  - rewrite <- Zle_Qle. lia.
  - vm_compute. discriminate.
Qed.

(** X19. recencyScore favours the newer record.  It is one of 1, 0.8, 0.5
    and 0.2, and of two records the one created later never scores
    lower. *)
Theorem recencyScore_favours_newer :
  forall now created1 created2,
    (created1 <= created2)%Z ->
    recencyScore now created1 <= recencyScore now created2
    /\ (2 # 10) <= recencyScore now created1
    /\ recencyScore now created2 <= 1.
Proof.
  intros now c1 c2 H. pose proof (age_hours_order now c1 c2 H) as Hage.
  unfold recencyScore. cbv zeta.
  set (a1 := inject_Z (now - c1) / inject_Z (1000 * 60 * 60)) in *.
  set (a2 := inject_Z (now - c2) / inject_Z (1000 * 60 * 60)) in *.
  destruct (Sql.Qgtb 24 a1) eqn:E1; destruct (Sql.Qgtb 168 a1) eqn:E2;
    destruct (Sql.Qgtb 720 a1) eqn:E3;
    destruct (Sql.Qgtb 24 a2) eqn:F1; destruct (Sql.Qgtb 168 a2) eqn:F2;
    destruct (Sql.Qgtb 720 a2) eqn:F3;
    repeat match goal with
           | H : Sql.Qgtb _ _ = true |- _ => apply Qgtb_true in H
           | H : Sql.Qgtb _ _ = false |- _ => apply Qgtb_false in H
           end;
    repeat split; try discriminate; try (exfalso; lra).
Qed.

End Strengths.

(* ------------------------------------------------------------------ *)
(** ** Recent records *)

Section Recent.

Import MemoryDatabase.

Variable like : string -> string -> bool.
Variable projectId : string.

Lemma StronglySorted_map (A B : Type) (f : A -> B) (le : B -> B -> Prop)
    (l : list A) :
  StronglySorted (fun a b => le (f a) (f b)) l -> StronglySorted le (map f l).
Proof.
  induction 1 as [|x l Hl IH Hx]; simpl; constructor; [exact IH|].
  apply Forall_map. exact Hx.
Qed.

(** X20. getRecent gives the newest records first.  Its result stands in
    the order of created_at, the latest first, whatever was updated
    since, and unless k is negative it has at most k records, 10 when
    the call names no k or names 0. *)
Theorem getRecent_newest_first :
  forall rows now params,
    StronglySorted (fun a b => (created_at b <= created_at a)%Z)
      (getRecent like projectId rows now params)
    /\ ((Js.or_default (recent_k params) 10 < 0)%Z
        \/ (Z.of_nat (List.length (getRecent like projectId rows now params))
            <= Js.or_default (recent_k params) 10)%Z)
    /\ Js.or_default (recent_k params) 10 <> 0%Z.
Proof.
  intros rows now params. unfold getRecent. cbv zeta. split; [|split].
  - apply StronglySorted_map.
    apply (ranked_sorted _
             (fun a b => (created_at (rowToMemory b)
                          <? created_at (rowToMemory a))%Z)
             (fun a b => (created_at (rowToMemory b)
                          <= created_at (rowToMemory a))%Z)).
    + intros x y H. apply Z.ltb_lt in H. lia.
    + intros x y H. apply Z.ltb_ge in H. lia.
    + intros x y z Hxy Hyz. lia.
  - destruct (Z.ltb_spec (Js.or_default (recent_k params) 10) 0) as [Hk|Hk];
      [now left | right].
    rewrite length_map, limit_length by exact Hk. lia.
  - apply or_default_not_zero. discriminate.
Qed.

End Recent.

(* ------------------------------------------------------------------ *)
(** ** The allowlists and the concepts of the basic store *)

Section Allowlists.

Import ConceptStore.

Lemma on_allowlist_added (cs : list Concept) (l : list AllowEntry)
    (e : AllowEntry) (p c : string) :
  on_allowlist (mkStore cs (l ++ [e])) p c
  = on_allowlist (mkStore cs l) p c
    || ((allow_project_id e =? p)%string && (allow_concept_id e =? c)%string).
Proof.
  unfold on_allowlist. cbn [project_allowlists]. rewrite existsb_app. simpl.
  now rewrite orb_false_r.
Qed.

Lemma on_allowlist_removed (cs : list Concept) (l : list AllowEntry)
    (project x p c : string) :
  on_allowlist
    (mkStore cs
       (filter (fun e => negb ((allow_project_id e =? project)%string
                               && (allow_concept_id e =? x)%string)) l)) p c
  = on_allowlist (mkStore cs l) p c
    && negb ((p =? project)%string && (c =? x)%string).
Proof.
  unfold on_allowlist. cbn [project_allowlists].
  induction l as [|e l IH]; simpl; [reflexivity|].
  destruct (String.eqb_spec (allow_project_id e) project) as [Ep|Ep];
    destruct (String.eqb_spec (allow_concept_id e) x) as [Ex|Ex];
    simpl; rewrite IH;
    destruct (String.eqb_spec (allow_project_id e) p) as [Hp|Hp];
    destruct (String.eqb_spec (allow_concept_id e) c) as [Hc|Hc];
    destruct (String.eqb_spec p project) as [Hpp|Hpp];
    destruct (String.eqb_spec c x) as [Hcx|Hcx];
    simpl; try reflexivity; try congruence;
    rewrite ?andb_true_r, ?andb_false_r, ?orb_false_r; try reflexivity.
Qed.

Lemma store_eta (s : Store) : s = mkStore (concepts s) (project_allowlists s).
Proof. now destruct s. Qed.

Lemma add_all_spec (project : string) (now : Z) (ids : list string) :
  forall s added,
    concepts (snd (add_all s project now ids added)) = concepts s
    /\ forall p c,
         on_allowlist (snd (add_all s project now ids added)) p c
         = on_allowlist s p c
           || ((p =? project)%string && Js.mem c ids && holds s c).
Proof.
  induction ids as [|x rest IH]; intros s added; cbn [add_all].
  - split; [reflexivity|]. intros p c. cbn [snd]. unfold Js.mem. simpl.
    now rewrite andb_false_r, orb_false_r.
  - assert (M : forall c, Js.mem c (x :: rest)
                          = (c =? x)%string || Js.mem c rest) by reflexivity.
    destruct (get s x) as [found|] eqn:G.
    + destruct (on_allowlist s project x) eqn:O.
      * destruct (IH s added) as [H1 H2]. split; [exact H1|].
        intros p c. rewrite H2, M.
        destruct (String.eqb_spec c x) as [->|Hc]; [|reflexivity].
        destruct (String.eqb_spec p project) as [->|Hp]; [|reflexivity].
        now rewrite O.
      * destruct (IH (mkStore (concepts s)
                        (project_allowlists s ++ [mkAllowEntry project x now]))
                    (added ++ [x])) as [H1 H2].
        split; [exact H1|]. intros p c. rewrite H2, M, on_allowlist_added.
        cbn [allow_project_id allow_concept_id]. rewrite <- store_eta.
        assert (Hh : holds (mkStore (concepts s)
                              (project_allowlists s ++ [mkAllowEntry project x now])) c
                     = holds s c) by reflexivity.
        rewrite Hh. rewrite (String.eqb_sym project p), (String.eqb_sym x c).
        destruct (String.eqb_spec c x) as [->|Hc].
        -- assert (Hx : holds s x = true) by (unfold holds; now rewrite G).
           rewrite Hx.
           destruct (p =? project)%string, (on_allowlist s p x), (Js.mem x rest);
             reflexivity.
        -- now rewrite andb_false_r, orb_false_r.
    + destruct (IH s added) as [H1 H2]. split; [exact H1|].
      intros p c. rewrite H2, M.
      destruct (String.eqb_spec c x) as [->|Hc]; [|reflexivity].
      assert (Hx : holds s x = false) by (unfold holds; now rewrite G).
      now rewrite Hx, !andb_false_r.
Qed.

Lemma remove_all_spec (project : string) (ids : list string) :
  forall s removed,
    concepts (snd (remove_all s project ids removed)) = concepts s
    /\ forall p c,
         on_allowlist (snd (remove_all s project ids removed)) p c
         = on_allowlist s p c
           && negb ((p =? project)%string && Js.mem c ids).
Proof.
  induction ids as [|x rest IH]; intros s removed; cbn [remove_all].
  - split; [reflexivity|]. intros p c. cbn [snd]. unfold Js.mem. simpl.
    now rewrite andb_false_r, andb_true_r.
  - assert (M : forall c, Js.mem c (x :: rest)
                          = (c =? x)%string || Js.mem c rest) by reflexivity.
    destruct (on_allowlist s project x) eqn:O.
    + destruct (IH (mkStore (concepts s)
                      (filter (fun e => negb ((allow_project_id e =? project)%string
                                              && (allow_concept_id e =? x)%string))
                         (project_allowlists s)))
                  (removed ++ [x])) as [H1 H2].
      split; [exact H1|]. intros p c.
      rewrite H2, M, on_allowlist_removed, <- store_eta.
      destruct (on_allowlist s p c), (p =? project)%string, (c =? x)%string,
        (Js.mem c rest); reflexivity.
    + destruct (IH s removed) as [H1 H2]. split; [exact H1|].
      intros p c. rewrite H2, M.
      destruct (String.eqb_spec c x) as [->|Hc]; [|reflexivity].
      destruct (String.eqb_spec p project) as [->|Hp]; [|reflexivity].
      now rewrite O.
Qed.

Lemma list_allowlist_on (s : Store) (project c : string) :
  In c (list_allowlist s project) <-> on_allowlist s project c = true.
Proof.
  unfold list_allowlist, on_allowlist. rewrite in_map_iff, existsb_exists.
  split.
  - intros [e [<- He]]. apply order_by_In in He. apply filter_In in He.
    destruct He as [He Hp]. exists e. split; [exact He|].
    now rewrite Hp, String.eqb_refl.
  - intros [e [He Hw]]. apply andb_true_iff in Hw. destruct Hw as [Hp Hc].
    apply String.eqb_eq in Hc. exists e. split; [exact Hc|].
    apply order_by_In. apply filter_In. now split.
Qed.

(** X21. what updateAllowlist does to the lists.  The concepts stay as
    they are and so do the lists of the other projects.  On the list of
    the project of the call a concept stands afterwards exactly when it
    stood there before or the call adds it and the store holds it, and
    the call does not remove it; an id that no concept has is not added,
    and an id both added and removed is removed.  The list that the call
    returns on request holds exactly the ids on the list afterwards. *)
Theorem updateAllowlist_sets_the_list :
  forall s now params project c,
    let after := snd (updateAllowlist s now params) in
    concepts after = concepts s
    /\ on_allowlist after project c
       = (if (project =? allow_project params)%string
          then (on_allowlist s project c
                || (Js.mem c (Js.or_empty (to_add params)) && holds s c))
               && negb (Js.mem c (Js.or_empty (to_remove params)))
          else on_allowlist s project c)
    /\ (forall ids,
          listed (fst (updateAllowlist s now params)) = Some ids ->
          (In c ids <-> on_allowlist after (allow_project params) c = true)).
Proof.
  intros s now params project c. unfold updateAllowlist. cbv zeta.
  cbn [fst snd listed].
  set (step1 := match to_add params with
                | Some (x :: xs) =>
                    (Some (fst (add_all s (allow_project params) now (x :: xs) [])),
                     snd (add_all s (allow_project params) now (x :: xs) []))
                | _ => (None, s)
                end).
  assert (A : concepts (snd step1) = concepts s
              /\ forall p c,
                   on_allowlist (snd step1) p c
                   = on_allowlist s p c
                     || ((p =? allow_project params)%string
                         && Js.mem c (Js.or_empty (to_add params)) && holds s c)).
  { unfold step1. destruct (to_add params) as [[|x xs]|]; cbn [snd Js.or_empty].
    - split; [reflexivity|]. intros p c'. unfold Js.mem. simpl.
      now rewrite andb_false_r, orb_false_r.
    - apply add_all_spec.
    - split; [reflexivity|]. intros p c'. unfold Js.mem. simpl.
      now rewrite andb_false_r, orb_false_r. }
  clearbody step1. destruct A as [A1 A2].
  set (step2 := match to_remove params with
                | Some (x :: xs) =>
                    (Some (fst (remove_all (snd step1) (allow_project params)
                                  (x :: xs) [])),
                     snd (remove_all (snd step1) (allow_project params)
                            (x :: xs) []))
                | _ => (None, snd step1)
                end).
  assert (R : concepts (snd step2) = concepts (snd step1)
              /\ forall p c,
                   on_allowlist (snd step2) p c
                   = on_allowlist (snd step1) p c
                     && negb ((p =? allow_project params)%string
                              && Js.mem c (Js.or_empty (to_remove params)))).
  { unfold step2. destruct (to_remove params) as [[|x xs]|];
      cbn [snd Js.or_empty].
    - split; [reflexivity|]. intros p c'. unfold Js.mem. simpl.
      now rewrite andb_false_r, andb_true_r.
    - apply remove_all_spec.
    - split; [reflexivity|]. intros p c'. unfold Js.mem. simpl.
      now rewrite andb_false_r, andb_true_r. }
  clearbody step2. destruct R as [R1 R2].
  split; [congruence|]. split.
  - rewrite R2, A2.
    destruct (project =? allow_project params)%string; simpl;
      [reflexivity | now rewrite orb_false_r, andb_true_r].
  - intros ids. destruct (Js.truthy (want_list params)); [|discriminate].
    intros [= <-]. apply list_allowlist_on.
Qed.

Lemma get_updated (cs : list Concept) (id' other : string)
    (f : Concept -> Concept) :
  (forall c, id (f c) = id c) ->
  find (fun c => (id c =? other)%string)
    (map (fun c => if (id c =? id')%string then f c else c) cs)
  = option_map (fun c => if (id c =? id')%string then f c else c)
      (find (fun c => (id c =? other)%string) cs).
Proof.
  intros Hf. induction cs as [|c cs IH]; simpl; [reflexivity|].
  assert (E : id (if (id c =? id')%string then f c else c) = id c)
    by (destruct (id c =? id')%string; [apply Hf | reflexivity]).
  rewrite E. destruct (id c =? other)%string; [reflexivity | exact IH].
Qed.

Lemma get_appended (cs : list Concept) (c : Concept) (other : string) :
  find (fun x => (id x =? id c)%string) cs = None ->
  find (fun x => (id x =? other)%string) (cs ++ [c])
  = if (id c =? other)%string then Some c
    else find (fun x => (id x =? other)%string) cs.
Proof.
  intros Hnone. induction cs as [|x cs IH]; simpl.
  - reflexivity.
  - simpl in Hnone. destruct (String.eqb_spec (id x) (id c)) as [E|E];
      [discriminate|].
    destruct (String.eqb_spec (id x) other) as [<-|Ho].
    + destruct (String.eqb_spec (id c) (id x)); [congruence | reflexivity].
    + now apply IH.
Qed.

(** X22. saving a concept in the basic store.  A save that succeeds stores
    the title, body and tags of the call under the id returned; a
    concept that was stored under that id keeps its created_at, a new one
    gets the time of the call.  No other concept changes and the
    allowlists stay as they are. *)
Theorem concept_save_then_get :
  forall s now params id' after,
    save s now params = Js.Ok (id', after) ->
    (exists c,
        get after id' = Some c
        /\ id c = id'
        /\ title c = save_title params
        /\ body c = save_body params
        /\ tags c = Js.or_empty (save_tags params)
        /\ updated_at c = now
        /\ created_at c = match get s id' with
                          | Some old => created_at old
                          | None => now
                          end)
    /\ (forall other, other <> id' -> get after other = get s other)
    /\ project_allowlists after = project_allowlists s.
Proof.
  intros s now params id' after. unfold save. cbv zeta.
  set (i := match save_id params with
            | Some (String c rest) => String c rest
            | _ => generateConceptId (save_title params) now
            end).
  destruct (get s i) as [existing|] eqn:G.
  - destruct (check_importance _); [|discriminate].
    intros [= <- <-]. rewrite G. unfold get in *. cbn [concepts project_allowlists].
    split; [|split; [|reflexivity]].
    + rewrite get_updated by reflexivity. rewrite G. cbn [option_map].
      pose proof (find_some _ _ G) as [_ Hi]. rewrite Hi.
      apply String.eqb_eq in Hi.
      eexists. split; [reflexivity|]. cbn. repeat split. exact Hi.
    + intros other Hother. rewrite get_updated by reflexivity.
      destruct (find (fun c => (id c =? other)%string) (concepts s))
        as [c|] eqn:F; [|reflexivity].
      cbn [option_map]. pose proof (find_some _ _ F) as [_ Hc].
      apply String.eqb_eq in Hc.
      destruct (String.eqb_spec (id c) i); [congruence | reflexivity].
  - destruct (check_importance _); [|discriminate].
    intros [= <- <-]. rewrite G. unfold get in *. cbn [concepts project_allowlists].
    split; [|split; [|reflexivity]].
    + rewrite get_appended by exact G. cbn [id]. rewrite String.eqb_refl.
      eexists. split; [reflexivity|]. cbn. repeat split.
    + intros other Hother. rewrite get_appended by exact G. cbn [id].
      destruct (String.eqb_spec i other); [congruence | reflexivity].
Qed.

End Allowlists.

(* ------------------------------------------------------------------ *)
(** ** The enhanced concept store: replacing, suggesting, counting uses
       and enriching *)

Section EnhancedStore.

Import ConceptStoreEnhanced.

Variable fts5 : list Row -> string -> Js.result (Row -> option (Q * string)).
Variable foreign_keys : bool.

Lemma insert_or_replace_lists s r :
  check_importance (row_importance r) = true ->
  exists s',
    insert_or_replace foreign_keys s r = Js.Ok s'
    /\ concepts s'
       = filter (fun x => negb (row_id x =? row_id r)%string) (concepts s) ++ [r]
    /\ project_allowlists s'
       = (if foreign_keys && has_concept (concepts s) (row_id r)
          then filter (fun a => negb (allow_concept_id a =? row_id r)%string)
                 (project_allowlists s)
          else project_allowlists s).
Proof.
  intros Hc. unfold insert_or_replace. rewrite Hc.
  destruct (foreign_keys && has_concept (concepts s) (row_id r));
    eexists; repeat split.
Qed.

Lemma find_row_others rows r other :
  other <> row_id r ->
  find (fun x => (row_id x =? other)%string)
    (filter (fun x => negb (row_id x =? row_id r)%string) rows ++ [r])
  = find (fun x => (row_id x =? other)%string) rows.
Proof.
  intros Hne. induction rows as [|x rows IH]; simpl.
  - destruct (String.eqb_spec (row_id r) other); [congruence | reflexivity].
  - destruct (String.eqb_spec (row_id x) (row_id r)) as [E|E]; simpl.
    + destruct (String.eqb_spec (row_id x) other); [congruence | exact IH].
    + destruct (row_id x =? other)%string; [reflexivity | exact IH].
Qed.

(** X23. a save replaces one concept.  A save, whose relatedTo names
    stored concepts where foreign keys are enforced, succeeds and leaves
    every concept under another id as it was.  Where foreign keys are
    enforced and the id was stored already, replacing the row takes the
    concept off every allowlist; otherwise the allowlists stay as they
    are. *)
Theorem save_replaces_one_concept :
  forall s now hash params,
    importance_ok params ->
    foreign_keys = false \/ related_known s params ->
    exists c s',
      save foreign_keys s now hash params = Js.Ok (c, s')
      /\ id c = generateConceptId (save_title params) hash
      /\ (forall other, other <> id c -> find_row s' other = find_row s other)
      /\ project_allowlists s'
         = (if foreign_keys && has_concept (concepts s) (id c)
            then filter (fun a => negb (allow_concept_id a =? id c)%string)
                   (project_allowlists s)
            else project_allowlists s).
Proof.
  intros s now hash params Himp Hfk. unfold save. cbv zeta.
  cbn [id title body tags importance created_at updated_at].
  set (i := generateConceptId (save_title params) hash).
  match goal with
  | |- context [insert_or_replace foreign_keys s ?row] => set (r := row)
  end.
  match goal with
  | |- context [autoDiscoverRelated foreign_keys _ ?con] => set (c := con)
  end.
  destruct (insert_or_replace_lists s r Himp) as [s1 [H1 [Hc1 Ha1]]].
  rewrite H1. cbn [Js.bind].
  assert (Hid : has_concept (concepts s1) i = true).
  { rewrite Hc1, has_concept_app. unfold has_concept at 2. simpl.
    rewrite String.eqb_refl. apply orb_true_r. }
  assert (Hrel : exists s2,
             match relatedTo params with
             | Some (x :: xs) =>
                 addRelationships foreign_keys s1 i (x :: xs) "related"
             | _ => Js.Ok s1
             end = Js.Ok s2
             /\ concepts s2 = concepts s1
             /\ project_allowlists s2 = project_allowlists s1).
  { destruct (relatedTo params) as [[|x xs]|] eqn:E;
      try (exists s1; repeat split; reflexivity).
    destruct (addRelationships_ok foreign_keys s1 i (x :: xs) "related")
      as [s2 [H2 [Hc2 [Ha2 _]]]].
    - destruct Hfk as [H|H]; [now left | right]. split; [exact Hid|].
      unfold related_known in H. rewrite E in H. cbn [Js.or_empty] in H.
      revert H. apply Forall_impl. intros a Ha. rewrite Hc1.
      now apply replaced_has_concept.
    - exists s2. now repeat split. }
  destruct Hrel as [s2 [H2 [Hc2 Ha2]]]. rewrite H2. cbn [Js.bind].
  unfold autoDiscoverRelated.
  destruct (discover_ok foreign_keys c (others s2 (id c)) s2)
    as [s3 [H3 [Hc3 [Ha3 _]]]].
  { destruct (foreign_keys); [right | now left].
    split; [now rewrite Hc2 | apply others_known]. }
  rewrite H3. cbn [Js.bind]. exists c, s3. split; [reflexivity|].
  split; [reflexivity|]. split.
  - intros other Hother. unfold find_row. rewrite Hc3, Hc2, Hc1.
    now apply find_row_others.
  - now rewrite Ha3, Ha2, Ha1.
Qed.

Lemma search_keeps_lists s now now' params found s' :
  search fts5 s now now' params = Js.Ok (found, s') ->
  s' = match found with
       | [] => s
       | first :: _ => trackUsage s now' (id (concept first))
       end.
Proof.
  unfold search. cbv zeta.
  match goal with
  | |- Js.bind ?x _ = _ -> _ =>
      destruct x as [scored|]; cbn [Js.bind]; [|discriminate]
  end.
  match goal with
  | |- match ?fr with [] => _ | _ => _ end = _ -> _ => destruct fr
  end; now intros [= <- <-].
Qed.

Lemma find_row_tracked rows now' top id' :
  find (fun r => (row_id r =? id')%string)
    (map (fun r =>
            if (row_id r =? top)%string
            then mkRow (row_id r) (row_title r) (row_body r) (row_tags r)
                   (row_importance r) (row_usage_count r + 1) (Some now')
                   (row_created_at r) (row_updated_at r) (row_source r)
                   (row_confidence r)
            else r) rows)
  = option_map
      (fun r =>
         if (row_id r =? top)%string
         then mkRow (row_id r) (row_title r) (row_body r) (row_tags r)
                (row_importance r) (row_usage_count r + 1) (Some now')
                (row_created_at r) (row_updated_at r) (row_source r)
                (row_confidence r)
         else r)
      (find (fun r => (row_id r =? id')%string) rows).
Proof.
  induction rows as [|x rows IH]; simpl; [reflexivity|].
  destruct (row_id x =? top)%string eqn:E; cbn [row_id];
    (destruct (row_id x =? id')%string;
     [cbn [option_map]; now rewrite E | exact IH]).
Qed.

(** X24. search counts one use.  A search that returns results counts a
    use for the first of them only: that row gets usage_count plus 1
    and last_used the time of the call, every other row stays as it
    was, also the rows of the other results, and so do the edges and
    the allowlists.  A search that finds nothing changes nothing. *)
Theorem search_counts_a_use_of_the_first_result :
  forall s now now' params found s' id' r,
    search fts5 s now now' params = Js.Ok (found, s') ->
    find_row s id' = Some r ->
    let first := match found with
                 | top :: _ => (id' =? id (concept top))%string
                 | [] => false
                 end in
    concept_relationships s' = concept_relationships s
    /\ project_allowlists s' = project_allowlists s
    /\ exists r',
         find_row s' id' = Some r'
         /\ row_usage_count r'
            = (row_usage_count r + (if first then 1 else 0))%Z
         /\ row_last_used r' = (if first then Some now' else row_last_used r)
         /\ (first = false -> r' = r)
         /\ row_title r' = row_title r /\ row_body r' = row_body r
         /\ row_tags r' = row_tags r /\ row_importance r' = row_importance r.
Proof.
  intros s now now' params found s' id' r H Hr first.
  apply search_keeps_lists in H. subst s'. subst first.
  destruct found as [|top rest].
  - split; [reflexivity|]. split; [reflexivity|].
    exists r. rewrite Z.add_0_r. now repeat split.
  - unfold trackUsage, find_row in *.
    cbn [concepts concept_relationships project_allowlists].
    split; [reflexivity|]. split; [reflexivity|].
    rewrite find_row_tracked, Hr. cbn [option_map].
    pose proof (find_some _ _ Hr) as [_ Hi]. apply String.eqb_eq in Hi.
    rewrite Hi. destruct (id' =? id (concept top))%string.
    + eexists. split; [reflexivity|]. cbn. repeat split. discriminate.
    + exists r. rewrite Z.add_0_r. now repeat split.
Qed.

Lemma suggest_all_spec project clock suggestions :
  forall entries n,
  exists new,
    suggest_all entries project clock n suggestions = entries ++ new
    /\ Forall (fun a => allow_project_id a = project
                        /\ auto_suggested a = true /\ accepted a = false
                        /\ In (allow_concept_id a) (map id suggestions)) new
    /\ forall c, In c suggestions ->
         existsb (fun a => (allow_project_id a =? project)%string
                           && (allow_concept_id a =? id c)%string)
           (entries ++ new) = true.
Proof.
  induction suggestions as [|c rest IH]; intros entries n; cbn [suggest_all].
  - exists []. rewrite app_nil_r. repeat split; [constructor | intros c []].
  - destruct (existsb _ entries) eqn:E.
    + destruct (IH entries (S n)) as [new [H1 [H2 H3]]].
      exists new. split; [exact H1|]. split.
      * revert H2. apply Forall_impl. intros a [Ha [Hb [Hc Hd]]].
        repeat split; try assumption. now right.
      * intros c' [<-|Hc']; [|now apply H3].
        rewrite existsb_app, E. reflexivity.
    + destruct (IH (entries ++ [mkAllowEntry project (id c) (clock n) true false])
                  (S n)) as [new [H1 [H2 H3]]].
      exists (mkAllowEntry project (id c) (clock n) true false :: new).
      rewrite <- app_assoc in H1, H3. split; [exact H1|]. split.
      * constructor; [cbn; repeat split; now left|].
        revert H2. apply Forall_impl. intros a [Ha [Hb [Hc Hd]]].
        repeat split; try assumption. now right.
      * intros c' [<-|Hc']; [|now apply H3].
        rewrite existsb_app. simpl. rewrite !String.eqb_refl. simpl.
        apply orb_true_r.
Qed.

(** X25. a suggestion is not an approval.  suggestForProject adds its
    suggestions to the allowlist of the project as entries that are
    auto_suggested and not accepted, behind the entries that were there.
    So the concepts that a search for a project may return are the same
    before and after, for every project. *)
Theorem suggestions_wait_for_acceptance :
  forall s now now' clock project context suggestions s',
    suggestForProject fts5 s now now' clock project context
    = Js.Ok (suggestions, s') ->
    (forall p r, allowed s' p r = allowed s p r)
    /\ (exists new,
          project_allowlists s' = project_allowlists s ++ new
          /\ Forall (fun a => allow_project_id a = project
                              /\ auto_suggested a = true /\ accepted a = false
                              /\ In (allow_concept_id a) (map id suggestions))
               new)
    /\ (forall c, In c suggestions ->
          existsb (fun a => (allow_project_id a =? project)%string
                            && (allow_concept_id a =? id c)%string)
            (project_allowlists s') = true).
Proof.
  intros s now now' clock project context suggestions s'.
  unfold suggestForProject.
  destruct (search fts5 s now now' _) as [[found s1]|] eqn:E; cbn [Js.bind];
    [|discriminate].
  intros [= <- <-]. cbn [fst snd project_allowlists].
  apply search_keeps_lists in E.
  assert (Ha : project_allowlists s1 = project_allowlists s)
    by (subst s1; now destruct found).
  rewrite Ha.
  destruct (suggest_all_spec project clock
              (map concept (filter (fun r => Sql.Qgtb (score r) 2) found))
              (project_allowlists s) 0%nat) as [new [H1 [H2 H3]]].
  rewrite H1. split; [|split; [now exists new | exact H3]].
  intros p r. unfold allowed. cbn [project_allowlists]. rewrite existsb_app.
  assert (N : existsb (fun a => (allow_project_id a =? p)%string && accepted a
                                && (allow_concept_id a =? row_id r)%string) new
              = false).
  { clear H1 H3. induction H2 as [|a new [_ [_ [Hacc _]]] _ IH]; simpl;
      [reflexivity|].
    now rewrite Hacc, andb_false_r, IH. }
  now rewrite N, orb_false_r.
Qed.

Lemma enrich_rows_spec res rels :
  forall enriched seen,
    (forall r, In r enriched -> In (id (concept r)) seen) ->
    exists extra,
      fst (enrich_rows res rels enriched seen) = enriched ++ extra
      /\ (List.length extra <= List.length rels)%nat
      /\ (forall r, In r (enriched ++ extra) ->
            In (id (concept r)) (snd (enrich_rows res rels enriched seen)))
      /\ (NoDup (map (fun r => id (concept r)) enriched) ->
          NoDup (map (fun r => id (concept r)) (enriched ++ extra))).
Proof.
  induction rels as [|[rel st] rest IH]; intros enriched seen Hseen;
    cbn [enrich_rows].
  - exists []. rewrite app_nil_r. cbn [fst snd].
    split; [reflexivity|]. split; [simpl; lia|]. split; [exact Hseen | tauto].
  - destruct (Js.mem (row_id rel) seen) eqn:M.
    + destruct (IH enriched seen Hseen) as [extra [H1 [H2 [H3 H4]]]].
      exists extra. split; [exact H1|]. split; [simpl; lia|].
      split; [exact H3 | exact H4].
    + match goal with
      | |- context [enrich_rows res rest (enriched ++ [?x]) ?sn] =>
          destruct (IH (enriched ++ [x]) sn) as [extra [H1 [H2 [H3 H4]]]];
          [|exists (x :: extra)]
      end.
      * intros r Hr. apply in_app_iff in Hr. destruct Hr as [Hr|[<-|[]]].
        -- right. now apply Hseen.
        -- now left.
      * rewrite <- app_assoc in H1, H3, H4. cbn [app] in H1, H3, H4.
        split; [exact H1|]. split; [simpl; lia|]. split; [exact H3|].
        intros Hnd. apply H4. rewrite map_app. cbn [map concept id rowToConcept].
        apply NoDup_app; [exact Hnd | repeat constructor; simpl; tauto |].
        intros x Hx [<-|[]]. apply in_map_iff in Hx.
        destruct Hx as [r [Hr1 Hr2]]. apply Hseen in Hr2. rewrite Hr1 in Hr2.
        apply mem_In in Hr2. congruence.
Qed.

Lemma related_rows_short s conceptId :
  (List.length (related_rows s conceptId) <= 2)%nat.
Proof.
  unfold related_rows. rewrite limit_length by lia.
  apply Nat.le_min_l.
Qed.

Lemma enrich_results_spec s top :
  forall enriched seen,
    (forall r, In r enriched -> In (id (concept r)) seen) ->
    exists extra,
      enrich_results s top enriched seen = enriched ++ extra
      /\ (List.length extra <= 2 * List.length top)%nat
      /\ (NoDup (map (fun r => id (concept r)) enriched) ->
          NoDup (map (fun r => id (concept r)) (enriched ++ extra))).
Proof.
  induction top as [|res rest IH]; intros enriched seen Hseen;
    cbn [enrich_results].
  - exists []. rewrite app_nil_r. split; [reflexivity|].
    split; [simpl; lia | tauto].
  - cbv zeta.
    destruct (enrich_rows_spec res (related_rows s (id (concept res)))
                enriched seen Hseen) as [e1 [H1 [H2 [H3 H4]]]].
    pose proof (related_rows_short s (id (concept res))) as Hshort.
    rewrite H1.
    destruct (IH (enriched ++ e1)
                (snd (enrich_rows res (related_rows s (id (concept res)))
                        enriched seen)) H3) as [e2 [G1 [G2 G3]]].
    exists (e1 ++ e2). rewrite app_assoc. split; [exact G1|]. split.
    + rewrite length_app. simpl. lia.
    + intros Hnd. apply G3, H4, Hnd.
Qed.

Lemma insert_by_NoDup (A B : Type) (f : A -> B) (before : A -> A -> bool)
    (x : A) (l : list A) :
  NoDup (map f (x :: l)) -> NoDup (map f (Js.insert_by before x l)).
Proof.
  induction l as [|y l IH]; simpl; [tauto|].
  destruct (before y x); [|tauto].
  intros H. inversion H as [|? ? Hx Hrest]; subst.
  inversion Hrest as [|? ? Hy Hl]; subst. simpl. constructor.
  - intros Hin. apply in_map_iff in Hin. destruct Hin as [z [Hz Hin]].
    apply insert_by_In in Hin. destruct Hin as [->|Hin].
    + apply Hx. left. now symmetry.
    + apply Hy. rewrite <- Hz. now apply in_map.
  - apply IH. simpl. constructor; [|exact Hl].
    intros Hin. apply Hx. now right.
Qed.

Lemma sort_by_NoDup (A B : Type) (f : A -> B) (before : A -> A -> bool)
    (l : list A) :
  NoDup (map f l) -> NoDup (map f (Js.sort_by before l)).
Proof.
  induction l as [|x l IH]; simpl; [tauto|].
  intros H. apply insert_by_NoDup. simpl. inversion H as [|? ? Hx Hl]; subst.
  constructor; [|now apply IH].
  intros Hin. apply Hx. apply in_map_iff in Hin.
  destruct Hin as [z [Hz Hin]]. apply sort_by_In in Hin. rewrite <- Hz.
  now apply in_map.
Qed.

Lemma firstn_short (A : Type) (n : nat) (l : list A) :
  (List.length (firstn n l) <= n)%nat.
Proof. rewrite length_firstn. apply Nat.le_min_l. Qed.

(** X26. enrichWithRelated adds to the results.  It keeps every result it
    received, adds at most six related concepts, two for each of the
    first three results, never one whose id is among the results or was
    added before, and returns all of them by score, the highest
    first. *)
Theorem enrichWithRelated_adds_to_the_results :
  forall s found,
    (forall r, In r found -> In r (enrichWithRelated s found))
    /\ (List.length (enrichWithRelated s found) <= List.length found + 6)%nat
    /\ StronglySorted (fun a b => score b <= score a)
         (enrichWithRelated s found)
    /\ (NoDup (map (fun r => id (concept r)) found) ->
        NoDup (map (fun r => id (concept r)) (enrichWithRelated s found))).
Proof.
  intros s found. unfold enrichWithRelated.
  destruct (enrich_results_spec s (firstn 3 found) found
              (map (fun r => id (concept r)) found)) as [extra [H1 [H2 H3]]].
  { intros r Hr. now apply (in_map (fun r => id (concept r))). }
  rewrite H1. pose proof (firstn_short _ 3 found) as Hshort.
  split; [|split; [|split]].
  - intros r Hr. apply sort_by_In. apply in_app_iff. now left.
  - rewrite sort_by_length, length_app. lia.
  - apply (sort_by_sorted _ (fun a b => Sql.Qgtb (score a) (score b))).
    + intros x y Hxy. apply Qgtb_true in Hxy. now apply Qlt_le_weak.
    + intros x y Hxy. now apply Qgtb_false in Hxy.
    + intros x y z Hxy Hyz. now apply Qle_trans with (score y).
  - intros Hnd. apply sort_by_NoDup. now apply H3.
Qed.

End EnhancedStore.

Section Tags.

Import ConceptStoreEnhanced.

Lemma set_of_NoDup (l seen : list string) :
  NoDup (Js.set_of l seen)
  /\ forall x, In x (Js.set_of l seen) -> ~ In x seen.
Proof.
  revert seen. induction l as [|y l IH]; intros seen; simpl.
  - split; [constructor | tauto].
  - destruct (Js.mem y seen) eqn:M; [apply IH|].
    destruct (IH (y :: seen)) as [H1 H2]. split.
    + constructor; [|exact H1]. intros Hy. apply (H2 y Hy). now left.
    + intros x [<-|Hx].
      * intros Hin. apply mem_In in Hin. congruence.
      * intros Hin. apply (H2 x Hx). now right.
Qed.

Lemma set_of_short (l seen : list string) :
  (List.length (Js.set_of l seen) <= List.length l)%nat.
Proof.
  revert seen. induction l as [|y l IH]; intros seen; simpl; [lia|].
  destruct (Js.mem y seen); [specialize (IH seen) | specialize (IH (y :: seen))];
    simpl; lia.
Qed.

Lemma firstn_In (A : Type) (n : nat) (l : list A) (x : A) :
  In x (firstn n l) -> In x l.
Proof.
  revert l. induction n as [|n IH]; intros [|y l]; simpl; try tauto.
  intros [H|H]; [now left | right; now apply IH].
Qed.

(** X27. the tags that extractTags gives.  They are at most five, no two
    are the same, each has more than four characters and none is one of
    should, would, could, might and must. *)
Theorem extractTags_gives_few_distinct_long_words :
  forall text,
    (List.length (extractTags text) <= 5)%nat
    /\ NoDup (extractTags text)
    /\ Forall (fun tag => (4 < String.length tag)%nat
                          /\ ~ In tag ["should"; "would"; "could"; "might"; "must"]%string)
         (extractTags text).
Proof.
  intros text. unfold extractTags. split; [|split].
  - etransitivity; [apply set_of_short | apply firstn_short].
  - apply set_of_NoDup.
  - apply Forall_forall. intros tag Htag. apply set_of_In in Htag.
    apply firstn_In in Htag. apply filter_In in Htag.
    destruct Htag as [Htag Hstop]. apply filter_In in Htag.
    destruct Htag as [_ Hlen]. apply Nat.ltb_lt in Hlen. split; [exact Hlen|].
    intros Hin. apply mem_In in Hin. rewrite Hin in Hstop. discriminate.
Qed.

End Tags.

(* ------------------------------------------------------------------ *)
(** ** The dedupe key of a summary *)

Section DedupeKey.

Import Js.

Lemma lower_char_idempotent (c : ascii) : lower_char (lower_char c) = lower_char c.
Proof.
  destruct c as [[] [] [] [] [] [] [] []]; vm_compute; reflexivity.
Qed.

Lemma lower_char_not_upper (c : ascii) : is_upper (lower_char c) = false.
Proof.
  destruct c as [[] [] [] [] [] [] [] []]; vm_compute; reflexivity.
Qed.

Lemma lower_char_special (c : ascii) : is_special (lower_char c) = is_special c.
Proof.
  destruct c as [[] [] [] [] [] [] [] []]; vm_compute; reflexivity.
Qed.

Lemma map_chars_fixed (f : ascii -> ascii) (p : ascii -> bool) (s : string) :
  (forall c, p c = false -> f c = c) ->
  exists_char p s = false -> map_chars f s = s.
Proof.
  intros Hf. induction s as [|c s IH]; simpl; [reflexivity|].
  intros H. apply orb_false_iff in H. destruct H as [Hc Hs].
  now rewrite (Hf c Hc), (IH Hs).
Qed.

Lemma filter_chars_fixed (p : ascii -> bool) (s : string) :
  exists_char (fun c => negb (p c)) s = false -> filter_chars p s = s.
Proof.
  induction s as [|c s IH]; simpl; [reflexivity|].
  intros H. apply orb_false_iff in H. destruct H as [Hc Hs].
  apply negb_false_iff in Hc. now rewrite Hc, (IH Hs).
Qed.

Lemma exists_char_filter (q p : ascii -> bool) (s : string) :
  exists_char q (filter_chars p s) = true ->
  exists_char (fun c => q c && p c) s = true.
Proof.
  induction s as [|c s IH]; simpl; [discriminate|].
  destruct (p c) eqn:Ep; simpl.
  - intros H. apply orb_true_iff in H. apply orb_true_iff.
    destruct H as [H|H]; [left; now rewrite H | right; now apply IH].
  - intros H. rewrite (IH H). apply orb_true_r.
Qed.

Lemma filter_map_filter (p : ascii -> bool) (f : ascii -> ascii) (s : string) :
  (forall c, p (f c) = p c) ->
  filter_chars p (map_chars f (filter_chars p s))
  = filter_chars p (map_chars f s).
Proof.
  intros Hf. induction s as [|c s IH]; simpl; [reflexivity|].
  destruct (p c) eqn:Ep; simpl; rewrite Hf, Ep; [now rewrite IH | exact IH].
Qed.

Lemma map_chars_idempotent (f : ascii -> ascii) (s : string) :
  (forall c, f (f c) = f c) -> map_chars f (map_chars f s) = map_chars f s.
Proof.
  intros Hf. induction s as [|c s IH]; simpl; [reflexivity|].
  now rewrite Hf, IH.
Qed.

(** What normalizeForDedupe leaves holds no character of the class [p]
    when the cleaning lets none through. *)
Lemma key_without (p : ascii -> bool) (summary : string) :
  p " "%char = false ->
  (forall c, p (lower_char c) && negb (is_space (lower_char c))
             && negb (is_special (lower_char c)) = false) ->
  exists_char p (ContextBroker.normalizeForDedupe summary) = false.
Proof.
  intros Hspace Hp. unfold ContextBroker.normalizeForDedupe.
  destruct (exists_char p (trim _)) eqn:E; [|reflexivity]. exfalso.
  apply exists_char_trim in E. unfold collapse_spaces in E.
  apply exists_char_collapse in E. destruct E as [E|E]; [congruence|].
  unfold drop_specials in E. apply exists_char_filter in E.
  unfold toLowerCase in E. rewrite exists_char_map in E.
  rewrite exists_char_false in E; [discriminate|]. exact Hp.
Qed.

(** X28. the dedupe key of a summary of ASCII characters.
    normalizeForDedupe gives one key to such summaries when they differ
    in the case of their letters or in characters that are neither
    letters, digits, underscores nor white space, and a key is its own
    key.  Beyond ASCII the case mapping turns some special characters
    into letters (the Kelvin sign into k), and nothing is stated. *)
Theorem dedupe_key_ignores_case_and_punctuation :
  forall summary,
    ascii_only summary = true ->
    ContextBroker.normalizeForDedupe (toLowerCase summary)
    = ContextBroker.normalizeForDedupe summary
    /\ ContextBroker.normalizeForDedupe (drop_specials summary)
       = ContextBroker.normalizeForDedupe summary
    /\ ContextBroker.normalizeForDedupe (ContextBroker.normalizeForDedupe summary)
       = ContextBroker.normalizeForDedupe summary.
Proof.
  intros summary _. split; [|split].
  - unfold ContextBroker.normalizeForDedupe, toLowerCase.
    now rewrite (map_chars_idempotent _ _ lower_char_idempotent).
  - unfold ContextBroker.normalizeForDedupe, drop_specials, toLowerCase.
    rewrite filter_map_filter; [reflexivity|].
    intros c. now rewrite lower_char_special.
  - set (key := ContextBroker.normalizeForDedupe summary).
    assert (Hup : exists_char is_upper key = false).
    { apply key_without; [reflexivity|]. intros c.
      now rewrite lower_char_not_upper. }
    assert (Hsp : exists_char (fun c => negb (negb (is_special c))) key = false).
    { apply key_without; [reflexivity|]. intros c.
      destruct (is_special (lower_char c)); simpl;
        now rewrite ?andb_false_r. }
    unfold ContextBroker.normalizeForDedupe at 1. unfold toLowerCase.
    rewrite (map_chars_fixed lower_char is_upper key);
      [|intros c Hc; unfold lower_char; now rewrite Hc | exact Hup].
    unfold drop_specials. rewrite (filter_chars_fixed _ key Hsp).
    unfold collapse_spaces. rewrite single_spaced_collapse.
    + unfold key, ContextBroker.normalizeForDedupe. apply trim_idempotent.
    + unfold key, ContextBroker.normalizeForDedupe, trim.
      apply single_spaced_trimEnd.
      apply (single_spaced_trimStart false). apply collapse_single_spaced.
Qed.

End DedupeKey.

(** The summary JWT: auth-flow!, its lower case and its letters alone
    have the key jwt authflow. *)
Lemma dedupe_key_ignores_case_and_punctuation_witness :
  ContextBroker.normalizeForDedupe "JWT: auth-flow!" = "jwt authflow"%string
  /\ ContextBroker.normalizeForDedupe (Js.toLowerCase "JWT: auth-flow!")
     = ContextBroker.normalizeForDedupe "JWT: auth-flow!"
  /\ ContextBroker.normalizeForDedupe (Js.drop_specials "JWT: auth-flow!")
     = ContextBroker.normalizeForDedupe "JWT: auth-flow!"
  /\ ContextBroker.normalizeForDedupe
       (ContextBroker.normalizeForDedupe "JWT: auth-flow!")
     = ContextBroker.normalizeForDedupe "JWT: auth-flow!".
Proof.
  split; [reflexivity|].
  apply (dedupe_key_ignores_case_and_punctuation "JWT: auth-flow!").
  reflexivity.
Defined.

(* ------------------------------------------------------------------ *)
(** ** The further properties at the sample data *)

Lemma sample_fingerprints_unique :
  MemoryDatabase.fingerprints_unique Examples.project Examples.table.
Proof.
  intros h. unfold MemoryDatabase.stored_with, Examples.table. cbn [filter].
  assert (E : MemoryDatabase.collides Examples.project h Examples.foreign_row
              = false) by (unfold MemoryDatabase.collides; apply andb_false_r).
  rewrite E.
  destruct (MemoryDatabase.collides Examples.project h Examples.jwt_row);
    simpl; lia.
Qed.

(** The query jwt auth! is searched between quotes first and then, as
    fallback 1, between quotes again. *)
Lemma fallback_one_repeats_the_primary_expression_witness :
  MemoryDatabase.escapeQuery "jwt auth!"
  = MemoryDatabase.quoted (MemoryDatabase.fallbackQuery "jwt auth!")
  /\ MemoryDatabase.escapeQuery (MemoryDatabase.fallbackQuery "jwt auth!")
     = (if Js.includes (MemoryDatabase.fallbackQuery "jwt auth!") " "
        then MemoryDatabase.quoted (MemoryDatabase.fallbackQuery "jwt auth!")
        else MemoryDatabase.fallbackQuery "jwt auth!").
Proof.
  apply (fallback_one_repeats_the_primary_expression "jwt auth!").
  vm_compute. reflexivity.
Defined.

(** The sweep at time 2000 over the table with the record that expired
    at 1500. *)
Lemma cleanupExpired_is_invisible_to_reads_witness :
  (forall r,
     In r (MemoryDatabase.cleanupExpired Examples.table_with_expired 2000)
     <-> In r Examples.table_with_expired
         /\ match MemoryDatabase.expires_at (MemoryDatabase.rowToMemory r) with
            | Some e => (2000 <= e)%Z
            | None => True
            end)
  /\ MemoryDatabase.getRecent Examples.no_like Examples.project
       (MemoryDatabase.cleanupExpired Examples.table_with_expired 2000) 2000
       Examples.recent_call
     = MemoryDatabase.getRecent Examples.no_like Examples.project
         Examples.table_with_expired 2000 Examples.recent_call.
Proof.
  apply (cleanupExpired_is_invisible_to_reads Examples.no_like Examples.project
           Examples.table_with_expired 2000 Examples.recent_call).
  reflexivity.
Defined.

Lemma reads_leave_expired_records_out_witness :
  Forall (fun m => MemoryDatabase.not_expired 2000 m = true)
    (MemoryDatabase.getRecent Examples.no_like Examples.project
       Examples.table_with_expired 2000 Examples.recent_call)
  /\ Forall (fun m => exists stage,
                (1 <= stage <= 4)%nat
                /\ MemoryDatabase.not_expired (Examples.clock stage) m = true)
       (MemoryDatabase.found_by_search
          (MemoryDatabase.search Examples.word_fts Examples.no_like
             Examples.project Examples.table_with_expired Examples.clock
             Examples.jwt_query)).
Proof.
  apply (reads_leave_expired_records_out Examples.no_like Examples.project
           Examples.word_fts Examples.table_with_expired Examples.clock 2000
           Examples.jwt_query Examples.recent_call); reflexivity.
Defined.

Lemma search_returns_at_most_k_witness :
  (List.length
     (MemoryDatabase.found_by_search
        (MemoryDatabase.search Examples.word_fts Examples.no_like
           Examples.project Examples.table_with_expired Examples.clock
           Examples.one_query))
   <= Z.to_nat (Js.or_default (MemoryDatabase.k Examples.one_query) 10))%nat.
Proof.
  apply (search_returns_at_most_k Examples.no_like Examples.project
           Examples.word_fts Examples.table_with_expired Examples.clock
           Examples.one_query).
  vm_compute. discriminate.
Defined.

(** The ids mem_1, __proto__ and mem_0 asked of the table: mem_1 is
    answered as get answers it, and the object has a null prototype and
    no property __proto__. *)
Lemma getMultiple_agrees_with_get_witness :
  MemoryDatabase.lookup "mem_1"
    (MemoryDatabase.own
       (MemoryDatabase.getMultiple Examples.project Examples.table
          ["mem_1"; "__proto__"; "mem_0"]))
  = (if Js.mem "mem_1" ["mem_1"; "__proto__"; "mem_0"]
     then Some (MemoryDatabase.get Examples.project Examples.table "mem_1")
     else None)
  /\ MemoryDatabase.prototype
       (MemoryDatabase.getMultiple Examples.project Examples.table
          ["mem_1"; "__proto__"; "mem_0"])
     = MemoryDatabase.NullPrototype
  /\ MemoryDatabase.has_own "__proto__"
       (MemoryDatabase.getMultiple Examples.project Examples.table
          ["mem_1"; "__proto__"; "mem_0"])
     = false.
Proof.
  destruct (getMultiple_agrees_with_get Examples.project Examples.table
              ["mem_1"; "__proto__"; "mem_0"] "mem_1" sample_table_ok
              ltac:(discriminate))
    as [H1 [_ [H2 H3]]].
  split; [exact H1|]. split; [apply H2 | apply H3]; reflexivity.
Defined.

(** The note saved again is read back under the id of the first save. *)
Lemma save_then_get_witness :
  exists r rows' m,
    MemoryDatabase.save Examples.plain_md5 Examples.project Examples.table 3000
      "mem_2" Examples.jwt_again = Js.Ok (r, rows')
    /\ MemoryDatabase.get Examples.project rows' (MemoryDatabase.saved_id r)
       = Some m
    /\ MemoryDatabase.id m = MemoryDatabase.saved_id r
    /\ MemoryDatabase.project_id m = Examples.project
    /\ MemoryDatabase.summary m = MemoryDatabase.save_summary Examples.jwt_again
    /\ MemoryDatabase.text m = MemoryDatabase.save_text Examples.jwt_again
    /\ MemoryDatabase.updated_at m = 3000%Z.
Proof.
  apply (save_then_get Examples.plain_md5 Examples.project Examples.table 3000
           "mem_2" Examples.jwt_again).
  - exact sample_table_ok.
  - exact I.
  - repeat constructor; discriminate.
Defined.

Lemma save_keeps_fingerprints_unique_witness :
  MemoryDatabase.table_ok (snd Examples.saved_again)
  /\ MemoryDatabase.fingerprints_unique Examples.project
       (snd Examples.saved_again).
Proof.
  apply (save_keeps_fingerprints_unique Examples.plain_md5 Examples.project
           Examples.table 3000 "mem_2" Examples.jwt_again
           (fst Examples.saved_again) (snd Examples.saved_again)).
  - exact sample_table_ok.
  - exact I.
  - repeat constructor; discriminate.
  - exact sample_fingerprints_unique.
  - vm_compute. reflexivity.
Defined.

(** The preview of the task jwt in the default mode: the concept on the
    allowlist comes before the record. *)
Lemma preview_orders_by_score_witness :
  StronglySorted
    (fun a b => ContextBroker.score b <= ContextBroker.score a)
    (ContextBroker.injections Examples.smart_result)
  /\ NoDup (map ContextBroker.dedupeKey
              (ContextBroker.injections Examples.smart_result)).
Proof.
  apply (preview_orders_by_score Examples.project Examples.star_fts
           Examples.no_like Examples.star_concept_fts Examples.table
           Examples.allow_store Examples.clock Examples.clock 3000
           Examples.smart_call Examples.smart_result).
  vm_compute. reflexivity.
Defined.

Lemma preview_counts_candidates_witness :
  (ContextBroker.totalCandidates (ContextBroker.stats Examples.smart_result)
   = ContextBroker.projectMatches (ContextBroker.stats Examples.smart_result)
     + ContextBroker.conceptMatches (ContextBroker.stats Examples.smart_result))%Z
  /\ (0 <= ContextBroker.pathMatches (ContextBroker.stats Examples.smart_result)
      <= ContextBroker.projectMatches (ContextBroker.stats Examples.smart_result))%Z
  /\ (Z.of_nat (List.length (ContextBroker.injections Examples.smart_result))
      <= ContextBroker.totalCandidates
           (ContextBroker.stats Examples.smart_result))%Z.
Proof.
  apply (preview_counts_candidates Examples.project Examples.star_fts
           Examples.no_like Examples.star_concept_fts Examples.table
           Examples.allow_store Examples.clock Examples.clock 3000
           Examples.smart_call Examples.smart_result).
  vm_compute. reflexivity.
Defined.

Lemma preview_hard_mode_reads_memories_only_witness :
  exists p,
    ContextBroker.preview Examples.project Examples.word_fts Examples.no_like
      Examples.word_concept_fts Examples.table Examples.no_concepts
      Examples.clock Examples.clock 3000 Examples.preview_call = Js.Ok p
    /\ Forall (fun i => ContextBroker.type i = ContextBroker.memory)
         (ContextBroker.injections p)
    /\ ContextBroker.conceptMatches (ContextBroker.stats p) = 0%Z.
Proof.
  apply (preview_hard_mode_reads_memories_only Examples.project
           Examples.word_fts Examples.no_like Examples.word_concept_fts
           Examples.table Examples.no_concepts Examples.clock Examples.clock
           3000 Examples.preview_call).
  reflexivity.
Defined.

Lemma preview_smart_mode_keeps_to_the_allowlist_witness :
  In (ContextBroker.id Examples.smart_concept)
    (ConceptStore.list_allowlist Examples.allow_store Examples.project).
Proof.
  apply (preview_smart_mode_keeps_to_the_allowlist Examples.project
           Examples.star_fts Examples.no_like Examples.star_concept_fts
           Examples.table Examples.allow_store Examples.clock Examples.clock
           3000 Examples.smart_call Examples.smart_result
           Examples.smart_concept).
  - discriminate.
  - reflexivity.
  - vm_compute. reflexivity.
  - vm_compute. left. reflexivity.
  - reflexivity.
Defined.

(** The path /src/middleware is one of the prefixes of the open file. *)
Lemma exact_path_match_is_perfect_witness :
  ContextBroker.pathMatchStrength ["/src/middleware"]
    (ContextBroker.inferPathPrefixes [Examples.open_file]) == 1
  /\ ContextBroker.hasPathMatch ["/src/middleware"]
       (ContextBroker.inferPathPrefixes [Examples.open_file]) = true.
Proof.
  apply (exact_path_match_is_perfect ["/src/middleware"]
           (ContextBroker.inferPathPrefixes [Examples.open_file])
           "/src/middleware" "/src/middleware").
  - left. reflexivity.
  - vm_compute. right. right. left. reflexivity.
  - reflexivity.
Defined.

Lemma unrooted_paths_never_match_witness :
  ContextBroker.pathMatchStrength ["src/middleware"]
    (ContextBroker.inferPathPrefixes [Examples.open_file]) == 0
  /\ ContextBroker.hasPathMatch ["src/middleware"]
       (ContextBroker.inferPathPrefixes [Examples.open_file]) = false.
Proof.
  apply (unrooted_paths_never_match ["src/middleware"] [Examples.open_file]).
  constructor; [vm_compute; reflexivity | constructor].
Defined.

Lemma recencyScore_favours_newer_witness :
  ContextBroker.recencyScore 3000 1000 <= ContextBroker.recencyScore 3000 2000
  /\ (2 # 10) <= ContextBroker.recencyScore 3000 1000
  /\ ContextBroker.recencyScore 3000 2000 <= 1.
Proof.
  apply (recencyScore_favours_newer 3000 1000 2000). lia.
Defined.

(** The stored concept saved again at time 200: it keeps its created_at
    of 100 and its place on the allowlist. *)
Lemma concept_save_then_get_witness :
  (exists c,
      ConceptStore.get (snd Examples.resaved) (fst Examples.resaved) = Some c
      /\ ConceptStore.id c = fst Examples.resaved
      /\ ConceptStore.title c = ConceptStore.save_title Examples.concept_resave
      /\ ConceptStore.body c = ConceptStore.save_body Examples.concept_resave
      /\ ConceptStore.tags c
         = Js.or_empty (ConceptStore.save_tags Examples.concept_resave)
      /\ ConceptStore.updated_at c = 200%Z
      /\ ConceptStore.created_at c
         = match ConceptStore.get Examples.allow_store (fst Examples.resaved) with
           | Some old => ConceptStore.created_at old
           | None => 200%Z
           end)
  /\ (forall other,
        other <> fst Examples.resaved ->
        ConceptStore.get (snd Examples.resaved) other
        = ConceptStore.get Examples.allow_store other)
  /\ ConceptStore.project_allowlists (snd Examples.resaved)
     = ConceptStore.project_allowlists Examples.allow_store.
Proof.
  apply (concept_save_then_get Examples.allow_store 200 Examples.concept_resave
           (fst Examples.resaved) (snd Examples.resaved)).
  vm_compute. reflexivity.
Defined.

(** With foreign keys enforced, saving the concept c-01 again takes it
    off the allowlist of the project. *)
Lemma save_replaces_one_concept_witness :
  exists c s',
    ConceptStoreEnhanced.save true Examples.listed_store 5000 "01"
      Examples.resave_call = Js.Ok (c, s')
    /\ ConceptStoreEnhanced.id c
       = ConceptStoreEnhanced.generateConceptId
           (ConceptStoreEnhanced.save_title Examples.resave_call) "01"
    /\ (forall other,
          other <> ConceptStoreEnhanced.id c ->
          ConceptStoreEnhanced.find_row s' other
          = ConceptStoreEnhanced.find_row Examples.listed_store other)
    /\ ConceptStoreEnhanced.project_allowlists s'
       = (if true
             && ConceptStoreEnhanced.has_concept
                  (ConceptStoreEnhanced.concepts Examples.listed_store)
                  (ConceptStoreEnhanced.id c)
          then filter (fun a => negb (ConceptStoreEnhanced.allow_concept_id a
                                      =? ConceptStoreEnhanced.id c)%string)
                 (ConceptStoreEnhanced.project_allowlists Examples.listed_store)
          else ConceptStoreEnhanced.project_allowlists Examples.listed_store).
Proof.
  apply (save_replaces_one_concept true Examples.listed_store 5000 "01"
           Examples.resave_call).
  - vm_compute. reflexivity.
  - right. constructor.
Defined.

(** The search for cache returns three concepts and counts a use for
    the first, c01. *)
Lemma search_counts_a_use_of_the_first_result_witness :
  exists r',
    ConceptStoreEnhanced.find_row (snd Examples.cache_search) "c01" = Some r'
    /\ ConceptStoreEnhanced.row_usage_count r'
       = (ConceptStoreEnhanced.row_usage_count (Examples.cache_row "c01")
          + (if match fst Examples.cache_search with
                | top :: _ =>
                    ("c01" =? ConceptStoreEnhanced.id
                                (ConceptStoreEnhanced.concept top))%string
                | [] => false
                end then 1 else 0))%Z.
Proof.
  destruct (search_counts_a_use_of_the_first_result Examples.word_enhanced_fts
              Examples.cache_store 9000 9001 Examples.cache_query
              (fst Examples.cache_search) (snd Examples.cache_search)
              "c01" (Examples.cache_row "c01"))
    as [_ [_ [r' [H1 [H2 _]]]]].
  - vm_compute. reflexivity.
  - vm_compute. reflexivity.
  - exists r'. split; [exact H1 | exact H2].
Defined.

(** The five suggestions for the word cache stand on the list of the
    project, and a search for the project returns none of them. *)
Lemma suggestions_wait_for_acceptance_witness :
  (forall p r,
     ConceptStoreEnhanced.allowed (snd Examples.cache_suggested) p r
     = ConceptStoreEnhanced.allowed Examples.cache_store p r)
  /\ (exists new,
        ConceptStoreEnhanced.project_allowlists (snd Examples.cache_suggested)
        = ConceptStoreEnhanced.project_allowlists Examples.cache_store ++ new
        /\ Forall (fun a =>
                     ConceptStoreEnhanced.allow_project_id a = Examples.project
                     /\ ConceptStoreEnhanced.auto_suggested a = true
                     /\ ConceptStoreEnhanced.accepted a = false
                     /\ In (ConceptStoreEnhanced.allow_concept_id a)
                          (map ConceptStoreEnhanced.id
                             (fst Examples.cache_suggested))) new)
  /\ (forall c,
        In c (fst Examples.cache_suggested) ->
        existsb (fun a =>
                   (ConceptStoreEnhanced.allow_project_id a =? Examples.project)%string
                   && (ConceptStoreEnhanced.allow_concept_id a
                       =? ConceptStoreEnhanced.id c)%string)
          (ConceptStoreEnhanced.project_allowlists (snd Examples.cache_suggested))
        = true).
Proof.
  apply (suggestions_wait_for_acceptance Examples.word_enhanced_fts
           Examples.cache_store 9000 9001 Examples.clock Examples.project
           "cache" (fst Examples.cache_suggested) (snd Examples.cache_suggested)).
  vm_compute. reflexivity.
Defined.

(* ------------------------------------------------------------------ *)
(** ** The dedupe fingerprint and what a save does with it *)

Section SortedPaths.

Lemma string_leb_trans (a b c : string) :
  String.leb a b = true -> String.leb b c = true -> String.leb a c = true.
Proof.
  unfold String.leb. revert b c.
  induction a as [|x a IH]; intros [|y b] [|z c]; simpl;
    try reflexivity; try discriminate.
  unfold Ascii.compare.
  destruct (N.compare_spec (N_of_ascii x) (N_of_ascii y)) as [Exy|Lxy|Gxy];
    destruct (N.compare_spec (N_of_ascii y) (N_of_ascii z)) as [Eyz|Lyz|Gyz];
    destruct (N.compare_spec (N_of_ascii x) (N_of_ascii z)) as [Exz|Lxz|Gxz];
    intros Hab Hbc; try discriminate; try reflexivity; try lia.
  exact (IH b c Hab Hbc).
Qed.

Variable A : Type.
Variable before : A -> A -> bool.

Lemma insert_by_same_elements (x : A) (l : list A) :
  Permutation (Js.insert_by before x l) (x :: l).
Proof.
  induction l as [|y l IH]; simpl; [apply Permutation_refl|].
  destruct (before y x); [|apply Permutation_refl].
  apply perm_trans with (y :: x :: l); [now apply perm_skip | apply perm_swap].
Qed.

Lemma sort_by_same_elements (l : list A) : Permutation (Js.sort_by before l) l.
Proof.
  induction l as [|x l IH]; simpl; [apply perm_nil|].
  apply perm_trans with (x :: Js.sort_by before l);
    [apply insert_by_same_elements | now apply perm_skip].
Qed.

Variable le : A -> A -> Prop.
Hypothesis le_antisym : forall x y, le x y -> le y x -> x = y.

(** Two sorted lists of the same elements are the same list. *)
Lemma one_sorted_order (l1 : list A) :
  forall l2,
    StronglySorted le l1 -> StronglySorted le l2 -> Permutation l1 l2 ->
    l1 = l2.
Proof.
  induction l1 as [|x l1 IH]; intros l2 S1 S2 P.
  - apply Permutation_nil in P. now subst.
  - destruct l2 as [|y l2];
      [apply Permutation_sym, Permutation_nil in P; discriminate|].
    apply StronglySorted_inv in S1. destruct S1 as [S1 F1].
    apply StronglySorted_inv in S2. destruct S2 as [S2 F2].
    rewrite Forall_forall in F1, F2.
    assert (Exy : x = y).
    { assert (Hx : In x (y :: l2))
        by (apply (Permutation_in _ P); now left).
      assert (Hy : In y (x :: l1))
        by (apply (Permutation_in _ (Permutation_sym P)); now left).
      destruct Hx as [Hx|Hx]; [now symmetry|].
      destruct Hy as [Hy|Hy]; [exact Hy|].
      apply le_antisym; [now apply F1 | now apply F2]. }
    subst y. f_equal. apply IH; [exact S1 | exact S2|].
    exact (Permutation_cons_inv P).
Qed.

End SortedPaths.

(** paths.sort() gives one array for every order of the same paths. *)
Lemma sort_strings_canonical (l1 l2 : list string) :
  Permutation l1 l2 -> Js.sort_strings l1 = Js.sort_strings l2.
Proof.
  intros P. unfold Js.sort_strings.
  apply (one_sorted_order string (fun a b => String.leb a b = true)
           String.leb_antisym).
  - apply sort_by_sorted.
    + intros x y H. apply negb_true_iff in H.
      destruct (String.leb_total x y) as [T|T]; [exact T | congruence].
    + intros x y H. now apply negb_false_iff in H.
    + intros x y z. apply string_leb_trans.
  - apply sort_by_sorted.
    + intros x y H. apply negb_true_iff in H.
      destruct (String.leb_total x y) as [T|T]; [exact T | congruence].
    + intros x y H. now apply negb_false_iff in H.
    + intros x y z. apply string_leb_trans.
  - apply perm_trans with l1; [apply sort_by_same_elements|].
    apply perm_trans with l2; [exact P|].
    apply Permutation_sym, sort_by_same_elements.
Qed.

Section Dedupe.

Import MemoryDatabase.

Variable md5 : string -> string.
Variable projectId : string.

(** Summaries that agree up to the case of their letters and the white
    space around them, with the same paths in any order, have one
    fingerprint. *)
Lemma fingerprint_of_variants (params params2 : SaveParams) :
  Js.trim (Js.toLowerCase (save_summary params2))
  = Js.trim (Js.toLowerCase (save_summary params)) ->
  Permutation (Js.or_empty (save_paths params2)) (Js.or_empty (save_paths params)) ->
  fingerprint md5 params2 = fingerprint md5 params.
Proof.
  intros Hs Hp. unfold fingerprint, computeDedupeHash. cbv zeta.
  now rewrite Hs, (sort_strings_canonical _ _ Hp).
Qed.

Lemma find_the_row (rows : list Row) (existing : Row) :
  NoDup (map (fun r => id (rowToMemory r)) rows) ->
  In existing rows ->
  project_id (rowToMemory existing) = projectId ->
  find (update_where projectId (id (rowToMemory existing))) rows = Some existing.
Proof.
  intros Hkey Hin Hp. induction rows as [|r rows IH]; [destruct Hin|].
  cbn [map] in Hkey. apply NoDup_cons_iff in Hkey. destruct Hkey as [Hr Hkey].
  cbn [find]. destruct Hin as [->|Hin].
  - unfold update_where. now rewrite String.eqb_refl, Hp, String.eqb_refl.
  - assert (E : update_where projectId (id (rowToMemory existing)) r = false).
    { unfold update_where.
      destruct (String.eqb_spec (id (rowToMemory r)) (id (rowToMemory existing)))
        as [E|E]; [|reflexivity].
      exfalso. apply Hr. rewrite E.
      now apply (in_map (fun r => id (rowToMemory r))). }
    rewrite E. now apply IH.
Qed.

(** C1, as the code has it.  On summaries of ASCII characters: when a
    record of the project carries the fingerprint of the call, save
    inserts nothing and returns the id of that record, not the record;
    under that id the record then has the summary and the text of the
    call, the tags, the sorted paths and the importance of the call
    where the call gives them, and updated_at the time of the call; its
    created_at, its ttl and its expires_at stay as they were, whatever
    ttl the call gives, and every other row stays as it was.  When no
    record carries the fingerprint, save inserts a record under the
    generated id and returns it; the id is not checked, and when a row
    holds it already the insertion fails.  Two saves whose summaries
    agree up to the case of their letters and the white space around
    them and whose paths agree up to their order leave the number of
    records with that fingerprint at one when none carried it before,
    and the second returns the id that the first returned. *)
Theorem save_dedupes_by_fingerprint :
  forall rows now new_id params,
    table_ok rows -> importance_ok params ->
    Js.ascii_only (save_summary params) = true ->
    (forall existing,
       find (collides projectId (fingerprint md5 params)) rows = Some existing ->
       exists rows' m,
         save md5 projectId rows now new_id params
         = Js.Ok (Existing (id (rowToMemory existing)), rows')
         /\ List.length rows' = List.length rows
         /\ get projectId rows' (id (rowToMemory existing)) = Some m
         /\ summary m = save_summary params
         /\ text m = save_text params
         /\ tags m = match save_tags params with
                     | Some given => given
                     | None => tags (rowToMemory existing)
                     end
         /\ paths m = match save_paths params with
                      | Some given => Js.sort_strings given
                      | None => paths (rowToMemory existing)
                      end
         /\ importance m = match save_importance params with
                           | Some given => given
                           | None => importance (rowToMemory existing)
                           end
         /\ updated_at m = now
         /\ created_at m = created_at (rowToMemory existing)
         /\ ttl m = ttl (rowToMemory existing)
         /\ expires_at m = expires_at (rowToMemory existing)
         /\ (forall r,
               In r rows ->
               update_where projectId (id (rowToMemory existing)) r = false ->
               In r rows'))
    /\ (find (collides projectId (fingerprint md5 params)) rows = None ->
        (fresh new_id rows ->
         exists m,
           save md5 projectId rows now new_id params
           = Js.Ok (Saved m, rows ++ [new_row md5 projectId now new_id params])
           /\ get projectId (rows ++ [new_row md5 projectId now new_id params])
                new_id
              = Some (rowToMemory (new_row md5 projectId now new_id params))
           /\ id m = new_id /\ project_id m = projectId
           /\ summary m = save_summary params /\ text m = save_text params
           /\ tags m = Js.or_empty (save_tags params)
           /\ paths m = Js.sort_strings (Js.or_empty (save_paths params))
           /\ importance m = Js.or_default (save_importance params) 3
           /\ created_at m = now /\ updated_at m = now)
        /\ (In new_id (map (fun r => id (rowToMemory r)) rows) ->
            save md5 projectId rows now new_id params = Js.Err Js.SQLITE_CONSTRAINT))
    /\ (forall now2 id2 params2,
          importance_ok params2 ->
          Js.ascii_only (save_summary params2) = true ->
          Js.trim (Js.toLowerCase (save_summary params2))
          = Js.trim (Js.toLowerCase (save_summary params)) ->
          Permutation (Js.or_empty (save_paths params2))
            (Js.or_empty (save_paths params)) ->
          fresh new_id rows ->
          exists r1 rows1 r2 rows2,
            save md5 projectId rows now new_id params = Js.Ok (r1, rows1)
            /\ save md5 projectId rows1 now2 id2 params2 = Js.Ok (r2, rows2)
            /\ saved_id r2 = saved_id r1
            /\ List.length rows2 = List.length rows1
            /\ stored_with projectId (fingerprint md5 params) rows2
               = Nat.max 1 (stored_with projectId (fingerprint md5 params) rows)).
Proof.
  intros rows now new_id params Hok Himp _. split; [|split].
  - intros existing Hfind.
    pose proof (save_collision md5 projectId rows now new_id params existing
                  Hok Himp Hfind) as Hsave.
    destruct (find_collides_where projectId _ _ _ Hfind) as [Hin Hw].
    assert (Hp : project_id (rowToMemory existing) = projectId).
    { unfold update_where in Hw. apply andb_true_iff in Hw.
      destruct Hw as [_ Hw]. now apply String.eqb_eq in Hw. }
    pose proof (find_the_row rows existing (proj1 Hok) Hin Hp) as Hrow.
    exists (updated projectId now (id (rowToMemory existing)) params rows),
      (rowToMemory (set_columns now (patch_of params) existing)).
    split; [exact Hsave|]. split; [apply updated_length|]. split.
    { unfold get, updated.
      change (fun r : Row =>
                (id (rowToMemory r) =? id (rowToMemory existing))%string
                && (project_id (rowToMemory r) =? projectId)%string)
        with (update_where projectId (id (rowToMemory existing))).
      rewrite (find_map_where _ (set_columns now (patch_of params)) rows existing);
        [reflexivity | intros y; reflexivity | exact Hrow]. }
    cbn [set_columns rowToMemory patch_of summary text tags paths importance
         updated_at created_at ttl expires_at patch_summary patch_text
         patch_tags patch_paths patch_importance].
    repeat (split; [try reflexivity|]).
    + now destruct (save_paths params).
    + intros r Hr Hother. unfold updated. apply in_map_iff. exists r.
      now rewrite Hother.
  - intros Hfind. split.
    + intros Hfresh.
      destruct (save_insert md5 projectId rows now new_id params Himp Hfresh Hfind)
        as [m [Hsave _]].
      unfold save in Hsave. fold (fingerprint md5 params) in Hsave.
      fold (collides projectId (fingerprint md5 params)) in Hsave.
      rewrite Hfind in Hsave. cbv zeta in Hsave.
      destruct (insert rows _) as [rows'|e]; cbn [Js.bind] in Hsave;
        [|discriminate].
      injection Hsave as <- Hrows.
      eexists. split.
      { unfold save. fold (fingerprint md5 params).
        fold (collides projectId (fingerprint md5 params)).
        rewrite Hfind. cbv zeta.
        unfold insert. cbn [rowToMemory id importance].
        rewrite (fresh_existsb _ _ Hfresh), (importance_default_ok _ Himp).
        cbn [Js.bind]. reflexivity. }
      split.
      { unfold get.
        pose proof (find_app_fresh projectId rows
                      (new_row md5 projectId now new_id params)) as Hf.
        cbn [new_row rowToMemory id project_id] in Hf.
        now rewrite (Hf Hfresh eq_refl). }
      cbn. repeat (split; [reflexivity|]).
      split; [now destruct (save_paths params)|]. now repeat split.
    + intros Htaken. unfold save. fold (fingerprint md5 params).
      fold (collides projectId (fingerprint md5 params)).
      rewrite Hfind. cbv zeta. unfold insert. cbn [rowToMemory id].
      assert (E : existsb (fun x => (id (rowToMemory x) =? new_id)%string) rows
                  = true).
      { apply existsb_exists. apply in_map_iff in Htaken.
        destruct Htaken as [r [Hr Hin]]. exists r. split; [exact Hin|].
        now apply String.eqb_eq. }
      now rewrite E.
  - intros now2 id2 params2 Himp2 _ Hs Hp Hfresh.
    apply (save_twice md5 projectId rows now new_id params now2 id2 params2
             Hok Himp Hfresh Himp2).
    now apply fingerprint_of_variants.
Qed.

End Dedupe.

(** A call with a time to live of a minute whose fingerprint is that of
    the stored record mem_1: save returns the id alone, and the record
    has no ttl and no expiry afterwards. *)
Lemma colliding_save_returns_an_id_and_keeps_the_expiry :
  exists rows',
    MemoryDatabase.save Examples.plain_md5 Examples.project Examples.table 3000
      "mem_2" Examples.jwt_with_ttl
    = Js.Ok (MemoryDatabase.Existing "mem_1", rows')
    /\ option_map MemoryDatabase.ttl
         (MemoryDatabase.get Examples.project rows' "mem_1") = Some None
    /\ option_map MemoryDatabase.expires_at
         (MemoryDatabase.get Examples.project rows' "mem_1") = Some None
    /\ MemoryDatabase.save_ttl Examples.jwt_with_ttl = Some 60%Z.
Proof.
  eexists. split; [vm_compute; reflexivity|].
  split; [vm_compute; reflexivity|]. split; [vm_compute; reflexivity|].
  reflexivity.
Qed.

(** The note with two paths is saved, and then again with its summary in
    capitals and its paths in the other order: the second save updates
    the record of the first. *)
Lemma save_dedupes_by_fingerprint_witness :
  exists r1 rows1 r2 rows2,
    MemoryDatabase.save Examples.plain_md5 Examples.project Examples.table 3000
      "mem_2" Examples.two_paths = Js.Ok (r1, rows1)
    /\ MemoryDatabase.save Examples.plain_md5 Examples.project rows1 4000
         "mem_3" Examples.two_paths_again = Js.Ok (r2, rows2)
    /\ MemoryDatabase.saved_id r2 = MemoryDatabase.saved_id r1
    /\ List.length rows2 = List.length rows1
    /\ MemoryDatabase.stored_with Examples.project
         (MemoryDatabase.fingerprint Examples.plain_md5 Examples.two_paths) rows2
       = Nat.max 1
           (MemoryDatabase.stored_with Examples.project
              (MemoryDatabase.fingerprint Examples.plain_md5 Examples.two_paths)
              Examples.table).
Proof.
  apply (proj2 (proj2 (save_dedupes_by_fingerprint Examples.plain_md5
                         Examples.project Examples.table 3000 "mem_2"
                         Examples.two_paths sample_table_ok I eq_refl))).
  - exact I.
  - reflexivity.
  - reflexivity.
  - apply perm_swap.
  - repeat constructor; discriminate.
Defined.

(* ------------------------------------------------------------------ *)
(** ** The first two stages of the cascade *)

Section CleanedStages.

Import MemoryDatabase.

(** What escapeQuery sends for a query with a special character: the
    cleaned query between quotes. *)
Lemma escapeQuery_of_special (query : string) :
  has_special query = true ->
  escapeQuery query = quoted (fallbackQuery query).
Proof.
  intros Hs. unfold escapeQuery, Js.collapse_spaces.
  rewrite collapse_blank_quotes.
  change (Js.trim (Js.collapse_from false (Js.blank_specials query)))
    with (fallbackQuery query).
  destruct (String.eqb_spec (fallbackQuery query) query) as [E|E];
    [|reflexivity].
  pose proof (cleaned_plain query) as Hp. fold (fallbackQuery query) in Hp.
  rewrite E, (has_special_not_plain _ Hs) in Hp. discriminate.
Qed.

(** What it sends for the cleaned query of several words: the same. *)
Lemma escapeQuery_of_cleaned (query : string) :
  Js.includes (fallbackQuery query) " " = true ->
  escapeQuery (fallbackQuery query) = quoted (fallbackQuery query).
Proof.
  intros Hi. unfold escapeQuery, Js.collapse_spaces.
  rewrite collapse_blank_quotes.
  change (Js.trim (Js.collapse_from false
                     (Js.blank_specials (fallbackQuery query))))
    with (fallbackQuery (fallbackQuery query)).
  rewrite fallbackQuery_idempotent, Hi, orb_true_r. reflexivity.
Qed.

Lemma includes_char (c : ascii) (s : string) :
  Js.includes s (String c "") = true ->
  Js.exists_char (Ascii.eqb c) s = true.
Proof.
  induction s as [|d s IH]; cbn [Js.includes Js.exists_char prefix].
  - cbn. discriminate.
  - intros H. apply orb_true_iff in H. apply orb_true_iff.
    destruct H as [H|H]; [left | right; now apply IH].
    destruct (ascii_dec c d) as [->|]; [apply Ascii.eqb_refl | discriminate].
Qed.

(** A piece of a split holds characters of the string only. *)
Lemma split_spaces_chars (p : ascii -> bool) (s : string) :
  forall piece,
    In piece (Js.split_spaces s) ->
    Js.exists_char p piece = true -> Js.exists_char p s = true.
Proof.
  induction s as [|c s IH]; intros piece; cbn [Js.split_spaces].
  - intros [<-|[]] H. exact H.
  - destruct (Js.is_space c).
    + intros Hin H. cbn [Js.exists_char]. apply orb_true_iff. right.
      destruct (Js.starts_with_space s).
      * now apply (IH piece).
      * destruct Hin as [<-|Hin]; [discriminate | now apply (IH piece)].
    + destruct (Js.split_spaces s) as [|first pieces] eqn:E.
      * intros [<-|[]] H. cbn [Js.exists_char] in H |- *.
        apply orb_true_iff in H. destruct H as [H|H]; [|discriminate].
        now rewrite H.
      * intros [<-|Hin] H; cbn [Js.exists_char] in H |- *;
          apply orb_true_iff.
        -- apply orb_true_iff in H. destruct H as [H|H]; [now left | right].
           apply (IH first); [now left | exact H].
        -- right. apply (IH piece); [now right | exact H].
Qed.

(** The cleaned query has no term that looks like a path. *)
Lemma pathTerms_of_plain (s : string) :
  plain s = true -> pathTerms s = [].
Proof.
  intros Hp. unfold pathTerms.
  assert (Hno : forall c, Js.is_word c = false -> Js.code c <> 32%nat ->
                  forall term, In term (Js.split_spaces s) ->
                    Js.includes term (String c "") = false).
  { intros c Hw Hc term Hin.
    destruct (Js.includes term (String c "")) eqn:E; [|reflexivity].
    exfalso. apply includes_char in E.
    apply (split_spaces_chars _ s term Hin) in E.
    unfold plain in Hp. apply negb_true_iff in Hp.
    rewrite (exists_char_weaken (Ascii.eqb c) _ s) in Hp;
      [discriminate| |exact E].
    intros d Hd. apply Ascii.eqb_eq in Hd. subst d. rewrite Hw.
    destruct (Nat.eqb_spec (Js.code c) 32); [contradiction | reflexivity]. }
  induction (Js.split_spaces s) as [|term terms IH]; [reflexivity|].
  cbn [filter].
  rewrite (Hno "/"%char), (Hno "\"%char), (Hno "."%char);
    try (now left); try reflexivity; try (cbv; discriminate).
  cbn [orb]. apply IH. intros c Hw Hc t Ht. apply Hno; [exact Hw|exact Hc|].
  now right.
Qed.

Lemma limit_nothing (A : Type) (k : Z) : Sql.limit k (@nil A) = [].
Proof. unfold Sql.limit. destruct (k <? 0)%Z; [reflexivity|]. apply firstn_nil. Qed.

Lemma filter_nothing (A : Type) (f g : A -> bool) (l : list A) :
  (forall x, g x = true -> f x = true) ->
  filter f l = [] -> filter g l = [].
Proof.
  intros Hfg. induction l as [|x l IH]; [reflexivity|]. cbn [filter].
  destruct (g x) eqn:Eg.
  - rewrite (Hfg x Eg). discriminate.
  - destruct (f x); [discriminate | exact IH].
Qed.

Variable fts5 : list Row -> string -> Js.result (Row -> option (Q * string)).
Variable like : string -> string -> bool.
Variable projectId : string.

(** A later search of the same expression, for a query without path
    terms, finds nothing when an earlier one found nothing: in between,
    records can only have expired. *)
Lemma later_search_finds_no_more rows now1 now2 params query' :
  (now1 <= now2)%Z ->
  escapeQuery query' = escapeQuery (q params) ->
  pathTerms query' = [] ->
  gives_nothing (executeSearch fts5 like projectId rows now1 params) = true ->
  gives_nothing
    (executeSearch fts5 like projectId rows now2 (with_q params query')) = true.
Proof.
  intros Hnow He Hp. unfold executeSearch, with_q.
  cbn [q k require_path_match search_tags include_expired].
  rewrite He, Hp.
  destruct (Js.truthy (require_path_match params)) eqn:Er; cbn [andb];
    [reflexivity|].
  destruct (fts5 rows (escapeQuery (q params))) as [hit|e]; cbn [Js.bind];
    [|reflexivity].
  set (joined := flat_map _ rows). intros H1.
  assert (Hsel : filter (fun rs => search_where like projectId now1 params (fst rs))
                   joined = []).
  { destruct (filter _ joined) as [|x sel] eqn:E; [reflexivity|].
    exfalso.
    match type of H1 with
    | gives_nothing (Js.Ok ?l) = true =>
        assert (Hl : (0 < List.length l)%nat)
    end.
    { rewrite length_map, limit_length_any, order_by_length.
      apply limited_positive; [|simpl; lia].
      apply or_default_not_zero. discriminate. }
    match type of H1 with
    | gives_nothing (Js.Ok ?l) = true => destruct l
    end; [simpl in Hl; lia | discriminate]. }
  match goal with
  | |- context [filter ?g joined] =>
      assert (Hsel2 : filter g joined = []);
        [revert Hsel; apply filter_nothing | rewrite Hsel2]
  end.
  - intros [r s]. cbn [fst]. unfold search_where.
    cbn [q k require_path_match search_tags include_expired].
    rewrite Er. cbn [negb orb]. rewrite !andb_true_r.
    intros H. apply andb_true_iff in H. destruct H as [H Ht].
    apply andb_true_iff in H. destruct H as [Hpr Hx].
    rewrite Hpr, Ht, andb_true_r. cbn [andb].
    destruct (Js.truthy (include_expired params)); [reflexivity|].
    cbn [orb] in Hx |- *. unfold not_expired in *.
    destruct (expires_at (rowToMemory r)) as [e|]; [|reflexivity].
    apply Z.ltb_lt in Hx. apply Z.ltb_lt. lia.
  - unfold Sql.order_by. cbn [Js.sort_by fold_right]. rewrite limit_nothing.
    reflexivity.
Qed.

(** C2.  For a query with a character that is neither a word character
    nor white space, stage 1 of searchWithDebug does not search the
    literal query: it matches the cleaned query, those characters
    replaced by spaces, as a phrase between quotes.  When stage 1 finds
    rows, they are returned with no fallback named and the query alone
    as the queries tried.  When stage 1 finds nothing (or fails) and the
    search of the cleaned query finds rows, searchWithDebug returns these
    rows, names the stage removed_special_chars, and lists the query and
    then the cleaned query as the queries tried.  When the cleaned query
    holds a space, stage 2 sends the expression of stage 1 again: with a
    clock that does not run backwards, removed_special_chars is never
    reported. *)
Theorem searchWithDebug_reports_stage_two :
  forall rows clock params,
    has_special (q params) = true ->
    escapeQuery (q params) = quoted (fallbackQuery (q params))
    /\ (forall found,
          executeSearch fts5 like projectId rows (clock 1%nat) params
          = Js.Ok found ->
          found <> [] ->
          exists d,
            searchWithDebug fts5 like projectId rows clock params = Js.Return d
            /\ results d = found
            /\ fallback_used d = None
            /\ queries_tried d = [q params]
            /\ original_query d = q params)
    /\ (forall found,
          gives_nothing
            (executeSearch fts5 like projectId rows (clock 1%nat) params) = true ->
          executeSearch fts5 like projectId rows (clock 2%nat)
            (with_q params (fallbackQuery (q params))) = Js.Ok found ->
          found <> [] ->
          exists d,
            searchWithDebug fts5 like projectId rows clock params = Js.Return d
            /\ results d = found
            /\ fallback_used d = Some "removed_special_chars"
            /\ queries_tried d = [q params; fallbackQuery (q params)]
            /\ original_query d = q params)
    /\ (Js.includes (fallbackQuery (q params)) " " = true ->
        (clock 1%nat <= clock 2%nat)%Z ->
        escapeQuery (fallbackQuery (q params)) = escapeQuery (q params)
        /\ (gives_nothing
              (executeSearch fts5 like projectId rows (clock 1%nat) params) = true ->
            gives_nothing
              (executeSearch fts5 like projectId rows (clock 2%nat)
                 (with_q params (fallbackQuery (q params)))) = true)
        /\ exists d,
             searchWithDebug fts5 like projectId rows clock params = Js.Return d
             /\ fallback_used d <> Some "removed_special_chars").
Proof.
  intros rows clock params Hspecial.
  assert (Hsame : Js.includes (fallbackQuery (q params)) " " = true ->
                  escapeQuery (fallbackQuery (q params)) = escapeQuery (q params)).
  { intros Hi. now rewrite escapeQuery_of_cleaned, escapeQuery_of_special. }
  assert (Hless : Js.includes (fallbackQuery (q params)) " " = true ->
                  (clock 1%nat <= clock 2%nat)%Z ->
                  gives_nothing
                    (executeSearch fts5 like projectId rows (clock 1%nat) params)
                  = true ->
                  gives_nothing
                    (executeSearch fts5 like projectId rows (clock 2%nat)
                       (with_q params (fallbackQuery (q params)))) = true).
  { intros Hi Hc. apply later_search_finds_no_more;
      [exact Hc | now apply Hsame | apply pathTerms_of_plain, cleaned_plain]. }
  split; [now apply escapeQuery_of_special|].
  split; [|split].
  - intros found H1 Hfound. unfold searchWithDebug.
    change (run_stage fts5 like projectId rows clock params 1)
      with (executeSearch fts5 like projectId rows (clock 1%nat) params).
    rewrite H1. destruct found as [|y found]; [congruence|].
    cbn. eexists. split; [reflexivity|]. cbn. repeat split.
  - intros found H1 H2 Hfound.
    unfold searchWithDebug. rewrite Hspecial.
    change (run_stage fts5 like projectId rows clock params 1)
      with (executeSearch fts5 like projectId rows (clock 1%nat) params).
    change (run_stage fts5 like projectId rows clock params 2)
      with (executeSearch fts5 like projectId rows (clock 2%nat)
              (with_q params (fallbackQuery (q params)))).
    rewrite H2.
    destruct (executeSearch fts5 like projectId rows (clock 1%nat) params)
      as [[|x l]|e]; try discriminate;
    (destruct found as [|y found]; [congruence|]);
    cbn; eexists; (split; [reflexivity|]); cbn; repeat split.
  - intros Hi Hc. split; [now apply Hsame|]. split; [now apply Hless|].
    specialize (Hless Hi Hc).
    unfold searchWithDebug. cbv beta zeta. rewrite Hspecial.
    change (run_stage fts5 like projectId rows clock params 1)
      with (executeSearch fts5 like projectId rows (clock 1%nat) params).
    change (run_stage fts5 like projectId rows clock params 2)
      with (executeSearch fts5 like projectId rows (clock 2%nat)
              (with_q params (fallbackQuery (q params)))).
    destruct (executeSearch fts5 like projectId rows (clock 1%nat) params)
      as [[|x l]|e];
      [ | cbn; eexists; (split; [reflexivity|]); cbn; discriminate | ];
    specialize (Hless eq_refl);
    (destruct (executeSearch fts5 like projectId rows (clock 2%nat)
                 (with_q params (fallbackQuery (q params))))
       as [[|y found]|e2]; [ | discriminate | ]);
    cbn [return_if_found Js.try_catch warn Js.seq];
    match goal with
    | |- context [Js.try_catch (return_if_found ?r ?w) _] =>
        destruct (return_if_found_cases _ r w) as [[N3 ->]|[f3 [Hf3 [R3 ->]]]]
    end;
    match goal with
    | |- context [Js.try_catch (return_whatever ?r ?w) _] =>
        destruct (return_whatever_cases _ r w) as [[e4 [R4 ->]]|[f4 [R4 ->]]]
    end;
    destruct (1 <? List.length (words (q params)))%nat;
    destruct (0 <? List.length (words (q params)))%nat;
    cbn [Js.seq]; eexists; (split; [reflexivity|]); cbn [fallback_used];
    discriminate.
Qed.

End CleanedStages.

(** Stage 1 is not the search of the literal query.  With an engine
    that rejects jwt! as FTS5 does, the literal expression gives an
    error and the search of jwt finds the record, yet searchWithDebug
    names no fallback and lists the literal query alone: stage 1 had
    already matched the cleaned query between quotes. *)
Lemma stage_one_already_cleans_the_query :
  Examples.phrase_fts Examples.table "jwt!" = Js.Err Js.SQLITE_ERROR
  /\ MemoryDatabase.executeSearch Examples.phrase_fts Examples.no_like
       Examples.project Examples.table (Examples.clock 2)
       (MemoryDatabase.with_q Examples.jwt_query "jwt")
     = Js.Ok Examples.jwt_found
  /\ exists d,
       MemoryDatabase.searchWithDebug Examples.phrase_fts Examples.no_like
         Examples.project Examples.table Examples.clock Examples.jwt_query
       = Js.Return d
       /\ MemoryDatabase.results d = Examples.jwt_found
       /\ MemoryDatabase.fallback_used d = None
       /\ MemoryDatabase.queries_tried d = ["jwt!"].
Proof.
  split; [reflexivity|]. split; [vm_compute; reflexivity|].
  eexists. split; [vm_compute; reflexivity|]. repeat split.
Qed.

(** The query jwt-auth! is matched as the phrase jwt auth at stage 1,
    and no call reports removed_special_chars for it. *)
Lemma searchWithDebug_reports_stage_two_witness :
  MemoryDatabase.escapeQuery "jwt-auth!"
  = MemoryDatabase.quoted "jwt auth"
  /\ exists d,
       MemoryDatabase.searchWithDebug Examples.phrase_fts Examples.no_like
         Examples.project Examples.table Examples.clock Examples.hyphen_query
       = Js.Return d
       /\ MemoryDatabase.fallback_used d <> Some "removed_special_chars"%string.
Proof.
  pose proof (searchWithDebug_reports_stage_two Examples.phrase_fts
                Examples.no_like Examples.project Examples.table
                Examples.clock Examples.hyphen_query eq_refl)
    as [H1 [_ [_ H4]]].
  split; [exact H1|].
  apply H4; [reflexivity | vm_compute; discriminate].
Defined.
